(** * letscopy: the post-management API and its per-user response cache

    A shallow embedding of [server/routes/posts.js] (the Express router with
    its in-process cache) and of [server/models/Post.js] (the Mongoose
    schema), followed by the properties the specification states about them,
    and by further properties of the routes and of the client components
    that call them ([Dashboard.js], [EditPost.js], [App.js]).

    Modelling conventions.
    - A JavaScript string is a [string]: a sequence of code units below 256.
      Case folding and white space are those of [String.prototype.toLowerCase]
      and [String.prototype.trim] in that range.
    - The MongoDB collection is a [list Post] in insertion order; a Mongoose
      call is a function on that list.  What the outside world supplies while
      a request is handled (clock readings of [Date.now()], whether the store
      answers, the ObjectId that [new Post] generates) is an [Env] record.
    - What the routes take from their libraries (the regular-expression
      engine behind the search, Mongoose's cast of a route parameter to an
      ObjectId) is a [Libraries] record, a parameter of the routes.
    - A request is handled atomically: [handle] maps a state, a request and
      an environment to the next state, the response and the store
      operations that were issued.
    - The three JavaScript [Map]s of [cache] are [gmap string CacheEntry]. *)

From Stdlib Require Import ZArith Ascii String List Bool Lia.
From stdpp Require Import gmap strings list fin_maps sorting.

Local Open Scope Z_scope.

(** ** Strings as JavaScript sees them *)

(** Code units [String.prototype.trim] strips: TAB, LF, VT, FF, CR, SPACE and
    NO-BREAK SPACE. *)
Definition isWhiteSpace (c : ascii) : bool :=
  match nat_of_ascii c with
  | 9%nat | 10%nat | 11%nat | 12%nat | 13%nat | 32%nat | 160%nat => true
  | _ => false
  end.

Fixpoint trimStart (s : string) : string :=
  match s with
  | EmptyString => EmptyString
  | String c s' => if isWhiteSpace c then trimStart s' else s
  end.

Fixpoint trimEnd (s : string) : string :=
  match s with
  | EmptyString => EmptyString
  | String c s' =>
      match trimEnd s' with
      | EmptyString => if isWhiteSpace c then EmptyString else String c EmptyString
      | t => String c t
      end
  end.

(** [s.trim()] *)
Definition trim (s : string) : string := trimEnd (trimStart s).

(** [s.startsWith(pre)] *)
Fixpoint startsWith (pre s : string) : bool :=
  match pre, s with
  | EmptyString, _ => true
  | String a pre', String b s' => if decide (a = b) then startsWith pre' s' else false
  | String _ _, EmptyString => false
  end.

(** Truthiness of a value that is either [undefined] or a string: only a
    non-empty string is truthy. *)
Definition truthy (v : option string) : bool :=
  match v with
  | Some (String _ _) => true
  | _ => false
  end.

(** [v || dflt] for such a value. *)
Definition orDefault (v : option string) (dflt : string) : string :=
  match v with
  | Some (String c s) => String c s
  | _ => dflt
  end.

(** Lower-casing of one code unit: the letters A-Z and the capital letters
    of Latin-1, 192 to 222 without the multiplication sign 215, move up by
    32; every other code unit below 256 is left as it is. *)
Definition toLowerChar (c : ascii) : ascii :=
  let n := nat_of_ascii c in
  if ((65 <=? n) && (n <=? 90)
      || (192 <=? n) && (n <=? 214)
      || (216 <=? n) && (n <=? 222))%nat
  then ascii_of_nat (n + 32) else c.

Fixpoint toLowerCase (s : string) : string :=
  match s with
  | EmptyString => EmptyString
  | String c s' => String (toLowerChar c) (toLowerCase s')
  end.

(** [hay.includes(needle)], on the strings as they are. *)
Fixpoint includes (needle hay : string) : bool :=
  startsWith needle hay ||
  match hay with
  | EmptyString => false
  | String _ hay' => includes needle hay'
  end.

(** "[needle] is a case-insensitive substring of [hay]", the way the client
    filters its list: [hay.toLowerCase().includes(needle.toLowerCase())]. *)
Definition includesIgnoreCase (needle hay : string) : bool :=
  includes (toLowerCase needle) (toLowerCase hay).

(** ** ObjectIds

    [req.user._id], a document's [_id] and its [user] are MongoDB ObjectIds.
    Interpolated into a template literal, or sent in JSON, an ObjectId is
    its 24 hexadecimal digits, and that string stands for it here. *)

Definition isHexDigit (c : ascii) : bool :=
  let n := nat_of_ascii c in
  ((48 <=? n) && (n <=? 57) || (97 <=? n) && (n <=? 102) || (65 <=? n) && (n <=? 70))%nat.

Fixpoint allHex (s : string) : bool :=
  match s with
  | EmptyString => true
  | String c s' => isHexDigit c && allHex s'
  end.

Definition isObjectId (s : string) : bool :=
  (String.length s =? 24)%nat && allHex s.

(** ** Documents, payloads and the validated request body *)

(** A document of the [Post] collection ([models/Post.js]).  [__v] is
    Mongoose's version key; a query with [.select('-__v')] yields the
    document without it. *)
Record Post := mkPost {
  _id : string;
  title : string;
  content : string;
  category : string;
  tags : list string;
  user : string;
  createdAt : Z;
  updatedAt : Z;
  __v : option Z
}.

Global Instance Post_eq_dec : EqDecision Post.
Proof. solve_decision. Defined.

(** [.select('-__v')] *)
Definition selectMinusV (p : Post) : Post :=
  mkPost (_id p) (title p) (content p) (category p) (tags p) (user p)
         (createdAt p) (updatedAt p) None.

(** One entry of [errors.array()]: the field and the chain's message. *)
Record FieldError := mkFieldError { param : string; msg : string }.

Global Instance FieldError_eq_dec : EqDecision FieldError.
Proof. solve_decision. Defined.

(** What a handler passes to [res.json]. *)
Inductive Payload :=
| JPosts (docs : list Post)
| JPost (doc : Post)
| JStrings (values : list string)
| JMessage (message : string)
| JValidation (message : string) (errors : list FieldError).

Global Instance Payload_eq_dec : EqDecision Payload.
Proof. solve_decision. Defined.

Record Response := mkResponse { status : nat; body : Payload }.

Global Instance Response_eq_dec : EqDecision Response.
Proof. solve_decision. Defined.

(** The documents a payload carries. *)
Definition payloadPosts (d : Payload) : list Post :=
  match d with
  | JPosts docs => docs
  | JPost doc => [doc]
  | _ => []
  end.

(** [req.body.tags]: an array of strings, or a JSON value that is no array. *)
Inductive TagsValue :=
| TagsArray (items : list string)
| TagsNotArray.

(** [req.body] of a create or update request.  [None] is an absent field
    ([undefined]); [title], [content] and [category], when present, are JSON
    strings. *)
Record Body := mkBody {
  b_title : option string;
  b_content : option string;
  b_category : option string;
  b_tags : option TagsValue
}.

(** [req.query] of a list request. *)
Record ListQuery := mkListQuery {
  q_category : option string;
  q_tag : option string;
  q_search : option string
}.

(** ** The validation chains (express-validator)

    Each [body(field)] chain sanitises its field in place and records at
    most one error; [validationResult(req).array()] lists the errors of all
    chains in the order the chains are declared. *)

(** express-validator reads an absent field as the empty string. *)
Definition toStringV (v : option string) : string := default EmptyString v.

(** [isLength({ min, max })] *)
Definition isLength (min max : N) (s : string) : bool :=
  ((min <=? N.of_nat (String.length s)) && (N.of_nat (String.length s) <=? max))%N.

Definition titleError : FieldError :=
  mkFieldError "title" "Title must be between 1 and 100 characters".
Definition contentError : FieldError :=
  mkFieldError "content" "Content must be between 1 and 10000 characters".
Definition categoryError : FieldError :=
  mkFieldError "category" "Category cannot exceed 50 characters".
Definition tagsError : FieldError :=
  mkFieldError "tags" "Tags must be an array".

(** [body('title').trim().isLength({ min: 1, max: 100 })] *)
Definition chainTitle (b : Body) : Body * list FieldError :=
  let v := trim (toStringV (b_title b)) in
  (mkBody (Some v) (b_content b) (b_category b) (b_tags b),
   if isLength 1 100 v then [] else [titleError]).

(** [body('content').trim().isLength({ min: 1, max: 10000 })] *)
Definition chainContent (b : Body) : Body * list FieldError :=
  let v := trim (toStringV (b_content b)) in
  (mkBody (b_title b) (Some v) (b_category b) (b_tags b),
   if isLength 1 10000 v then [] else [contentError]).

(** [body('category').optional().trim().isLength({ max: 50 })]: an absent
    field is skipped. *)
Definition chainCategory (b : Body) : Body * list FieldError :=
  match b_category b with
  | None => (b, [])
  | Some c =>
      let v := trim c in
      (mkBody (b_title b) (b_content b) (Some v) (b_tags b),
       if isLength 0 50 v then [] else [categoryError])
  end.

(** [body('tags').optional().isArray()] *)
Definition chainTags (b : Body) : Body * list FieldError :=
  match b_tags b with
  | None | Some (TagsArray _) => (b, [])
  | Some TagsNotArray => (b, [tagsError])
  end.

(** The four chains in sequence: the sanitised body and
    [validationResult(req).array()]. *)
Definition validationResult (b : Body) : Body * list FieldError :=
  let '(b1, e1) := chainTitle b in
  let '(b2, e2) := chainContent b1 in
  let '(b3, e3) := chainCategory b2 in
  let '(b4, e4) := chainTags b3 in
  (b4, e1 ++ e2 ++ e3 ++ e4).

(** [tags || []], reached only once [isArray] has passed. *)
Definition tagsOrEmpty (v : option TagsValue) : list string :=
  match v with
  | Some (TagsArray items) => items
  | _ => []
  end.

(** ** The schema ([models/Post.js]) *)

(** The [trim: true] setters, as [new Post(...)] and the cast of an update
    apply them. *)
Definition castFields (t c cat : string) (tgs : list string)
  : string * string * string * list string :=
  (trim t, trim c, trim cat, map trim tgs).

(** The object both mutating routes hand to the model,
    [{ title, content, category: category || 'General', tags: tags || [] }],
    read from the sanitised body and passed through the setters. *)
Definition postFields (b' : Body) : string * string * string * list string :=
  castFields (toStringV (b_title b')) (toStringV (b_content b'))
             (orDefault (b_category b') "General") (tagsOrEmpty (b_tags b')).

(** The schema validators: [required] and [maxlength] on [title] and
    [content], [maxlength] on [category] and on every tag. *)
Definition schemaValid (t c cat : string) (tgs : list string) : bool :=
  isLength 1 100 t && isLength 1 10000 c && isLength 0 50 cat
  && forallb (isLength 0 30) tgs.

(** ** The response cache ([const cache] of routes/posts.js) *)

Record CacheEntry := mkEntry { data : Payload; timestamp : Z }.

Record Cache := mkCache {
  cache_categories : gmap string CacheEntry;
  cache_tags : gmap string CacheEntry;
  cache_posts : gmap string CacheEntry
}.

Definition emptyCache : Cache := mkCache ∅ ∅ ∅.

(** The keys the routes use. *)
Definition postsKey (uid url : string) : string := uid +:+ ":" +:+ url.
Definition categoriesKey (uid : string) : string := "categories:" +:+ uid.
Definition tagsKey (uid : string) : string := "tags:" +:+ uid.

(** [cache.clearCache(userId = null)].  With a truthy [userId] each of the
    three loops deletes the keys that pass its test and keeps the others;
    otherwise the three maps are cleared. *)
Definition clearCache (userId : option string) (c : Cache) : Cache :=
  match userId with
  | Some (String _ _ as uid) =>
      mkCache
        (filter (λ kv, kv.1 ≠ categoriesKey uid) (cache_categories c))
        (filter (λ kv, kv.1 ≠ tagsKey uid) (cache_tags c))
        (filter (λ kv, startsWith (uid +:+ ":") kv.1 = false) (cache_posts c))
  | _ => emptyCache
  end.

(** Expiry windows, in milliseconds: the default of [cacheMiddleware], the
    one the list route passes, and the one the two aggregate routes use. *)
Definition defaultDuration : Z := 300000.
Definition listDuration : Z := 60000.
Definition aggregateDuration : Z := 600000.

(** ** State, environment and results *)

Record State := mkState { db : list Post; cache : Cache }.

(** What the world supplies while one request is handled: whether the store
    answers its call, [Date.now()] when the cache is consulted, [Date.now()]
    when the cache is written (and the time the store stamps on a document),
    and the ObjectId [new Post] generates. *)
Record Env := mkEnv {
  storeUp : bool;
  nowCheck : Z;
  nowWrite : Z;
  newId : string
}.

(** Calls made on the [Post] model that reach the store. *)
Inductive StoreOp :=
| OpFind | OpDistinct | OpFindOne | OpSave | OpFindOneAndUpdate | OpFindOneAndDelete.

Definition Result : Type := State * Response * list StoreOp.

Definition serverError : Response := mkResponse 500 (JMessage "Server error").
Definition notFound : Response := mkResponse 404 (JMessage "Post not found").
Definition invalidId : Response := mkResponse 400 (JMessage "Invalid post ID").

(** ** The store: Mongoose calls on the collection *)

(** The filter object the list route builds: [user], and optionally
    [category], [tags: { $in: [tag] }] and the three-way [$or] whose
    branches are [title] and [content] matched by [$regex: search] with
    option [i], and [tags: { $in: [new RegExp(search, 'i')] }]. *)
Record Filter := mkFilter {
  f_user : string;
  f_category : option string;
  f_tags_in : option string;
  f_or_regex : option string
}.

(** [{ _id: id, user: uid }] *)
Definition matchesIdUser (id uid : string) (p : Post) : bool :=
  bool_decide (_id p = id) && bool_decide (user p = uid).

(** [Post.findOne({ _id, user })] *)
Fixpoint findOne (id uid : string) (docs : list Post) : option Post :=
  match docs with
  | [] => None
  | p :: rest => if matchesIdUser id uid p then Some p else findOne id uid rest
  end.

(** [Post.findOneAndUpdate({ _id, user }, { title, content, category, tags },
    { new: true })] with the schema's [timestamps]: the first matching
    document gets the four fields and a new [updatedAt]; the collection
    after the call and the updated document, or [None] when none matches. *)
Fixpoint findOneAndUpdate (id uid : string) (t c cat : string) (tgs : list string)
    (now : Z) (docs : list Post) : option (list Post * Post) :=
  match docs with
  | [] => None
  | p :: rest =>
      if matchesIdUser id uid p then
        let p' := mkPost (_id p) t c cat tgs (user p) (createdAt p) now (__v p) in
        Some (p' :: rest, p')
      else
        match findOneAndUpdate id uid t c cat tgs now rest with
        | Some (rest', p') => Some (p :: rest', p')
        | None => None
        end
  end.

(** [Post.findOneAndDelete({ _id, user })] *)
Fixpoint findOneAndDelete (id uid : string) (docs : list Post) : option (list Post * Post) :=
  match docs with
  | [] => None
  | p :: rest =>
      if matchesIdUser id uid p then Some (rest, p)
      else
        match findOneAndDelete id uid rest with
        | Some (rest', d) => Some (p :: rest', d)
        | None => None
        end
  end.

(** [.sort({ createdAt: -1 })] *)
Fixpoint insertByCreatedDesc (p : Post) (docs : list Post) : list Post :=
  match docs with
  | [] => [p]
  | q :: rest =>
      if createdAt q <? createdAt p then p :: q :: rest
      else q :: insertByCreatedDesc p rest
  end.

Definition sortByCreatedDesc (docs : list Post) : list Post :=
  foldr insertByCreatedDesc [] docs.

(** [Post.distinct('category', { user })] and [Post.distinct('tags', { user })]:
    the latter flattens the tag arrays. *)
Definition distinctCategories (uid : string) (docs : list Post) : list string :=
  remove_dups (map category (filter (λ p, user p = uid) docs)).

Definition distinctTags (uid : string) (docs : list Post) : list string :=
  remove_dups (concat (map tags (filter (λ p, user p = uid) docs))).

(** Does a document satisfy a filter?  Mongoose casts the values of a
    filter by the schema before the store sees them, setters included: the
    strings given for [category] and inside [tags: { $in: [...] }] are
    trimmed ([trim: true]); a regular expression is passed on as it is.
    [orTest] is the compiled [$or] pattern, when the filter has one. *)
Definition matchesFilter (f : Filter) (orTest : option (string → bool)) (p : Post) : bool :=
  bool_decide (user p = f_user f)
  && match f_category f with
     | None => true
     | Some c => bool_decide (category p = trim c)
     end
  && match f_tags_in f with
     | None => true
     | Some t => bool_decide (trim t ∈ tags p)
     end
  && match orTest with
     | None => true
     | Some test => test (title p) || test (content p) || existsb test (tags p)
     end.

(** Lines 66-86 of the list route: the filter built from [req.query]. *)
Definition buildQuery (uid : string) (rq : ListQuery) : Filter :=
  mkFilter uid
    (if truthy (q_category rq) && negb (bool_decide (q_category rq = Some "All"))
     then q_category rq else None)
    (if truthy (q_tag rq) then q_tag rq else None)
    (if truthy (q_search rq) then q_search rq else None).

(** ** A regular-expression engine for a fragment of the pattern syntax

    The fragment: literal characters, [.], backslash-escaped metacharacters
    and parentheses around such patterns, searched anywhere in the subject
    with option [i].  A group without quantifier matches what its content
    matches; an unbalanced parenthesis or a backslash at the end is a syntax
    error.  A pattern that uses any other metacharacter lies outside the
    fragment; [fragmentRegex] rejects it, which is not meant as the verdict
    of a real engine, so it is to be used on patterns of the fragment
    only. *)

Inductive Atom :=
| AChar (c : ascii)
| AAny.

Definition isMetaChar (c : ascii) : bool :=
  bool_decide (c ∈ list_ascii_of_string "\^$.|?*+()[]{}").

(** Without option [s] the dot matches every character but the newline. *)
Definition isNewline (c : ascii) : bool :=
  match nat_of_ascii c with
  | 10%nat => true
  | _ => false
  end.

(** [depth] counts the groups that are open. *)
Fixpoint parseAtoms (depth : nat) (pattern : string) : option (list Atom) :=
  match pattern with
  | EmptyString => match depth with O => Some [] | S _ => None end
  | String c rest =>
      if decide (c = "\"%char) then
        match rest with
        | String d rest' =>
            if isMetaChar d then cons (AChar d) <$> parseAtoms depth rest' else None
        | EmptyString => None
        end
      else if decide (c = "("%char) then parseAtoms (S depth) rest
      else if decide (c = ")"%char) then
        match depth with O => None | S depth' => parseAtoms depth' rest end
      else if decide (c = "."%char) then cons AAny <$> parseAtoms depth rest
      else if isMetaChar c then None
      else cons (AChar c) <$> parseAtoms depth rest
  end.

Definition atomMatches (a : Atom) (c : ascii) : bool :=
  match a with
  | AChar x => bool_decide (toLowerChar x = toLowerChar c)
  | AAny => negb (isNewline c)
  end.

Fixpoint matchHere (atoms : list Atom) (subject : string) : bool :=
  match atoms, subject with
  | [], _ => true
  | a :: atoms', String c subject' => atomMatches a c && matchHere atoms' subject'
  | _ :: _, EmptyString => false
  end.

Fixpoint matchAnywhere (atoms : list Atom) (subject : string) : bool :=
  matchHere atoms subject ||
  match subject with
  | EmptyString => false
  | String _ subject' => matchAnywhere atoms subject'
  end.

Definition fragmentRegex (pattern : string) : option (string → bool) :=
  matchAnywhere <$> parseAtoms 0 pattern.

(** ** The routes *)

(** The requests the router serves.  [uid] is [req.user._id] as the [auth]
    middleware resolved it, [url] is [req.originalUrl], [id] is
    [req.params.id]. *)
Inductive Request :=
| GetPosts (uid url : string) (query : ListQuery)
| GetCategories (uid : string)
| GetTags (uid : string)
| GetPost (uid id : string)
| CreatePost (uid : string) (b : Body)
| UpdatePost (uid id : string) (b : Body)
| DeletePost (uid id : string).

Definition caller (r : Request) : string :=
  match r with
  | GetPosts uid _ _ | GetCategories uid | GetTags uid | GetPost uid _
  | CreatePost uid _ | UpdatePost uid _ _ | DeletePost uid _ => uid
  end.

Definition withCachePosts (m : gmap string CacheEntry) (s : State) : State :=
  mkState (db s) (mkCache (cache_categories (cache s)) (cache_tags (cache s)) m).

Definition withCacheCategories (m : gmap string CacheEntry) (s : State) : State :=
  mkState (db s) (mkCache m (cache_tags (cache s)) (cache_posts (cache s))).

Definition withCacheTags (m : gmap string CacheEntry) (s : State) : State :=
  mkState (db s) (mkCache (cache_categories (cache s)) m (cache_posts (cache s))).

(** [cacheMiddleware(duration)]: answer from [cache.posts] when the entry
    under [`${req.user._id}:${req.originalUrl}`] is younger than [duration];
    otherwise wrap [res.json] so that whatever the route sends is stored
    under that key, and run the route ([next]). *)
Definition cacheMiddleware (duration : Z) (uid url : string) (e : Env)
    (next : State → Response * list StoreOp) (s : State) : Result :=
  let key := postsKey uid url in
  let run :=
    let '(r, ops) := next s in
    (withCachePosts (<[key := mkEntry (body r) (nowWrite e)]> (cache_posts (cache s))) s,
     r, ops) in
  match cache_posts (cache s) !! key with
  | Some cached =>
      if nowCheck e - timestamp cached <? duration
      then (s, mkResponse 200 (data cached), [])
      else run
  | None => run
  end.

(** What the routes take from their libraries.
    - [regexTest pattern] is the regular-expression engine with option [i]:
      [None] when [pattern] is no regular expression ([new RegExp(pattern,
      'i')] throws while the filter is built), otherwise the test "the
      pattern matches somewhere in the subject, letter case ignored".
    - [castObjectId id] is Mongoose's cast of a route parameter to an
      ObjectId: [None] is a [CastError] of kind ['ObjectId'], raised before
      the store is asked. *)
Record Libraries := mkLibraries {
  regexTest : string → option (string → bool);
  castObjectId : string → option string
}.

(** The cast that accepts the 24-digit form, in either letter case. *)
Definition castHex24 (id : string) : option string :=
  if isObjectId id then Some (toLowerCase id) else None.

Definition sampleLibraries : Libraries := mkLibraries fragmentRegex castHex24.

Section Router.

Variable lib : Libraries.

(** [Post.find(query).sort({ createdAt: -1 }).select('-__v')] on a store
    that answers; [None] when the [$or] pattern does not compile. *)
Definition find (query : Filter) (docs : list Post) : option (list Post) :=
  match f_or_regex query with
  | None =>
      Some (map selectMinusV
              (sortByCreatedDesc
                 (filter (λ p, matchesFilter query None p = true) docs)))
  | Some pattern =>
      match regexTest lib pattern with
      | None => None
      | Some test =>
          Some (map selectMinusV
                  (sortByCreatedDesc
                     (filter (λ p, matchesFilter query (Some test) p = true) docs)))
      end
  end.

(** The body of [router.get('/')]. *)
Definition listPosts (uid : string) (rq : ListQuery) (e : Env) (s : State)
  : Response * list StoreOp :=
  let query := buildQuery uid rq in
  match find query (db s) with
  | None => (serverError, [])
  | Some posts =>
      if storeUp e then (mkResponse 200 (JPosts posts), [OpFind])
      else (serverError, [OpFind])
  end.

(** [router.get('/', auth, cacheMiddleware(60000), ...)] *)
Definition getPosts (uid url : string) (rq : ListQuery) (e : Env) (s : State) : Result :=
  cacheMiddleware listDuration uid url e (listPosts uid rq e) s.

(** [router.get('/categories', ...)] *)
Definition getCategories (uid : string) (e : Env) (s : State) : Result :=
  let cacheKey := categoriesKey uid in
  let run :=
    if storeUp e then
      let result := distinctCategories uid (db s) in
      (withCacheCategories
         (<[cacheKey := mkEntry (JStrings result) (nowWrite e)]> (cache_categories (cache s))) s,
       mkResponse 200 (JStrings result), [OpDistinct])
    else (s, mkResponse 200 (JStrings []), [OpDistinct]) in
  match cache_categories (cache s) !! cacheKey with
  | Some cached =>
      if nowCheck e - timestamp cached <? aggregateDuration
      then (s, mkResponse 200 (data cached), [])
      else run
  | None => run
  end.

(** [router.get('/tags', ...)] *)
Definition getTags (uid : string) (e : Env) (s : State) : Result :=
  let cacheKey := tagsKey uid in
  let run :=
    if storeUp e then
      let result := distinctTags uid (db s) in
      (withCacheTags
         (<[cacheKey := mkEntry (JStrings result) (nowWrite e)]> (cache_tags (cache s))) s,
       mkResponse 200 (JStrings result), [OpDistinct])
    else (s, mkResponse 200 (JStrings []), [OpDistinct]) in
  match cache_tags (cache s) !! cacheKey with
  | Some cached =>
      if nowCheck e - timestamp cached <? aggregateDuration
      then (s, mkResponse 200 (data cached), [])
      else run
  | None => run
  end.

(** [router.get('/:id', ...)] *)
Definition getPostById (uid id : string) (e : Env) (s : State) : Result :=
  match castObjectId lib id with
  | None => (s, invalidId, [])
  | Some oid =>
      if negb (storeUp e) then (s, serverError, [OpFindOne])
      else
        match findOne oid uid (db s) with
        | None => (s, notFound, [OpFindOne])
        | Some post => (s, mkResponse 200 (JPost (selectMinusV post)), [OpFindOne])
        end
  end.

(** [router.post('/', ...)].  [post.save()] rejects when a schema validator
    fails, when the store does not answer, or when [_id] is already taken
    (the collection's unique index). *)
Definition createPost (uid : string) (b : Body) (e : Env) (s : State) : Result :=
  let '(b', errors) := validationResult b in
  match errors with
  | _ :: _ => (s, mkResponse 400 (JValidation "Validation failed" errors), [])
  | [] =>
      let '(t, c, cat, tgs) := postFields b' in
      if negb (schemaValid t c cat tgs) then (s, serverError, [])
      else if negb (storeUp e) then (s, serverError, [OpSave])
      else if bool_decide (newId e ∈ map _id (db s)) then (s, serverError, [OpSave])
      else
        let post := mkPost (newId e) t c cat tgs uid (nowWrite e) (nowWrite e) (Some 0) in
        (mkState (db s ++ [post]) (clearCache (Some uid) (cache s)),
         mkResponse 201 (JPost post), [OpSave])
  end.

(** [router.put('/:id', ...)]; the update runs the schema validators
    ([runValidators: true]). *)
Definition updatePost (uid id : string) (b : Body) (e : Env) (s : State) : Result :=
  let '(b', errors) := validationResult b in
  match errors with
  | _ :: _ => (s, mkResponse 400 (JValidation "Validation failed" errors), [])
  | [] =>
      let '(t, c, cat, tgs) := postFields b' in
      match castObjectId lib id with
      | None => (s, invalidId, [])
      | Some oid =>
          if negb (schemaValid t c cat tgs) then (s, serverError, [])
          else if negb (storeUp e) then (s, serverError, [OpFindOneAndUpdate])
          else
            match findOneAndUpdate oid uid t c cat tgs (nowWrite e) (db s) with
            | None => (s, notFound, [OpFindOneAndUpdate])
            | Some (docs, post) =>
                (mkState docs (clearCache (Some uid) (cache s)),
                 mkResponse 200 (JPost (selectMinusV post)), [OpFindOneAndUpdate])
            end
      end
  end.

(** [router.delete('/:id', ...)] *)
Definition deletePost (uid id : string) (e : Env) (s : State) : Result :=
  match castObjectId lib id with
  | None => (s, invalidId, [])
  | Some oid =>
      if negb (storeUp e) then (s, serverError, [OpFindOneAndDelete])
      else
        match findOneAndDelete oid uid (db s) with
        | None => (s, notFound, [OpFindOneAndDelete])
        | Some (docs, _) =>
            (mkState docs (clearCache (Some uid) (cache s)),
             mkResponse 200 (JMessage "Post deleted successfully"), [OpFindOneAndDelete])
        end
  end.

(** The router: one request, handled to completion. *)
Definition handle (s : State) (r : Request) (e : Env) : Result :=
  match r with
  | GetPosts uid url rq => getPosts uid url rq e s
  | GetCategories uid => getCategories uid e s
  | GetTags uid => getTags uid e s
  | GetPost uid id => getPostById uid id e s
  | CreatePost uid b => createPost uid b e s
  | UpdatePost uid id b => updatePost uid id b e s
  | DeletePost uid id => deletePost uid id e s
  end.

(** A run: requests handled one after the other. *)
Fixpoint run (s : State) (trace : list (Request * Env)) : State :=
  match trace with
  | [] => s
  | (r, e) :: rest => run (handle s r e).1.1 rest
  end.

End Router.

(** ** Vocabulary of the specification *)

Global Instance StoreOp_eq_dec : EqDecision StoreOp.
Proof. solve_decision. Defined.

(** Create, Update and Delete are the mutations; one is successful when it
    answers 201 (Create) or 200 (Update, Delete). *)
Definition successful (r : Request) (resp : Response) : bool :=
  match r with
  | CreatePost _ _ => bool_decide (status resp = 201%nat)
  | UpdatePost _ _ _ | DeletePost _ _ => bool_decide (status resp = 200%nat)
  | _ => false
  end.

(** The field constraints of a create or update request as the
    specification lists them, each on the value the code looks at (the
    trimmed one): the title and the content have between 1 and 100 (10000)
    characters; the category, when given, has at most 50; the tags, when
    given, are a sequence of strings of at most 30 characters each. *)
Definition violatesTitle (b : Body) : bool :=
  let n := String.length (trim (toStringV (b_title b))) in
  bool_decide (n = 0%nat ∨ (100 < N.of_nat n)%N).

Definition violatesContent (b : Body) : bool :=
  let n := String.length (trim (toStringV (b_content b))) in
  bool_decide (n = 0%nat ∨ (10000 < N.of_nat n)%N).

Definition violatesCategory (b : Body) : bool :=
  match b_category b with
  | None => false
  | Some c => bool_decide (50 < N.of_nat (String.length (trim c)))%N
  end.

Definition violatesTags (b : Body) : bool :=
  match b_tags b with
  | None => false
  | Some TagsNotArray => true
  | Some (TagsArray items) =>
      existsb (λ t, bool_decide (30 < N.of_nat (String.length (trim t)))%N) items
  end.

(** The fields that violate their constraint, in the order title, content,
    category, tags; and the fields a response reports an error for. *)
Definition violatedFields (b : Body) : list string :=
  (if violatesTitle b then ["title"] else [])
  ++ (if violatesContent b then ["content"] else [])
  ++ (if violatesCategory b then ["category"] else [])
  ++ (if violatesTags b then ["tags"] else []).

Definition reportedFields (r : Response) : list string :=
  match body r with
  | JValidation _ errors => map param errors
  | _ => []
  end.

(** What the chain on [tags] looks at: [isArray()] only. *)
Definition tagsNotArray (b : Body) : bool :=
  match b_tags b with
  | Some TagsNotArray => true
  | _ => false
  end.

(** The errors of the four chains: one per check that fails, in the order
    the chains are declared. *)
Definition chainErrors (b : Body) : list FieldError :=
  (if violatesTitle b then [titleError] else [])
  ++ (if violatesContent b then [contentError] else [])
  ++ (if violatesCategory b then [categoryError] else [])
  ++ (if tagsNotArray b then [tagsError] else []).

(** Every tag of the body, if it has an array of them, is within the
    schema's limit of 30 characters. *)
Definition tagsWithinLimit (b : Body) : bool :=
  forallb (λ t, negb (bool_decide (30 < N.of_nat (String.length (trim t)))%N))
    (tagsOrEmpty (b_tags b)).

(** A string of [n] copies of [c]. *)
Fixpoint repeatChar (n : nat) (c : ascii) : string :=
  match n with
  | O => EmptyString
  | S n' => String c (repeatChar n' c)
  end.

(** ** Sample data *)

Definition ownerA : string := "64b7f0a1c2d3e4f5a6b7c8d9".
Definition ownerB : string := "64b7f0a1c2d3e4f5a6b7c8da".
Definition postId1 : string := "650000000000000000000001".
Definition postId2 : string := "650000000000000000000002".

Definition emptyState : State := mkState [] emptyCache.

Definition envAt (t : Z) (id : string) : Env := mkEnv true t t id.
Definition envDown (t : Z) : Env := mkEnv false t t postId2.

Definition noteBody : Body :=
  mkBody (Some "Note") (Some "Buy milk") None (Some (TagsArray ["errand"])).

Definition noQuery : ListQuery := mkListQuery None None None.

(** The ObjectId [id] is not generated again for any Create of the trace. *)
Definition neverIssues (id : string) (trace : list (Request * Env)) : bool :=
  forallb (λ re, match re.1 with
                 | CreatePost _ _ => negb (bool_decide (newId re.2 = id))
                 | _ => true
                 end) trace.

(** How one request may change the collection. *)
Inductive dbStep (r : Request) (e : Env) : list Post → list Post → Prop :=
| dbSame docs : dbStep r e docs docs
| dbInsert docs post b :
    r = CreatePost (user post) b → _id post = newId e → newId e ∉ map _id docs →
    dbStep r e docs (docs ++ [post])
| dbReplace l1 p p' l2 id b :
    r = UpdatePost (user p) id b →
    _id p' = _id p → user p' = user p → createdAt p' = createdAt p →
    dbStep r e (l1 ++ p :: l2) (l1 ++ p' :: l2)
| dbRemove l1 d l2 id :
    r = DeletePost (user d) id →
    dbStep r e (l1 ++ d :: l2) (l1 ++ l2).

(** The round trip as the specification words it, for one create request
    [b] and the environments of the two calls: when Create answers 201 with
    a post, Get on its id answers that post with the request's own title,
    content, category and tags (those that were given) and the owner and
    timestamps of the Create response. *)
Definition roundTripAsStated (lib : Libraries)
    (s : State) (uid : string) (b : Body) (e e' : Env) : Prop :=
  ∀ s' j ops,
    handle lib s (CreatePost uid b) e = (s', mkResponse 201 (JPost j), ops) →
    ∃ j', (handle lib s' (GetPost uid (_id j)) e').1.2 = mkResponse 200 (JPost j')
      ∧ Some (title j') = b_title b
      ∧ Some (content j') = b_content b
      ∧ (∀ c, b_category b = Some c → category j' = c)
      ∧ (∀ items, b_tags b = Some (TagsArray items) → tags j' = items)
      ∧ user j' = user j ∧ createdAt j' = createdAt j ∧ updatedAt j' = updatedAt j.

(** Every caller of the trace is an ObjectId, as the identity verifier
    resolves them. *)
Definition validCallers (trace : list (Request * Env)) : bool :=
  forallb (λ re, isObjectId (caller re.1)) trace.

(** The cache holds, under a key of an owner, only posts of that owner; the
    two aggregate maps hold no posts at all. *)
Definition cacheOwned (c : Cache) : Prop :=
  (∀ key entry, cache_posts c !! key = Some entry →
     ∀ u, isObjectId u = true → startsWith (u +:+ ":") key = true →
     ∀ j, j ∈ payloadPosts (data entry) → user j = u)
  ∧ (∀ key entry, cache_categories c !! key = Some entry → payloadPosts (data entry) = [])
  ∧ (∀ key entry, cache_tags c !! key = Some entry → payloadPosts (data entry) = []).

(** Is the list request of [uid] for [url] answered from the cache? *)
Definition listHit (uid url : string) (e : Env) (s : State) : bool :=
  match cache_posts (cache s) !! postsKey uid url with
  | Some cached => nowCheck e - timestamp cached <? listDuration
  | None => false
  end.

(** Nothing in the trace disturbs the list entry of [uid] for [url]: every
    caller is an ObjectId, no mutation by [uid] is successful, and a list
    request under the same key is itself answered from the cache. *)
Fixpoint undisturbed (lib : Libraries)
    (uid url : string) (s : State) (trace : list (Request * Env)) : bool :=
  match trace with
  | [] => true
  | (r, e) :: rest =>
      isObjectId (caller r)
      && negb (bool_decide (caller r = uid) && successful r (handle lib s r e).1.2)
      && match r with
         | GetPosts uid' url' _ =>
             negb (bool_decide (postsKey uid' url' = postsKey uid url)) || listHit uid' url' e s
         | _ => true
         end
      && undisturbed lib uid url (handle lib s r e).1.1 rest
  end.

(** No request of the trace is a list request under the given key. *)
Definition noListAt (key : string) (trace : list (Request * Env)) : bool :=
  forallb (λ re, match re.1 with
                 | GetPosts uid' url' _ => negb (bool_decide (postsKey uid' url' = key))
                 | _ => true
                 end) trace.

(** Invalidation as the specification words it, for one mutation [m] and
    the list request that follows it: after a successful mutation by the
    owner, the next List queries the store. *)
Definition invalidationAsStated (lib : Libraries)
    (s : State) (uid url : string) (rq : ListQuery) (m : Request) (em e3 : Env) : Prop :=
  caller m = uid →
  successful m (handle lib s m em).1.2 = true →
  OpFind ∈ (handle lib (handle lib s m em).1.1 (GetPosts uid url rq) e3).2.

(** The list route gets as far as its store query: the request has no
    (truthy) search string, or that string compiles. *)
Definition filterBuilds (lib : Libraries) (rq : ListQuery) : bool :=
  match q_search rq with
  | Some (String _ _ as pattern) =>
      match regexTest lib pattern with Some _ => true | None => false end
  | _ => true
  end.

(** The list filter in the specification's words.  A parameter is present
    when it is a non-empty string.  A post is kept when it belongs to the
    caller and passes every present filter: the category filter, unless its
    value is the sentinel "All", asks for that category; the tag filter asks
    for the tag to be among the post's tags; the search filter asks for the
    query to be a case-insensitive substring of the title, of the content or
    of some tag. *)
Definition specKeeps (uid : string) (rq : ListQuery) (p : Post) : bool :=
  bool_decide (user p = uid)
  && match q_category rq with
     | Some (String _ _ as c) =>
         if bool_decide (c = "All") then true else bool_decide (category p = c)
     | _ => true
     end
  && match q_tag rq with
     | Some (String _ _ as t) => bool_decide (t ∈ tags p)
     | _ => true
     end
  && match q_search rq with
     | Some (String _ _ as q) =>
         includesIgnoreCase q (title p) || includesIgnoreCase q (content p)
         || existsb (includesIgnoreCase q) (tags p)
     | _ => true
     end.

(** A string without regular-expression metacharacters. *)
Fixpoint noMetaChar (s : string) : bool :=
  match s with
  | EmptyString => true
  | String c s' => negb (isMetaChar c) && noMetaChar s'
  end.

Definition notePost : Post :=
  mkPost postId1 "Note" "Buy milk" "General" ["errand"] ownerA 5 5 (Some 0).

Definition workPost : Post :=
  mkPost postId1 "Plan" "Q3" "Work" ["a"; "b"] ownerA 10 10 (Some 0).

Definition workState : State := mkState [workPost] emptyCache.

Definition planBody : Body := mkBody (Some "Plan") (Some "Q4") None None.

Definition planUpdated : Post :=
  mkPost postId1 "Plan" "Q4" "General" [] ownerA 10 20 (Some 0).

Definition listUrl : string := "/api/posts".

Definition sampleEntry : CacheEntry := mkEntry (JStrings []) 0.

Definition sampleCache : Cache :=
  mkCache
    (<[categoriesKey ownerA := sampleEntry]> (<[categoriesKey ownerB := sampleEntry]> ∅))
    (<[tagsKey ownerA := sampleEntry]> (<[tagsKey ownerB := sampleEntry]> ∅))
    (<[postsKey ownerA listUrl := sampleEntry]> (<[postsKey ownerB listUrl := sampleEntry]> ∅)).

(** The replay of a failed List as the specification words it, for the
    requests handled in between ([trace]) and the environment of the later
    call: after a miss whose store query failed, the identical request
    arriving within the window is answered 200 with the error body, from the
    cache. *)
Definition errorReplayAsStated (lib : Libraries)
    (s : State) (uid url : string) (rq : ListQuery) (e1 : Env)
    (trace : list (Request * Env)) (e2 : Env) : Prop :=
  listHit uid url e1 s = false →
  storeUp e1 = false →
  nowCheck e2 - nowWrite e1 < listDuration →
  let s1 := (handle lib s (GetPosts uid url rq) e1).1.1 in
  handle lib (run lib s1 trace) (GetPosts uid url rq) e2
  = (run lib s1 trace, mkResponse 200 (JMessage "Server error"), []).

(** [workState] after its owner has listed the posts at time 100, and after
    the same request has failed at time 100 on a store that is down. *)
Definition listedState : State :=
  (handle sampleLibraries workState (GetPosts ownerA listUrl noQuery) (envAt 100 postId2)).1.1.

Definition failedState : State :=
  (handle sampleLibraries workState (GetPosts ownerA listUrl noQuery) (envDown 100)).1.1.

(** Requests that leave the list entry of [ownerA] alone: a Create by
    another owner, an aggregate read, and an Update by [ownerA] that finds
    no post. *)
Definition quietTrace : list (Request * Env) :=
  [(CreatePost ownerB noteBody, envAt 150 postId2);
   (GetCategories ownerA, envAt 160 postId2);
   (UpdatePost ownerA postId2 planBody, envAt 170 postId2)].

(** ** Proof automation *)

(** Walks down the branches of a mutating route ([createPost], [updatePost]
    or [deletePost]) in the goal; [tac] closes each branch on which the
    route gives up, and the successful branch is left. *)
Ltac mutation_cases tac :=
  unfold createPost, updatePost, deletePost;
  repeat match goal with
  | |- context [validationResult ?b] => destruct (validationResult b) as [? [|]]; [|tac]
  | |- context [postFields ?b'] => destruct (postFields b') as [[[? ?] ?] ?]
  | |- context [castObjectId ?l ?id] => destruct (castObjectId l id) as [?|]; [|tac]
  | |- context [schemaValid ?t ?c ?cat ?tgs] =>
      destruct (schemaValid t c cat tgs); [|tac]; simpl
  | |- context [storeUp ?e] => destruct (storeUp e); [|tac]; simpl
  | |- context [bool_decide (newId ?e ∈ ?ids)] =>
      destruct (bool_decide (newId e ∈ ids)); [tac|]
  | |- context [findOneAndUpdate ?i ?u ?t ?c ?cat ?tgs ?now ?docs] =>
      destruct (findOneAndUpdate i u t c cat tgs now docs) as [[? ?]|] eqn:?; [|tac]
  | |- context [findOneAndDelete ?i ?u ?docs] =>
      destruct (findOneAndDelete i u docs) as [[? ?]|] eqn:?; [|tac]
  end.

(** ** Further vocabulary: coherence of the cache, well-formed posts *)

Global Instance ListQuery_eq_dec : EqDecision ListQuery.
Proof. solve_decision. Defined.

(** Express derives [req.query] from [req.originalUrl]: every list request
    of the trace carries the query its url parses to. *)
Definition urlsParsed (parseQuery : string → ListQuery)
    (trace : list (Request * Env)) : bool :=
  forallb (λ re, match re.1 with
                 | GetPosts _ url rq => bool_decide (rq = parseQuery url)
                 | _ => true
                 end) trace.

(** A list payload that is up to date for the collection [docs]: the error
    body, or exactly what [find] returns on [docs] now. *)
Definition freshList (lib : Libraries) (uid : string) (rq : ListQuery)
    (docs : list Post) (d : Payload) : Prop :=
  d = JMessage "Server error"
  ∨ ∃ found, find lib (buildQuery uid rq) docs = Some found ∧ d = JPosts found.

(** Every entry of the cache is up to date for the collection. *)
Definition cacheCoherent (lib : Libraries) (parseQuery : string → ListQuery)
    (s : State) : Prop :=
  (∀ uid url entry,
     isObjectId uid = true →
     cache_posts (cache s) !! postsKey uid url = Some entry →
     freshList lib uid (parseQuery url) (db s) (data entry))
  ∧ (∀ uid entry,
       cache_categories (cache s) !! categoriesKey uid = Some entry →
       data entry = JStrings (distinctCategories uid (db s)))
  ∧ (∀ uid entry,
       cache_tags (cache s) !! tagsKey uid = Some entry →
       data entry = JStrings (distinctTags uid (db s))).

(** A post as the two mutating routes leave it: within the limits of the
    schema, with a category, and with every field trimmed. *)
Definition withinSchema (p : Post) : Prop :=
  schemaValid (title p) (content p) (category p) (tags p) = true
  ∧ category p ≠ EmptyString
  ∧ trim (title p) = title p ∧ trim (content p) = content p
  ∧ trim (category p) = category p
  ∧ Forall (λ t, trim t = t) (tags p).

(** Create, Update and Delete, as opposed to the four reads. *)
Definition isMutation (r : Request) : bool :=
  match r with
  | CreatePost _ _ | UpdatePost _ _ _ | DeletePost _ _ => true
  | _ => false
  end.

(** The posts of one owner, in the order of the collection. *)
Definition ownedBy (uid : string) (docs : list Post) : list Post :=
  filter (λ p, user p = uid) docs.

(** No post with the id [oid] is left: none in the collection, none in a
    list payload cached for [uid]. *)
Definition forgotten (uid oid : string) (s : State) : Prop :=
  (∀ p, p ∈ db s → _id p ≠ oid)
  ∧ (∀ url entry, cache_posts (cache s) !! postsKey uid url = Some entry →
       ∀ j, j ∈ payloadPosts (data entry) → _id j ≠ oid).

(** Does the ObjectId generated for a Create collide with a stored one?
    (The unique index on [_id] spans the whole collection.) *)
Definition idTaken (r : Request) (e : Env) (docs : list Post) : bool :=
  match r with
  | CreatePost _ _ => bool_decide (newId e ∈ map _id docs)
  | _ => false
  end.

(** ** The client ([client/src/components], [client/src/App.js])

    A React component is modelled by its state and by the functions that
    compute the next state; [axios] resolves with the response when the
    status is between 200 and 299 and rejects otherwise. *)

Definition resolves (r : Response) : bool :=
  (200 <=? status r)%nat && (status r <? 300)%nat.

Module Dashboard.

(** The [useMemo] of [filteredPosts]: the component's [posts] narrowed by
    the search box, the category selector and the tag selector. *)
Definition filteredPosts (searchTerm : string) (posts : list Post)
    (selectedCategory selectedTag : string) : list Post :=
  let filtered := posts in
  let filtered :=
    if truthy (Some searchTerm) then
      filter (λ post,
                includes (toLowerCase searchTerm) (toLowerCase (title post))
                || includes (toLowerCase searchTerm) (toLowerCase (content post))
                || existsb (λ tag, includes (toLowerCase searchTerm) (toLowerCase tag))
                     (tags post)
                = true) filtered
    else filtered in
  let filtered :=
    if truthy (Some selectedCategory) && negb (bool_decide (selectedCategory = "All"))
    then filter (λ post, category post = selectedCategory) filtered
    else filtered in
  let filtered :=
    if truthy (Some selectedTag)
    then filter (λ post, selectedTag ∈ tags post) filtered
    else filtered in
  filtered.

(** [handleDelete(postId)] for the signed-in user [uid]: [confirmed] is the
    answer to [window.confirm]; the request [DELETE /api/posts/${postId}]
    is handled by the server in state [s].  The result is the state of the
    server and the component's [posts] afterwards. *)
Definition handleDelete (lib : Libraries) (uid : string) (confirmed : bool)
    (postId : string) (e : Env) (s : State) (posts : list Post) : State * list Post :=
  if negb confirmed then (s, posts)
  else
    let '(s', response, _) := handle lib s (DeletePost uid postId) e in
    if resolves response
    then (s', filter (λ post, _id post ≠ postId) posts)
    else (s', posts).

End Dashboard.

Module EditPost.

(** The component's [formData] and [tagInput]. *)
Record FormData := mkFormData {
  title : string;
  content : string;
  category : string;
  tags : list string
}.

Record Form := mkForm { formData : FormData; tagInput : string }.

(** [newErrors]: the message for each of the two checked fields, if any. *)
Record Errors := mkErrors { e_title : option string; e_content : option string }.

(** [fetchPost]: the form data set from the answer to [GET /api/posts/${id}],
    when [axios] resolves with a post ([tags || []] is [tags], an array
    being truthy); otherwise the component leaves for the dashboard and no
    form is loaded. *)
Definition fetchPost (response : Response) : option FormData :=
  if resolves response then
    match body response with
    | JPost (mkPost _ title content category tags _ _ _ _) =>
        Some (mkFormData title content (orDefault (Some category) "General") tags)
    | _ => None
    end
  else None.

Definition withTags (tgs : list string) (d : FormData) : FormData :=
  mkFormData (title d) (content d) (category d) tgs.

Definition handleAddTag (f : Form) : Form :=
  if truthy (Some (trim (tagInput f)))
     && negb (bool_decide (trim (tagInput f) ∈ tags (formData f)))
  then mkForm (withTags (tags (formData f) ++ [trim (tagInput f)]) (formData f)) EmptyString
  else f.

Definition handleRemoveTag (tagToRemove : string) (f : Form) : Form :=
  mkForm (withTags (filter (λ tag, tag ≠ tagToRemove) (tags (formData f))) (formData f))
         (tagInput f).

(** [validateForm()]: the errors it sets, and whether there is none. *)
Definition validateForm (d : FormData) : Errors * bool :=
  let titleMsg :=
    if negb (truthy (Some (trim (title d)))) then Some "Title is required"
    else if (100 <? N.of_nat (String.length (title d)))%N
         then Some "Title must be less than 100 characters"
         else None in
  let contentMsg :=
    if negb (truthy (Some (trim (content d)))) then Some "Content is required"
    else if (10000 <? N.of_nat (String.length (content d)))%N
         then Some "Content must be less than 10000 characters"
         else None in
  (mkErrors titleMsg contentMsg,
   match titleMsg, contentMsg with None, None => true | _, _ => false end).

(** The JSON body of [axios.put(`/api/posts/${id}`, formData)]. *)
Definition requestBody (d : FormData) : Body :=
  mkBody (Some (title d)) (Some (content d)) (Some (category d))
         (Some (TagsArray (tags d))).

(** [handleSubmit]: the request that is sent for the signed-in user [uid],
    if one is sent. *)
Definition handleSubmit (uid id : string) (d : FormData) : option Request :=
  if (validateForm d).2 then Some (UpdatePost uid id (requestBody d)) else None.

(** The tags of a form whose tag input obeys its [maxLength] of 30: no tag
    is blank, none has white space around it or more than 30 characters,
    and none occurs twice. *)
Definition tagsTidy (tgs : list string) : Prop :=
  NoDup tgs
  ∧ Forall (λ t, t ≠ EmptyString ∧ trim t = t ∧ (String.length t ≤ 30)%nat) tgs.

End EditPost.

Module App.

(** Where the browser is: the six route patterns of [AppContent], and any
    other path. *)
Inductive Path :=
| Root | LoginPath | RegisterPath | DashboardPath | CreatePath
| EditPath (id : string)
| Unmatched.

Inductive Page := Login | Register | DashboardPage | CreatePost | EditPostPage (id : string).

(** What a route renders. *)
Inductive Element :=
| Navigate (to : Path)
| Render (page : Page)
| Spinner
| Nothing.

(** What [useAuth()] provides: whether a user is signed in, and whether the
    session is still being loaded. *)
Record Auth := mkAuth { user : bool; loading : bool }.

Definition ProtectedRoute (auth : Auth) (children : Element) : Element :=
  if loading auth then Spinner
  else if user auth then children else Navigate LoginPath.

(** The [Routes] of [AppContent]. *)
Definition AppContent (auth : Auth) (location : Path) : Element :=
  match location with
  | Root => if user auth then Navigate DashboardPath else Navigate LoginPath
  | LoginPath => if user auth then Navigate DashboardPath else Render Login
  | RegisterPath => if user auth then Navigate DashboardPath else Render Register
  | DashboardPath => ProtectedRoute auth (Render DashboardPage)
  | CreatePath => ProtectedRoute auth (Render CreatePost)
  | EditPath id => ProtectedRoute auth (Render (EditPostPage id))
  | Unmatched => Nothing
  end.

(** Following [Navigate] elements, at most [fuel] times: the location
    reached and what is rendered there, or [None] when the redirects have
    not come to an end. *)
Fixpoint settle (fuel : nat) (auth : Auth) (location : Path) : option (Path * Element) :=
  match AppContent auth location with
  | Navigate to =>
      match fuel with
      | O => None
      | S fuel' => settle fuel' auth to
      end
  | element => Some (location, element)
  end.

Definition protected (page : Page) : bool :=
  match page with
  | Login | Register => false
  | DashboardPage | CreatePost | EditPostPage _ => true
  end.

End App.

(** Every list payload in the cache is in descending order of creation. *)
Definition cacheSorted (c : Cache) : Prop :=
  ∀ key entry, cache_posts c !! key = Some entry →
    Sorted (λ a b, createdAt b ≤ createdAt a) (payloadPosts (data entry)).

(** ** More sample data *)

Definition postId3 : string := "650000000000000000000003".

Definition otherPost : Post :=
  mkPost postId2 "Theirs" "Rent due" "Home" ["bills"] ownerB 7 7 (Some 0).

Definition laterBody : Body :=
  mkBody (Some "Later") (Some "Call back") (Some "Work") (Some (TagsArray ["phone"])).

Definition laterPost : Post :=
  mkPost postId2 "Later" "Call back" "Work" ["phone"] ownerA 7 7 (Some 0).

(** A Create by [ownerA], a List by [ownerA] that fills the cache, and a
    Create by [ownerB]. *)
Definition sampleTrace : list (Request * Env) :=
  [(CreatePost ownerA noteBody, envAt 5 postId1);
   (GetPosts ownerA listUrl noQuery, envAt 6 postId3);
   (CreatePost ownerB laterBody, envAt 7 postId2)].

(** [workState] after its owner has deleted the post. *)
Definition deletedState : State :=
  (handle sampleLibraries workState (DeletePost ownerA postId1) (envAt 20 postId2)).1.1.

(** A Create of another post by [ownerA], then a List. *)
Definition laterTrace : list (Request * Env) :=
  [(CreatePost ownerA laterBody, envAt 30 postId2);
   (GetPosts ownerA listUrl noQuery, envAt 35 postId3)].

Definition sampleFormData : EditPost.FormData :=
  EditPost.mkFormData "Plan" "Q4" "Work" ["a"].

Definition sampleForm : EditPost.Form := EditPost.mkForm sampleFormData " b ".

(** * Properties *)

(** ** Strings and keys *)

Lemma startsWith_app (pre s : string) : startsWith pre (pre +:+ s) = true.
Proof.
  induction pre as [|a pre IH]; [done|].
  change (String a pre +:+ s) with (String a (pre +:+ s)). simpl.
  destruct (decide (a = a)); [exact IH|done].
Qed.

Lemma startsWith_app_same_length (a b x y : string) :
  String.length a = String.length b →
  startsWith (a +:+ x) (b +:+ y) = true → a = b.
Proof.
  revert b. induction a as [|c a IH]; intros [|d b] Hlen H; try done.
  change (String c a +:+ x) with (String c (a +:+ x)) in H.
  change (String d b +:+ y) with (String d (b +:+ y)) in H.
  simpl in H. destruct (decide (c = d)) as [->|]; [|done].
  f_equal. apply IH; [by injection Hlen|done].
Qed.

Lemma isObjectId_length (u : string) : isObjectId u = true → String.length u = 24%nat.
Proof.
  unfold isObjectId. intros [H _]%andb_true_iff. by apply Nat.eqb_eq in H.
Qed.

Lemma isObjectId_nonempty (u : string) : isObjectId u = true → ∃ c t, u = String c t.
Proof.
  intros H%isObjectId_length. destruct u as [|c t]; [done|eauto].
Qed.

Lemma string_app_inj_l (p a b : string) : p +:+ a = p +:+ b → a = b.
Proof.
  induction p as [|c p IH]; [done|].
  change (String c p +:+ a) with (String c (p +:+ a)).
  change (String c p +:+ b) with (String c (p +:+ b)).
  intros [=]. auto.
Qed.

(** A key of [cache.posts] names its owner: two ObjectIds are equal as soon
    as one, followed by a colon, starts a key built from the other. *)
Lemma postsKey_owner (A B url : string) :
  isObjectId A = true → isObjectId B = true →
  startsWith (A +:+ ":") (postsKey B url) = true → A = B.
Proof.
  intros HA%isObjectId_length HB%isObjectId_length. unfold postsKey.
  apply startsWith_app_same_length. congruence.
Qed.

Lemma postsKey_own (A url : string) : startsWith (A +:+ ":") (postsKey A url) = true.
Proof.
  unfold postsKey.
  replace (A +:+ ":" +:+ url) with ((A +:+ ":") +:+ url); [apply startsWith_app|].
  induction A as [|c A IH]; [done|].
  change (String c A +:+ ":") with (String c (A +:+ ":")).
  change (String c (A +:+ ":") +:+ url) with (String c ((A +:+ ":") +:+ url)).
  change (String c A +:+ ":" +:+ url) with (String c (A +:+ ":" +:+ url)).
  by rewrite IH.
Qed.

(** ** [clearCache] *)

Lemma clearCache_owner_posts (uid : string) (c : Cache) :
  isObjectId uid = true →
  cache_posts (clearCache (Some uid) c)
  = filter (λ kv, startsWith (uid +:+ ":") kv.1 = false) (cache_posts c).
Proof. intros (ch & t & ->)%isObjectId_nonempty. reflexivity. Qed.

Lemma clearCache_owner_categories (uid : string) (c : Cache) :
  isObjectId uid = true →
  cache_categories (clearCache (Some uid) c)
  = filter (λ kv, kv.1 ≠ categoriesKey uid) (cache_categories c).
Proof. intros (ch & t & ->)%isObjectId_nonempty. reflexivity. Qed.

Lemma clearCache_owner_tags (uid : string) (c : Cache) :
  isObjectId uid = true →
  cache_tags (clearCache (Some uid) c)
  = filter (λ kv, kv.1 ≠ tagsKey uid) (cache_tags c).
Proof. intros (ch & t & ->)%isObjectId_nonempty. reflexivity. Qed.

(** The caller's list entries are gone after [clearCache]. *)
Lemma clearCache_posts_own (uid url : string) (c : Cache) :
  isObjectId uid = true →
  cache_posts (clearCache (Some uid) c) !! postsKey uid url = None.
Proof.
  intros H. rewrite clearCache_owner_posts by done.
  apply map_lookup_filter_None. right. intros x _. simpl.
  by rewrite postsKey_own.
Qed.

(** A key that does not start with the caller's prefix keeps its entry. *)
Lemma clearCache_posts_other_key (uid key : string) (c : Cache) :
  isObjectId uid = true →
  startsWith (uid +:+ ":") key = false →
  cache_posts (clearCache (Some uid) c) !! key = cache_posts c !! key.
Proof.
  intros H Hk. rewrite clearCache_owner_posts by done.
  apply option_eq. intros x. rewrite map_lookup_filter_Some. simpl. tauto.
Qed.

(** [clearCache] only ever removes entries. *)
Lemma clearCache_posts_subset (userId : option string) (c : Cache) key x :
  cache_posts (clearCache userId c) !! key = Some x → cache_posts c !! key = Some x.
Proof.
  destruct userId as [[|ch t]|]; simpl; try by rewrite lookup_empty.
  rewrite map_lookup_filter_Some. tauto.
Qed.

(** ** Trimming *)

Lemma trimStart_head (s : string) :
  trimStart s = EmptyString ∨ ∃ c t, trimStart s = String c t ∧ isWhiteSpace c = false.
Proof.
  induction s as [|c s IH]; [by left|]. simpl.
  destruct (isWhiteSpace c) eqn:E; [exact IH|]. right. eauto.
Qed.

Lemma trimEnd_head (c : ascii) (t : string) :
  isWhiteSpace c = false → ∃ t', trimEnd (String c t) = String c t'.
Proof. intros E. simpl. rewrite E. destruct (trimEnd t); eauto. Qed.

Lemma trimEnd_idem (s : string) : trimEnd (trimEnd s) = trimEnd s.
Proof.
  induction s as [|c s IH]; [done|]. simpl.
  destruct (trimEnd s) as [|d u] eqn:E.
  - destruct (isWhiteSpace c) eqn:Ec; [done|]. simpl. by rewrite Ec.
  - change (trimEnd (String c (String d u)))
      with (match trimEnd (String d u) with
            | EmptyString => if isWhiteSpace c then EmptyString else String c EmptyString
            | t => String c t
            end).
    by rewrite IH.
Qed.

Lemma trim_idem (s : string) : trim (trim s) = trim s.
Proof.
  unfold trim. destruct (trimStart_head s) as [-> | (c & t & -> & Hc)]; [done|].
  destruct (trimEnd_head c t Hc) as [t' Ht']. rewrite Ht'.
  simpl trimStart. rewrite Hc. rewrite <- Ht'. apply trimEnd_idem.
Qed.

(** ** The store calls *)

Lemma findOne_app_skip (id uid : string) (l1 l2 : list Post) :
  (∀ q, q ∈ l1 → matchesIdUser id uid q = false) →
  findOne id uid (l1 ++ l2) = findOne id uid l2.
Proof.
  induction l1 as [|q l1 IH]; intros H; [done|]. simpl.
  rewrite (H q) by left. apply IH. intros q' Hq'. apply H. by right.
Qed.

Lemma findOne_Some (id uid : string) (docs : list Post) (p : Post) :
  findOne id uid docs = Some p →
  p ∈ docs ∧ _id p = id ∧ user p = uid.
Proof.
  induction docs as [|q docs IH]; [done|]. simpl.
  destruct (matchesIdUser id uid q) eqn:E.
  - intros [= <-]. unfold matchesIdUser in E.
    apply andb_true_iff in E as [E1 E2].
    apply bool_decide_eq_true in E1, E2. split; [left|done].
  - intros H. destruct (IH H) as (? & ? & ?). split; [by right|done].
Qed.

Lemma findOne_None (id uid : string) (docs : list Post) :
  findOne id uid docs = None ↔ ∀ q, q ∈ docs → matchesIdUser id uid q = false.
Proof.
  induction docs as [|q docs IH]; simpl.
  - split; [|done]. intros _ q Hq. by apply elem_of_nil in Hq.
  - destruct (matchesIdUser id uid q) eqn:E.
    + split; [done|]. intros H. specialize (H q (list_elem_of_here _ _)). congruence.
    + rewrite IH. split.
      * intros H q' [->|Hq']%elem_of_cons; auto.
      * intros H q' Hq'. apply H. by right.
Qed.

(** What [findOneAndUpdate] does to the collection: the first document
    matching [{ _id, user }] is replaced in place by a document that keeps
    its [_id], [user], [createdAt] and [__v]; nothing else moves. *)
Lemma findOneAndUpdate_Some (id uid t c cat : string) (tgs : list string) (now : Z)
    (docs docs' : list Post) (p' : Post) :
  findOneAndUpdate id uid t c cat tgs now docs = Some (docs', p') →
  ∃ l1 p l2,
    docs = l1 ++ p :: l2 ∧ docs' = l1 ++ p' :: l2
    ∧ (∀ q, q ∈ l1 → matchesIdUser id uid q = false)
    ∧ matchesIdUser id uid p = true
    ∧ p' = mkPost (_id p) t c cat tgs (user p) (createdAt p) now (__v p).
Proof.
  revert docs'. induction docs as [|q docs IH]; intros docs'; [done|]. simpl.
  destruct (matchesIdUser id uid q) eqn:E.
  - intros [= <- <-]. exists [], q, docs. repeat split; try done.
    intros q' Hq'. by apply elem_of_nil in Hq'.
  - destruct (findOneAndUpdate id uid t c cat tgs now docs) as [[rest' r]|] eqn:Hrec; [|done].
    intros [= <- <-]. destruct (IH rest' eq_refl) as (l1 & p & l2 & -> & -> & Hl1 & Hp & Hp').
    exists (q :: l1), p, l2. repeat split; try done.
    intros q' [->|Hq']%elem_of_cons; auto.
Qed.

Lemma findOneAndUpdate_None (id uid t c cat : string) (tgs : list string) (now : Z)
    (docs : list Post) :
  findOneAndUpdate id uid t c cat tgs now docs = None ↔ findOne id uid docs = None.
Proof.
  induction docs as [|q docs IH]; [done|]. simpl.
  destruct (matchesIdUser id uid q); [done|].
  destruct (findOneAndUpdate id uid t c cat tgs now docs) as [[? ?]|];
    destruct (findOne id uid docs); split; try done; intros H.
  - by apply IH in H.
  - by apply IH in H.
Qed.

Lemma findOneAndDelete_Some (id uid : string) (docs docs' : list Post) (d : Post) :
  findOneAndDelete id uid docs = Some (docs', d) →
  ∃ l1 l2,
    docs = l1 ++ d :: l2 ∧ docs' = l1 ++ l2
    ∧ (∀ q, q ∈ l1 → matchesIdUser id uid q = false)
    ∧ matchesIdUser id uid d = true.
Proof.
  revert docs'. induction docs as [|q docs IH]; intros docs'; [done|]. simpl.
  destruct (matchesIdUser id uid q) eqn:E.
  - intros [= <- <-]. exists [], docs. repeat split; try done.
    intros q' Hq'. by apply elem_of_nil in Hq'.
  - destruct (findOneAndDelete id uid docs) as [[rest' r]|] eqn:Hrec; [|done].
    intros [= <- <-]. destruct (IH rest' eq_refl) as (l1 & l2 & -> & -> & Hl1 & Hd).
    exists (q :: l1), l2. repeat split; try done.
    intros q' [->|Hq']%elem_of_cons; auto.
Qed.

Lemma matchesIdUser_true (id uid : string) (p : Post) :
  matchesIdUser id uid p = true ↔ _id p = id ∧ user p = uid.
Proof.
  unfold matchesIdUser. by rewrite andb_true_iff, !bool_decide_eq_true.
Qed.

(** ** Inversion of the successful mutations *)

Lemma createPost_201 (uid : string) (b : Body) (e : Env) (s s' : State)
    (payload : Payload) (ops : list StoreOp) :
  createPost uid b e s = (s', mkResponse 201 payload, ops) →
  ∃ b' t c cat tgs,
    validationResult b = (b', []) ∧ postFields b' = (t, c, cat, tgs)
    ∧ schemaValid t c cat tgs = true ∧ storeUp e = true
    ∧ (newId e ∉ map _id (db s))
    ∧ s' = mkState (db s ++ [mkPost (newId e) t c cat tgs uid (nowWrite e) (nowWrite e) (Some 0)])
                   (clearCache (Some uid) (cache s))
    ∧ payload = JPost (mkPost (newId e) t c cat tgs uid (nowWrite e) (nowWrite e) (Some 0))
    ∧ ops = [OpSave].
Proof.
  unfold createPost. destruct (validationResult b) as [b' errors] eqn:Hv.
  destruct errors; [|done].
  destruct (postFields b') as [[[t c] cat] tgs] eqn:Hf.
  destruct (schemaValid t c cat tgs) eqn:Hs; [|done]. simpl.
  destruct (storeUp e) eqn:Hup; [|done]. simpl.
  destruct (bool_decide (newId e ∈ map _id (db s))) eqn:E; [done|].
  apply bool_decide_eq_false in E. intros H. injection H as <- <- <-.
  by exists b', t, c, cat, tgs.
Qed.

Lemma updatePost_200 (lib : Libraries) (uid id : string) (b : Body) (e : Env)
    (s s' : State) (payload : Payload) (ops : list StoreOp) :
  updatePost lib uid id b e s = (s', mkResponse 200 payload, ops) →
  ∃ b' t c cat tgs docs post oid,
    validationResult b = (b', []) ∧ postFields b' = (t, c, cat, tgs)
    ∧ castObjectId lib id = Some oid ∧ schemaValid t c cat tgs = true ∧ storeUp e = true
    ∧ findOneAndUpdate oid uid t c cat tgs (nowWrite e) (db s) = Some (docs, post)
    ∧ s' = mkState docs (clearCache (Some uid) (cache s))
    ∧ payload = JPost (selectMinusV post)
    ∧ ops = [OpFindOneAndUpdate].
Proof.
  unfold updatePost. destruct (validationResult b) as [b' errors] eqn:Hv.
  destruct errors; [|done].
  destruct (postFields b') as [[[t c] cat] tgs] eqn:Hf.
  destruct (castObjectId lib id) as [oid|] eqn:Hid; [|done].
  destruct (schemaValid t c cat tgs) eqn:Hs; [|done]. simpl.
  destruct (storeUp e) eqn:Hup; [|done]. simpl.
  destruct (findOneAndUpdate oid uid t c cat tgs (nowWrite e) (db s)) as [[docs post]|] eqn:E;
    [|done].
  intros H. injection H as <- <- <-. by exists b', t, c, cat, tgs, docs, post, oid.
Qed.

Lemma deletePost_200 (lib : Libraries) (uid id : string) (e : Env) (s s' : State)
    (payload : Payload) (ops : list StoreOp) :
  deletePost lib uid id e s = (s', mkResponse 200 payload, ops) →
  ∃ docs d oid,
    castObjectId lib id = Some oid ∧ storeUp e = true
    ∧ findOneAndDelete oid uid (db s) = Some (docs, d)
    ∧ s' = mkState docs (clearCache (Some uid) (cache s)).
Proof.
  unfold deletePost.
  destruct (castObjectId lib id) as [oid|] eqn:Hid; [|done].
  destruct (storeUp e) eqn:Hup; [|done]. simpl.
  destruct (findOneAndDelete oid uid (db s)) as [[docs d]|] eqn:E; [|done].
  intros H. injection H as <- <- <-. by exists docs, d, oid.
Qed.

(** ** How requests change the collection *)

Lemma cacheMiddleware_db (duration : Z) (uid url : string) (e : Env)
    (next : State → Response * list StoreOp) (s : State) :
  db (cacheMiddleware duration uid url e next s).1.1 = db s.
Proof.
  unfold cacheMiddleware.
  destruct (cache_posts (cache s) !! postsKey uid url) as [cached|];
    [destruct (_ <? _); [done|]|]; by destruct (next s).
Qed.

Lemma getCategories_db (uid : string) (e : Env) (s : State) :
  db (getCategories uid e s).1.1 = db s.
Proof.
  unfold getCategories.
  destruct (cache_categories (cache s) !! categoriesKey uid) as [cached|];
    [destruct (_ <? _); [done|]|]; by destruct (storeUp e).
Qed.

Lemma getTags_db (uid : string) (e : Env) (s : State) :
  db (getTags uid e s).1.1 = db s.
Proof.
  unfold getTags.
  destruct (cache_tags (cache s) !! tagsKey uid) as [cached|];
    [destruct (_ <? _); [done|]|]; by destruct (storeUp e).
Qed.

Lemma getPostById_state (lib : Libraries) (uid id : string) (e : Env) (s : State) :
  (getPostById lib uid id e s).1.1 = s.
Proof.
  unfold getPostById. destruct (castObjectId lib id) as [oid|]; [|done].
  destruct (storeUp e); [|done]. simpl. by destruct (findOne oid uid (db s)).
Qed.

(** A mutation that is not successful leaves the state as it was. *)
Lemma unsuccessful_mutation_state
    (lib : Libraries) (s : State) (r : Request) (e : Env) :
  match r with CreatePost _ _ | UpdatePost _ _ _ | DeletePost _ _ => True | _ => False end →
  successful r (handle lib s r e).1.2 = false →
  (handle lib s r e).1.1 = s.
Proof.
  destruct r as [| | | |uid b|uid id b|uid id]; try done; intros _; simpl.
  - mutation_cases done. simpl. intros H. discriminate H.
  - mutation_cases done. simpl. intros H. discriminate H.
  - mutation_cases done. simpl. intros H. discriminate H.
Qed.

(** Every request changes the collection in one of four ways: not at all; a
    Create appends a document with the generated id and the caller as owner;
    an Update replaces one document of the caller by one with the same id,
    owner and creation time; a Delete removes one document of the caller. *)
Lemma handle_dbStep
    (lib : Libraries) (s : State) (r : Request) (e : Env) :
  dbStep r e (db s) (db (handle lib s r e).1.1).
Proof.
  destruct r as [uid url rq|uid|uid|uid id|uid b|uid id b|uid id]; simpl.
  - unfold getPosts. rewrite cacheMiddleware_db. constructor.
  - rewrite getCategories_db. constructor.
  - rewrite getTags_db. constructor.
  - rewrite getPostById_state. constructor.
  - destruct (createPost uid b e s) as [[s' [st payload]] ops] eqn:H.
    destruct (decide (st = 201%nat)) as [->|Hst].
    + apply createPost_201 in H
        as (b' & t & c & cat & tgs & _ & _ & _ & _ & Hfresh & -> & _ & _).
      simpl. by eapply dbInsert.
    + pose proof (unsuccessful_mutation_state lib s (CreatePost uid b) e I) as Hs.
      simpl in Hs. rewrite H in Hs. simpl in *. rewrite Hs; [constructor|].
      by apply bool_decide_eq_false.
  - destruct (updatePost lib uid id b e s) as [[s' [st payload]] ops] eqn:H.
    destruct (decide (st = 200%nat)) as [->|Hst].
    + apply updatePost_200 in H
        as (b' & t & c & cat & tgs & docs & post & oid & _ & _ & _ & _ & _ & Hu & -> & _ & _).
      apply findOneAndUpdate_Some in Hu as (l1 & p & l2 & -> & -> & _ & Hp & ->).
      apply matchesIdUser_true in Hp as [_ <-]. simpl. by eapply dbReplace.
    + pose proof (unsuccessful_mutation_state lib s (UpdatePost uid id b) e I) as Hs.
      simpl in Hs. rewrite H in Hs. simpl in *. rewrite Hs; [constructor|].
      by apply bool_decide_eq_false.
  - destruct (deletePost lib uid id e s) as [[s' [st payload]] ops] eqn:H.
    destruct (decide (st = 200%nat)) as [->|Hst].
    + apply deletePost_200 in H as (docs & d & oid & _ & _ & Hd & ->).
      apply findOneAndDelete_Some in Hd as (l1 & l2 & -> & -> & _ & Hp).
      apply matchesIdUser_true in Hp as [_ <-]. simpl. by eapply dbRemove.
    + pose proof (unsuccessful_mutation_state lib s (DeletePost uid id) e I) as Hs.
      simpl in Hs. rewrite H in Hs. simpl in *. rewrite Hs; [constructor|].
      by apply bool_decide_eq_false.
Qed.

(** Ids stay unique. *)
Lemma dbStep_NoDup (r : Request) (e : Env) (docs docs' : list Post) :
  dbStep r e docs docs' → NoDup (map _id docs) → NoDup (map _id docs').
Proof.
  intros [docs0|docs0 post b _ Hid Hfresh|l1 p p' l2 id b _ Hid _ _|l1 d l2 id _]; [done|..].
  - rewrite map_app. simpl. intros H. apply NoDup_app. split; [done|].
    split; [|apply NoDup_singleton].
    intros x Hx [->|Hn]%elem_of_cons; [congruence|by apply elem_of_nil in Hn].
  - rewrite !map_app. simpl. by rewrite Hid.
  - rewrite !map_app. simpl. rewrite !NoDup_app, NoDup_cons.
    intros (H1 & H2 & _ & H3). repeat split; [done| |done].
    intros x Hx Hx'. eapply H2; [done|by right].
Qed.

Lemma handle_NoDup
    (lib : Libraries) (s : State) (r : Request) (e : Env) :
  NoDup (map _id (db s)) → NoDup (map _id (db (handle lib s r e).1.1)).
Proof. apply dbStep_NoDup with r e. apply handle_dbStep. Qed.

(** C6 (invalidation scoping).  For an owner [A], [clearCache(A)] removes
    every entry keyed to [A] in the three maps (each list entry
    [`${A}:${url}`], [`categories:${A}`] and [`tags:${A}`]) and leaves the
    entries keyed to any other owner [B] as they were. *)
Theorem clearCache_scoped_to_owner (A : string) (c : Cache) :
  isObjectId A = true →
  ((∀ url, cache_posts (clearCache (Some A) c) !! postsKey A url = None)
   ∧ cache_categories (clearCache (Some A) c) !! categoriesKey A = None
   ∧ cache_tags (clearCache (Some A) c) !! tagsKey A = None)
  ∧ (∀ B, isObjectId B = true → B ≠ A →
       (∀ url, cache_posts (clearCache (Some A) c) !! postsKey B url
               = cache_posts c !! postsKey B url)
       ∧ cache_categories (clearCache (Some A) c) !! categoriesKey B
         = cache_categories c !! categoriesKey B
       ∧ cache_tags (clearCache (Some A) c) !! tagsKey B
         = cache_tags c !! tagsKey B).
Proof.
  intros HA. split; [split; [|split]|].
  - intros url. by apply clearCache_posts_own.
  - rewrite clearCache_owner_categories by done.
    apply map_lookup_filter_None. right. intros x _. simpl. tauto.
  - rewrite clearCache_owner_tags by done.
    apply map_lookup_filter_None. right. intros x _. simpl. tauto.
  - intros B HB Hne. split; [|split].
    + intros url. apply clearCache_posts_other_key; [done|].
      destruct (startsWith (A +:+ ":") (postsKey B url)) eqn:E; [|done].
      apply postsKey_owner in E; [congruence|done..].
    + rewrite clearCache_owner_categories by done.
      apply option_eq. intros x. rewrite map_lookup_filter_Some. simpl.
      split; [tauto|]. intros Hx. split; [done|].
      unfold categoriesKey. intros E%string_app_inj_l. done.
    + rewrite clearCache_owner_tags by done.
      apply option_eq. intros x. rewrite map_lookup_filter_Some. simpl.
      split; [tauto|]. intros Hx. split; [done|].
      unfold tagsKey. intros E%string_app_inj_l. done.
Qed.

(** ** Aggregate reads *)

Lemma filter_user_none (uid : string) (docs : list Post) :
  (∀ p, p ∈ docs → user p ≠ uid) → filter (λ p, user p = uid) docs = [].
Proof.
  intros H. induction docs as [|p docs IH]; [done|].
  rewrite filter_cons. destruct (decide (user p = uid)) as [E|_].
  - exfalso. eapply H; [left|done].
  - apply IH. intros q Hq. apply H. by right.
Qed.

(** C7 (aggregate-read failure policy).  When the store read behind
    [/categories] or [/tags] is made and fails, the route answers status 200
    with the empty list and changes nothing.  That response is the one a
    caller without any post gets when the read is made and succeeds, so the
    two cases look the same to the caller. *)
Theorem aggregate_read_failure_is_empty_success
    (lib : Libraries) (s : State) (uid : string) (e : Env) :
  storeUp e = false →
  ((handle lib s (GetCategories uid) e).2 = [OpDistinct] →
   (handle lib s (GetCategories uid) e).1 = (s, mkResponse 200 (JStrings [])))
  ∧ ((handle lib s (GetTags uid) e).2 = [OpDistinct] →
     (handle lib s (GetTags uid) e).1 = (s, mkResponse 200 (JStrings [])))
  ∧ ∀ s2 e2,
      storeUp e2 = true →
      (∀ p, p ∈ db s2 → user p ≠ uid) →
      ((handle lib s2 (GetCategories uid) e2).2 = [OpDistinct] →
       (handle lib s2 (GetCategories uid) e2).1.2 = mkResponse 200 (JStrings []))
      ∧ ((handle lib s2 (GetTags uid) e2).2 = [OpDistinct] →
         (handle lib s2 (GetTags uid) e2).1.2 = mkResponse 200 (JStrings [])).
Proof.
  intros Hdown. simpl. unfold getCategories, getTags. rewrite Hdown.
  split; [|split].
  - destruct (cache_categories (cache s) !! categoriesKey uid) as [cached|];
      [destruct (_ <? _); [done|]|]; done.
  - destruct (cache_tags (cache s) !! tagsKey uid) as [cached|];
      [destruct (_ <? _); [done|]|]; done.
  - intros s2 e2 Hup Hown. rewrite Hup.
    unfold distinctCategories, distinctTags. rewrite (filter_user_none uid (db s2) Hown).
    split.
    + destruct (cache_categories (cache s2) !! categoriesKey uid) as [cached|];
        [destruct (_ <? _); [done|]|]; done.
    + destruct (cache_tags (cache s2) !! tagsKey uid) as [cached|];
        [destruct (_ <? _); [done|]|]; done.
Qed.

(** ** Validation *)

Lemma isLength_spec (lo hi : N) (v : string) :
  isLength lo hi v = true ↔ (lo ≤ N.of_nat (String.length v) ≤ hi)%N.
Proof. unfold isLength. rewrite andb_true_iff, !N.leb_le. tauto. Qed.

(** The chains report one error per check of theirs that fails. *)
Lemma validationResult_errors (b : Body) : (validationResult b).2 = chainErrors b.
Proof.
  unfold validationResult, chainErrors, chainTitle, chainContent, chainCategory,
    chainTags, violatesTitle, violatesContent, violatesCategory, tagsNotArray.
  destruct b as [t c cat tg]; simpl.
  assert (Hlen : ∀ hi v,
    isLength 1 hi v = negb (bool_decide (String.length v = 0%nat ∨ (hi < N.of_nat (String.length v))%N))).
  { intros hi v. apply eq_true_iff_eq.
    rewrite isLength_spec, negb_true_iff, bool_decide_eq_false. lia. }
  assert (Hmax : ∀ hi v,
    isLength 0 hi v = negb (bool_decide (hi < N.of_nat (String.length v))%N)).
  { intros hi v. apply eq_true_iff_eq.
    rewrite isLength_spec, negb_true_iff, bool_decide_eq_false. lia. }
  rewrite !Hlen.
  destruct cat as [cat|]; simpl; [rewrite Hmax|];
    repeat match goal with |- context [bool_decide ?P] => destruct (bool_decide P) end;
    destruct tg as [[?|]|]; reflexivity.
Qed.

(** As long as no tag is longer than the schema allows, the errors are
    collected over all four fields: a request with at least one violation is
    answered by one 400 response that reports exactly the violated fields
    and leaves the state as it was. *)
Lemma validation_reports_every_checked_violation
    (lib : Libraries)
    (uid id : string) (b : Body) (e : Env) (s : State) :
  tagsWithinLimit b = true →
  violatedFields b ≠ [] →
  let errors := (validationResult b).2 in
  map param errors = violatedFields b
  ∧ handle lib s (CreatePost uid b) e
    = (s, mkResponse 400 (JValidation "Validation failed" errors), [])
  ∧ handle lib s (UpdatePost uid id b) e
    = (s, mkResponse 400 (JValidation "Validation failed" errors), []).
Proof.
  intros Hshort Hviolated. cbv zeta.
  assert (Htags : violatesTags b = tagsNotArray b).
  { unfold violatesTags, tagsNotArray, tagsWithinLimit in *.
    destruct (b_tags b) as [[items|]|]; try done. simpl in Hshort.
    induction items as [|t items IH]; [done|]. simpl in *.
    apply andb_true_iff in Hshort as [Ht Hrest]. apply negb_true_iff in Ht.
    rewrite Ht. by apply IH. }
  assert (Hfields : map param (chainErrors b) = violatedFields b).
  { unfold chainErrors, violatedFields. rewrite Htags.
    by destruct (violatesTitle b), (violatesContent b), (violatesCategory b),
         (tagsNotArray b). }
  rewrite validationResult_errors. split; [done|].
  simpl. unfold createPost, updatePost.
  pose proof (validationResult_errors b) as He.
  destruct (validationResult b) as [b' errors]. simpl in He. subst errors.
  destruct (chainErrors b) as [|err errs]; [|done].
  by rewrite <- Hfields in Hviolated.
Qed.

(** C8 (validation aggregation): the code at the failing input.  A tag of
    31 characters violates its constraint, but no chain checks the length
    of a tag.  Sent together with an empty title, the response is 400 with
    the error of the title alone: the violation of the tags is not in the
    list.  Sent alone, the request passes the chains and is rejected by the
    schema validator when the post is saved or updated, which the handler
    answers 500 "Server error": no validation error response at all. *)
Theorem validation_misses_overlong_tag :
  let longTag := repeatChar 31 "x" in
  let both := mkBody (Some "") (Some "Buy milk") None (Some (TagsArray [longTag])) in
  let tagOnly := mkBody (Some "Note") (Some "Buy milk") None (Some (TagsArray [longTag])) in
  violatedFields both = ["title"; "tags"]
  ∧ handle sampleLibraries emptyState (CreatePost ownerA both) (envAt 5 postId1)
    = (emptyState, mkResponse 400 (JValidation "Validation failed" [titleError]), [])
  ∧ reportedFields
      (handle sampleLibraries emptyState (CreatePost ownerA both) (envAt 5 postId1)).1.2
    = ["title"]
  ∧ violatedFields tagOnly = ["tags"]
  ∧ handle sampleLibraries emptyState (CreatePost ownerA tagOnly) (envAt 5 postId1)
    = (emptyState, mkResponse 500 (JMessage "Server error"), [])
  ∧ handle sampleLibraries workState (UpdatePost ownerA postId1 tagOnly) (envAt 20 postId2)
    = (workState, mkResponse 500 (JMessage "Server error"), []).
Proof. vm_compute. repeat split. Qed.

(** An empty title together with a content of 10001 characters: both errors
    are returned, in one response. *)
Example validation_two_errors :
  handle sampleLibraries emptyState
    (CreatePost ownerA (mkBody (Some "  ") (Some (repeatChar (N.to_nat 10001) "x")) None None))
    (envAt 0 postId1)
  = (emptyState,
     mkResponse 400 (JValidation "Validation failed" [titleError; contentError]), []).
Proof. vm_compute. reflexivity. Qed.

(** ** Update *)

Lemma validationResult_body (b : Body) :
  (validationResult b).1
  = mkBody (Some (trim (toStringV (b_title b)))) (Some (trim (toStringV (b_content b))))
           (trim <$> b_category b) (b_tags b).
Proof.
  unfold validationResult, chainTitle, chainContent, chainCategory, chainTags.
  destruct b as [t c [cat|] [[?|]|]]; reflexivity.
Qed.

Lemma postFields_sanitised (b : Body) :
  postFields (validationResult b).1
  = (trim (toStringV (b_title b)), trim (toStringV (b_content b)),
     orDefault (trim <$> b_category b) "General", map trim (tagsOrEmpty (b_tags b))).
Proof.
  rewrite validationResult_body. unfold postFields, castFields. simpl.
  rewrite !trim_idem. repeat f_equal.
  destruct (b_category b) as [c|]; simpl; [|reflexivity].
  destruct (trim c) as [|ch t] eqn:E; [reflexivity|].
  simpl orDefault. rewrite <- E. apply trim_idem.
Qed.



(** A post filed under "Work" with two tags, updated by a request that names
    neither field, ends up under "General" without tags. *)
Example update_drops_previous_category_and_tags :
  let before := mkPost postId1 "Plan" "Q3" "Work" ["a"; "b"] ownerA 10 10 (Some 0) in
  let s := mkState [before] emptyCache in
  (handle sampleLibraries s
     (UpdatePost ownerA postId1 (mkBody (Some "Plan") (Some "Q4") None None))
     (envAt 20 postId2)).1
  = (mkState [mkPost postId1 "Plan" "Q4" "General" [] ownerA 10 20 (Some 0)] emptyCache,
     mkResponse 200 (JPost (mkPost postId1 "Plan" "Q4" "General" [] ownerA 10 20 None))).
Proof. vm_compute. reflexivity. Qed.

Lemma getPostById_200 (lib : Libraries) (uid id : string) (e : Env) (s : State) (j : Post) :
  (getPostById lib uid id e s).1.2 = mkResponse 200 (JPost j) →
  ∃ oid p, castObjectId lib id = Some oid ∧ findOne oid uid (db s) = Some p
           ∧ j = selectMinusV p.
Proof.
  unfold getPostById. destruct (castObjectId lib id) as [oid|]; [|done].
  destruct (storeUp e); [|done]. simpl.
  destruct (findOne oid uid (db s)) as [p|] eqn:Hf; [|done]. simpl.
  intros [= <-]. eauto.
Qed.

(** Whatever runs after a post has been given the id [id], as long as the
    generator does not hand out [id] again, every document with that id
    keeps the same owner and creation time. *)
Lemma run_keeps_identity
    (lib : Libraries)
    (id owner : string) (created : Z) (trace : list (Request * Env)) (s : State) :
  neverIssues id trace = true →
  (∀ q, q ∈ db s → _id q = id → user q = owner ∧ createdAt q = created) →
  ∀ q, q ∈ db (run lib s trace) → _id q = id → user q = owner ∧ createdAt q = created.
Proof.
  revert s. induction trace as [|[r e] trace IH]; intros s Hnever Hinv; [done|].
  simpl in Hnever. apply andb_true_iff in Hnever as [Hre Hnever]. simpl.
  apply IH; [done|]. clear IH Hnever.
  pose proof (handle_dbStep lib s r e) as Hstep.
  destruct Hstep as [docs0|docs0 post b -> Hid Hfresh|l1 p p' l2 id' b _ Hid Hu Hc|l1 d l2 id' _].
  - done.
  - intros q [Hq|Hq]%elem_of_app; [by apply Hinv|].
    apply list_elem_of_singleton in Hq as ->. intros Hq. simpl in Hre.
    apply negb_true_iff, bool_decide_eq_false in Hre. congruence.
  - intros q [Hq|[->|Hq]%elem_of_cons]%elem_of_app Hqid.
    + apply Hinv; [|done]. apply elem_of_app. by left.
    + rewrite Hu, Hc. apply Hinv; [|congruence]. apply elem_of_app. right. left.
    + apply Hinv; [|done]. apply elem_of_app. right. by right.
  - intros q [Hq|Hq]%elem_of_app Hqid; (apply Hinv; [|done]); apply elem_of_app;
      [by left|right; by right].
Qed.

(** C5 (update frame).  A successful Update of an existing post [p] of the
    caller replaces [p] in place by the post with the request's title,
    content, category and tags and the time of the update as [updatedAt];
    the id, the owner, [createdAt] and every other post stay as they were.
    After any further requests (none of which is handed the same id anew),
    every Get that answers with the post of that id shows the owner and the
    creation time [p] had before the Update. *)
Theorem update_keeps_owner_and_creation_time
    (lib : Libraries)
    (s s' : State) (uid id oid : string) (b : Body) (e : Env)
    (p j : Post) (ops : list StoreOp) :
  NoDup (map _id (db s)) →
  castObjectId lib id = Some oid →
  findOne oid uid (db s) = Some p →
  handle lib s (UpdatePost uid id b) e = (s', mkResponse 200 (JPost j), ops) →
  let p' := mkPost (_id p)
              (trim (toStringV (b_title b))) (trim (toStringV (b_content b)))
              (orDefault (trim <$> b_category b) "General")
              (map trim (tagsOrEmpty (b_tags b)))
              (user p) (createdAt p) (nowWrite e) (__v p) in
  (j = selectMinusV p' ∧ ∃ l1 l2, db s = l1 ++ p :: l2 ∧ db s' = l1 ++ p' :: l2)
  ∧ ∀ trace uid' e' j',
      neverIssues oid trace = true →
      (handle lib (run lib s' trace) (GetPost uid' id) e').1.2
        = mkResponse 200 (JPost j') →
      user j' = user p ∧ createdAt j' = createdAt p.
Proof.
  intros Hnd Hcast Hfind H. unfold handle in H.
  apply updatePost_200 in H
    as (b' & t & c & cat & tgs & docs & post & oid' & Hv & Hf & Hid & Hs & Hup & Hu & -> & [= ->] & _).
  assert (oid' = oid) as -> by congruence.
  pose proof (postFields_sanitised b) as Hpf. rewrite Hv in Hpf. cbn [fst] in Hpf.
  rewrite Hf in Hpf. injection Hpf as -> -> -> ->. simpl.
  apply findOneAndUpdate_Some in Hu as (l1 & p0 & l2 & Hdb & -> & Hl1 & Hp0 & ->).
  assert (p0 = p) as ->.
  { rewrite Hdb, findOne_app_skip in Hfind by done. simpl in Hfind.
    rewrite Hp0 in Hfind. congruence. }
  split; [split; [done|by exists l1, l2]|].
  intros trace uid' e' j' Hnever Hget.
  unfold handle in Hget. apply getPostById_200 in Hget as (oid' & q & Hcast' & Hq & ->).
  assert (oid' = oid) as -> by congruence.
  apply findOne_Some in Hq as (Hq & Hqid & _). simpl.
  apply matchesIdUser_true in Hp0 as [Hpid _].
  eapply (run_keeps_identity lib oid); [exact Hnever| |exact Hq|exact Hqid].
  simpl. clear Hq Hqid q. rewrite Hdb in Hnd. rewrite map_app in Hnd. simpl in Hnd.
  apply NoDup_app in Hnd as (_ & Hl1p & [Hpl2 _]%NoDup_cons).
  intros q [Hq|[->|Hq]%elem_of_cons]%elem_of_app Hqid.
  - exfalso. apply (Hl1p (_id q)); [by apply list_elem_of_fmap_2|].
    replace (_id q) with (_id p) by congruence. left.
  - done.
  - exfalso. apply Hpl2. rewrite Hpid, <- Hqid. by apply list_elem_of_fmap_2.
Qed.

(** ** Create, then Get *)

(** The claim as worded fails on a title with surrounding white space: the
    post is stored and returned with the trimmed title. *)
Lemma roundtrip_as_stated_fails_on_padded_title :
  ¬ roundTripAsStated sampleLibraries emptyState ownerA
      (mkBody (Some " Note") (Some "Buy milk") None None)
      (envAt 5 postId1) (envAt 9 postId2).
Proof.
  intros H.
  destruct (H (mkState [mkPost postId1 "Note" "Buy milk" "General" [] ownerA 5 5 (Some 0)]
                       emptyCache)
              (mkPost postId1 "Note" "Buy milk" "General" [] ownerA 5 5 (Some 0))
              [OpSave])
    as (j' & Hget & Htitle & _).
  - vm_compute. reflexivity.
  - vm_compute in Hget. injection Hget as <-. vm_compute in Htitle. discriminate Htitle.
Qed.

(** C4 (round trip), amended.  When Create answers 201 with a post [j], Get
    on its id by the same caller (the id, sent back as the route parameter,
    casts to itself, and the store answers) returns the stored post.  Its
    title and content are the request's, trimmed; its category is the
    request's, trimmed, or "General" when that is absent or blank; its tags
    are the request's, each trimmed, or none when absent; its id, owner and
    two timestamps are those of the Create response, the owner being the
    caller and both timestamps the time of the save. *)
Theorem create_then_get_returns_normalised_post
    (lib : Libraries)
    (s s' : State) (uid : string) (b : Body) (e e' : Env) (j : Post) (ops : list StoreOp) :
  handle lib s (CreatePost uid b) e = (s', mkResponse 201 (JPost j), ops) →
  castObjectId lib (_id j) = Some (_id j) →
  storeUp e' = true →
  ∃ j', handle lib s' (GetPost uid (_id j)) e' = (s', mkResponse 200 (JPost j'), [OpFindOne])
    ∧ j' = selectMinusV j
    ∧ title j' = trim (toStringV (b_title b))
    ∧ content j' = trim (toStringV (b_content b))
    ∧ category j' = orDefault (trim <$> b_category b) "General"
    ∧ tags j' = map trim (tagsOrEmpty (b_tags b))
    ∧ _id j' = _id j ∧ user j' = user j ∧ user j = uid
    ∧ createdAt j' = createdAt j ∧ updatedAt j' = updatedAt j
    ∧ createdAt j = nowWrite e ∧ updatedAt j = nowWrite e.
Proof.
  intros H Hoid Hup. unfold handle in *.
  apply createPost_201 in H
    as (b' & t & c & cat & tgs & Hv & Hf & Hs & _ & Hfresh & -> & [= ->] & _).
  pose proof (postFields_sanitised b) as Hpf. rewrite Hv in Hpf. cbn [fst] in Hpf.
  rewrite Hf in Hpf. injection Hpf as -> -> -> ->.
  eexists. split; [|by repeat split].
  unfold getPostById. simpl in Hoid. simpl _id. rewrite Hoid, Hup. simpl.
  rewrite findOne_app_skip.
  - simpl. unfold matchesIdUser. simpl. by rewrite !bool_decide_eq_true_2.
  - intros q Hq. unfold matchesIdUser.
    rewrite (bool_decide_eq_false_2 (_id q = newId e)); [done|].
    intros Heq. apply Hfresh. rewrite <- Heq. by apply list_elem_of_fmap_2.
Qed.

(** ** Owner isolation *)

Lemma insertByCreatedDesc_perm (p : Post) (docs : list Post) :
  insertByCreatedDesc p docs ≡ₚ p :: docs.
Proof.
  induction docs as [|q docs IH]; [done|]. simpl.
  destruct (createdAt q <? createdAt p); [done|].
  rewrite IH. apply Permutation_swap.
Qed.

Lemma sortByCreatedDesc_perm (docs : list Post) : sortByCreatedDesc docs ≡ₚ docs.
Proof.
  induction docs as [|p docs IH]; [done|]. simpl.
  rewrite insertByCreatedDesc_perm. by rewrite IH.
Qed.

(** The result of [sortByCreatedDesc] is in descending order of creation. *)
Lemma insertByCreatedDesc_sorted (p : Post) (docs : list Post) :
  Sorted (λ a b, createdAt b ≤ createdAt a) docs →
  Sorted (λ a b, createdAt b ≤ createdAt a) (insertByCreatedDesc p docs).
Proof.
  induction docs as [|q docs IH]; intros Hs; simpl.
  - repeat constructor.
  - destruct (createdAt q <? createdAt p) eqn:E.
    + apply Z.ltb_lt in E. constructor; [done|]. constructor. lia.
    + apply Z.ltb_ge in E. apply Sorted_inv in Hs as [Hs Hhd].
      constructor; [by apply IH|].
      destruct docs as [|q' docs]; simpl.
      * constructor. done.
      * destruct (createdAt q' <? createdAt p); constructor; [done|].
        by apply HdRel_inv in Hhd.
Qed.

Lemma sortByCreatedDesc_sorted (docs : list Post) :
  Sorted (λ a b, createdAt b ≤ createdAt a) (sortByCreatedDesc docs).
Proof.
  induction docs as [|p docs IH]; simpl; [constructor|].
  by apply insertByCreatedDesc_sorted.
Qed.

(** What [find] returns: the documents of the collection that satisfy the
    filter, without their version key. *)
Lemma find_elem (lib : Libraries)
    (query : Filter) (docs found : list Post) (j : Post) :
  find lib query docs = Some found →
  j ∈ found ↔
  ∃ p, p ∈ docs ∧ j = selectMinusV p
       ∧ matchesFilter query (f_or_regex query ≫= regexTest lib) p = true.
Proof.
  unfold find. destruct (f_or_regex query) as [pattern|]; simpl.
  - destruct (regexTest lib pattern) as [test|]; [|done]. intros [= <-].
    rewrite list_elem_of_fmap. setoid_rewrite sortByCreatedDesc_perm.
    setoid_rewrite list_elem_of_filter.
    split; intros (p & H1 & H2); exists p; tauto.
  - intros [= <-].
    rewrite list_elem_of_fmap. setoid_rewrite sortByCreatedDesc_perm.
    setoid_rewrite list_elem_of_filter.
    split; intros (p & H1 & H2); exists p; tauto.
Qed.

Lemma matchesFilter_user (query : Filter) (orTest : option (string → bool)) (p : Post) :
  matchesFilter query orTest p = true → user p = f_user query.
Proof.
  unfold matchesFilter. rewrite !andb_true_iff, bool_decide_eq_true. tauto.
Qed.

(** The list route answers with posts of the caller only. *)
Lemma listPosts_owned (lib : Libraries)
    (uid : string) (rq : ListQuery) (e : Env) (s : State) (j : Post) :
  j ∈ payloadPosts (body (listPosts lib uid rq e s).1) → user j = uid.
Proof.
  unfold listPosts.
  destruct (find lib (buildQuery uid rq) (db s)) as [found|] eqn:Hfind; simpl.
  - destruct (storeUp e); simpl; [|by intros ?%elem_of_nil].
    intros Hj. apply (find_elem _ _ _ _ j Hfind) in Hj as (p & _ & -> & Hm).
    by apply matchesFilter_user in Hm.
  - by intros ?%elem_of_nil.
Qed.

Lemma emptyCache_owned : cacheOwned emptyCache.
Proof. repeat split; simpl; intros key entry H; by rewrite lookup_empty in H. Qed.

Lemma clearCache_owned (userId : option string) (c : Cache) :
  cacheOwned c → cacheOwned (clearCache userId c).
Proof.
  intros (Hp & Hc & Ht). destruct userId as [[|ch t]|]; try apply emptyCache_owned.
  repeat split; simpl; intros key entry [H _]%map_lookup_filter_Some; eauto.
Qed.

(** Handling a request of a caller that is an ObjectId keeps the cache
    owned. *)
Lemma handle_cacheOwned (lib : Libraries)
    (s : State) (r : Request) (e : Env) :
  isObjectId (caller r) = true →
  cacheOwned (cache s) → cacheOwned (cache (handle lib s r e).1.1).
Proof.
  intros Hoid Hinv.
  destruct r as [uid url rq|uid|uid|uid id|uid b|uid id b|uid id]; simpl in *.
  - unfold getPosts, cacheMiddleware.
    destruct (cache_posts (cache s) !! postsKey uid url) as [cached|] eqn:Hc;
      [destruct (_ <? _); [done|]|];
      destruct (listPosts lib uid rq e s) as [resp ops] eqn:Hl; simpl;
      destruct Hinv as (Hp & Hcat & Htag); (split; [|done]); simpl;
      intros key entry Hk u Hu Hpre j Hj;
      (destruct (decide (postsKey uid url = key)) as [<-|Hne];
       [rewrite lookup_insert_eq in Hk; injection Hk as <-; simpl in Hj;
        apply postsKey_owner in Hpre as ->; [|done..];
        apply (listPosts_owned lib uid rq e s); by rewrite Hl
       |rewrite lookup_insert_ne in Hk by done; by eapply Hp]).
  - unfold getCategories.
    destruct (cache_categories (cache s) !! categoriesKey uid) as [cached|];
      [destruct (_ <? _); [done|]|]; (destruct (storeUp e); [|done]); simpl;
      destruct Hinv as (Hp & Hcat & Htag); (split; [done|split; [|done]]); simpl;
      intros key entry Hk;
      (destruct (decide (categoriesKey uid = key)) as [<-|Hne];
       [rewrite lookup_insert_eq in Hk; by injection Hk as <-
       |rewrite lookup_insert_ne in Hk by done; by eapply Hcat]).
  - unfold getTags.
    destruct (cache_tags (cache s) !! tagsKey uid) as [cached|];
      [destruct (_ <? _); [done|]|]; (destruct (storeUp e); [|done]); simpl;
      destruct Hinv as (Hp & Hcat & Htag); (split; [done|split; [done|]]); simpl;
      intros key entry Hk;
      (destruct (decide (tagsKey uid = key)) as [<-|Hne];
       [rewrite lookup_insert_eq in Hk; by injection Hk as <-
       |rewrite lookup_insert_ne in Hk by done; by eapply Htag]).
  - by rewrite getPostById_state.
  - mutation_cases done. exact (clearCache_owned (Some uid) (cache s) Hinv).
  - mutation_cases done. exact (clearCache_owned (Some uid) (cache s) Hinv).
  - mutation_cases done. exact (clearCache_owned (Some uid) (cache s) Hinv).
Qed.

Lemma run_cacheOwned (lib : Libraries)
    (trace : list (Request * Env)) (s : State) :
  validCallers trace = true →
  cacheOwned (cache s) → cacheOwned (cache (run lib s trace)).
Proof.
  revert s. induction trace as [|[r e] trace IH]; intros s Hv Hinv; [done|].
  simpl in Hv. apply andb_true_iff in Hv as [Hr Hv]. simpl.
  apply IH; [done|]. by apply handle_cacheOwned.
Qed.

(** Every post in a response belongs to the caller. *)
Lemma handle_response_owned (lib : Libraries)
    (s : State) (r : Request) (e : Env) (j : Post) :
  isObjectId (caller r) = true →
  cacheOwned (cache s) →
  j ∈ payloadPosts (body (handle lib s r e).1.2) → user j = caller r.
Proof.
  intros Hoid (Hp & Hcat & Htag).
  destruct r as [uid url rq|uid|uid|uid id|uid b|uid id b|uid id]; simpl in *.
  - unfold getPosts, cacheMiddleware.
    destruct (cache_posts (cache s) !! postsKey uid url) as [cached|] eqn:Hc.
    + destruct (_ <? _).
      * simpl. intros Hj. eapply Hp; [exact Hc|done|apply postsKey_own|done].
      * destruct (listPosts lib uid rq e s) as [resp ops] eqn:Hl. simpl.
        intros Hj. apply (listPosts_owned lib uid rq e s). by rewrite Hl.
    + destruct (listPosts lib uid rq e s) as [resp ops] eqn:Hl. simpl.
      intros Hj. apply (listPosts_owned lib uid rq e s). by rewrite Hl.
  - unfold getCategories.
    destruct (cache_categories (cache s) !! categoriesKey uid) as [cached|] eqn:Hc;
      [destruct (_ <? _); [simpl; rewrite (Hcat _ _ Hc); by intros ?%elem_of_nil|]|];
      destruct (storeUp e); simpl; by intros ?%elem_of_nil.
  - unfold getTags.
    destruct (cache_tags (cache s) !! tagsKey uid) as [cached|] eqn:Hc;
      [destruct (_ <? _); [simpl; rewrite (Htag _ _ Hc); by intros ?%elem_of_nil|]|];
      destruct (storeUp e); simpl; by intros ?%elem_of_nil.
  - unfold getPostById. destruct (castObjectId lib id) as [oid|]; [|by intros ?%elem_of_nil].
    destruct (storeUp e); [|by intros ?%elem_of_nil]. simpl.
    destruct (findOne oid uid (db s)) as [p|] eqn:Hf; [|by intros ?%elem_of_nil].
    simpl. intros ->%list_elem_of_singleton. simpl.
    by apply findOne_Some in Hf as (_ & _ & ?).
  - mutation_cases ltac:(by intros ?%elem_of_nil).
    simpl. by intros ->%list_elem_of_singleton.
  - mutation_cases ltac:(by intros ?%elem_of_nil).
    simpl. intros ->%list_elem_of_singleton. simpl.
    match goal with
    | Hu : findOneAndUpdate _ _ _ _ _ _ _ _ = Some _ |- _ =>
        apply findOneAndUpdate_Some in Hu as (before & old & after & _ & _ & _ & Hm & ->)
    end.
    simpl. by apply matchesIdUser_true in Hm as [_ ?].
  - mutation_cases ltac:(by intros ?%elem_of_nil). by intros ?%elem_of_nil.
Qed.

(** A request leaves the posts of everyone but its caller exactly as they
    were. *)
Lemma dbStep_frame (r : Request) (e : Env) (docs docs' : list Post) (A : string) :
  dbStep r e docs docs' → caller r ≠ A →
  filter (λ q, user q = A) docs' = filter (λ q, user q = A) docs.
Proof.
  intros [docs0|docs0 post b -> _ _|l1 p p' l2 id b -> _ Hu _|l1 d l2 id ->] Hne; simpl in Hne.
  - done.
  - rewrite filter_app, filter_cons, decide_False by done. simpl. by rewrite app_nil_r.
  - rewrite !filter_app, !filter_cons, !decide_False; [done|done|by rewrite Hu].
  - by rewrite !filter_app, !filter_cons, !decide_False.
Qed.

(** C1 (owner isolation).  Start the server with an empty cache on any
    collection and let it handle any requests of verified callers.  Then,
    for a post [p] owned by [A] and any request of another caller [B]
    (whatever its filters or id): every post in the response is owned by
    [B], so neither [p] nor its projection is returned; and the posts of
    [A] in the collection, [p] among them, are exactly what they were. *)
Theorem owner_isolation
    (lib : Libraries)
    (s0 : State) (trace : list (Request * Env)) (A B : string)
    (p : Post) (r : Request) (e : Env) :
  cache s0 = emptyCache →
  validCallers trace = true →
  isObjectId B = true → A ≠ B → caller r = B →
  p ∈ db (run lib s0 trace) → user p = A →
  let s := run lib s0 trace in
  let s' := (handle lib s r e).1.1 in
  let resp := (handle lib s r e).1.2 in
  (∀ j, j ∈ payloadPosts (body resp) → user j = B)
  ∧ (p ∉ payloadPosts (body resp)) ∧ (selectMinusV p ∉ payloadPosts (body resp))
  ∧ filter (λ q, user q = A) (db s') = filter (λ q, user q = A) (db s)
  ∧ p ∈ db s'.
Proof.
  intros Hc Hv HB Hne Hr Hp Hu. simpl.
  assert (Hinv : cacheOwned (cache (run lib s0 trace))).
  { apply run_cacheOwned; [done|]. rewrite Hc. apply emptyCache_owned. }
  assert (Hresp : ∀ j, j ∈ payloadPosts (body (handle lib (run lib s0 trace) r e).1.2)
                       → user j = B).
  { intros j Hj. rewrite <- Hr. eapply handle_response_owned; [by rewrite Hr|done..]. }
  assert (Hframe : filter (λ q, user q = A) (db (handle lib (run lib s0 trace) r e).1.1)
                   = filter (λ q, user q = A) (db (run lib s0 trace))).
  { eapply dbStep_frame; [apply handle_dbStep|congruence]. }
  split; [done|]. split; [|split; [|split; [done|]]].
  - intros Hin. apply Hresp in Hin. congruence.
  - intros Hin. apply Hresp in Hin. simpl in Hin. congruence.
  - assert (Hin : p ∈ filter (λ q, user q = A) (db (run lib s0 trace))).
    { by apply list_elem_of_filter. }
    rewrite <- Hframe in Hin. by apply list_elem_of_filter in Hin as [_ ?].
Qed.

(** ** The list cache *)

Lemma getPosts_hit (lib : Libraries)
    (uid url : string) (rq : ListQuery) (e : Env) (s : State) (entry : CacheEntry) :
  cache_posts (cache s) !! postsKey uid url = Some entry →
  nowCheck e - timestamp entry < listDuration →
  getPosts lib uid url rq e s = (s, mkResponse 200 (data entry), []).
Proof.
  intros Hc Hlt. unfold getPosts, cacheMiddleware. rewrite Hc.
  apply Z.ltb_lt in Hlt. by rewrite Hlt.
Qed.

Lemma getPosts_listHit (lib : Libraries)
    (uid url : string) (rq : ListQuery) (e : Env) (s : State) :
  listHit uid url e s = true → (getPosts lib uid url rq e s).1.1 = s.
Proof.
  unfold listHit, getPosts, cacheMiddleware.
  destruct (cache_posts (cache s) !! postsKey uid url) as [cached|]; [|done].
  by intros ->.
Qed.

(** On a miss the route runs and its payload, whatever it is, is stored
    under the key with the time of the write. *)
Lemma getPosts_miss (lib : Libraries)
    (uid url : string) (rq : ListQuery) (e : Env) (s : State) :
  listHit uid url e s = false →
  getPosts lib uid url rq e s
  = (withCachePosts
       (<[postsKey uid url := mkEntry (body (listPosts lib uid rq e s).1) (nowWrite e)]>
          (cache_posts (cache s))) s,
     (listPosts lib uid rq e s).1, (listPosts lib uid rq e s).2).
Proof.
  unfold listHit, getPosts, cacheMiddleware.
  destruct (cache_posts (cache s) !! postsKey uid url) as [cached|];
    [intros ->|intros _]; by destruct (listPosts lib uid rq e s).
Qed.

(** A request that does not disturb the entry leaves it in place. *)
Lemma handle_undisturbed (lib : Libraries)
    (uid url : string) (s : State) (r : Request) (e : Env) :
  isObjectId uid = true →
  undisturbed lib uid url s [(r, e)] = true →
  cache_posts (cache (handle lib s r e).1.1) !! postsKey uid url
  = cache_posts (cache s) !! postsKey uid url.
Proof.
  intros Huid. simpl. rewrite andb_true_r, !andb_true_iff, negb_true_iff.
  intros [[Hoid Hmut] Hlist].
  assert (Hclear :
    caller r ≠ uid →
    cache_posts (clearCache (Some (caller r)) (cache s)) !! postsKey uid url
    = cache_posts (cache s) !! postsKey uid url).
  { intros Hne. apply clearCache_posts_other_key; [done|].
    destruct (startsWith (caller r +:+ ":") (postsKey uid url)) eqn:E; [|done].
    apply postsKey_owner in E; done. }
  assert (Hcases : successful r (handle lib s r e).1.2 = false
                   ∨ (successful r (handle lib s r e).1.2 = true ∧ caller r ≠ uid)).
  { destruct (successful r _); [right|by left]. split; [done|].
    rewrite andb_true_r in Hmut. by apply bool_decide_eq_false in Hmut. }
  clear Hmut.
  destruct r as [uid' url' rq|uid'|uid'|uid' id|uid' b|uid' id b|uid' id]; simpl in *.
  - apply orb_true_iff in Hlist as [Hk|Hhit].
    + apply negb_true_iff, bool_decide_eq_false in Hk.
      unfold getPosts, cacheMiddleware.
      destruct (cache_posts (cache s) !! postsKey uid' url') as [cached|];
        [destruct (_ <? _); [done|]|];
        destruct (listPosts lib uid' rq e s); simpl; by rewrite lookup_insert_ne.
    + by rewrite getPosts_listHit.
  - unfold getCategories.
    destruct (cache_categories (cache s) !! categoriesKey uid') as [cached|];
      [destruct (_ <? _); [done|]|]; by destruct (storeUp e).
  - unfold getTags.
    destruct (cache_tags (cache s) !! tagsKey uid') as [cached|];
      [destruct (_ <? _); [done|]|]; by destruct (storeUp e).
  - by rewrite getPostById_state.
  - destruct Hcases as [Hf|[Ht Hne]].
    + pose proof (unsuccessful_mutation_state lib s (CreatePost uid' b) e I Hf) as Hs.
      simpl in Hs. by rewrite Hs.
    + destruct (createPost uid' b e s) as [[s' [st payload]] ops] eqn:H. simpl in Ht.
      apply bool_decide_eq_true in Ht as ->.
      apply createPost_201 in H as (? & ? & ? & ? & ? & _ & _ & _ & _ & _ & -> & _).
      exact (Hclear Hne).
  - destruct Hcases as [Hf|[Ht Hne]].
    + pose proof (unsuccessful_mutation_state lib s (UpdatePost uid' id b) e I Hf) as Hs.
      simpl in Hs. by rewrite Hs.
    + destruct (updatePost lib uid' id b e s) as [[s' [st payload]] ops] eqn:H. simpl in Ht.
      apply bool_decide_eq_true in Ht as ->.
      apply updatePost_200 in H
        as (? & ? & ? & ? & ? & ? & ? & ? & _ & _ & _ & _ & _ & _ & -> & _).
      exact (Hclear Hne).
  - destruct Hcases as [Hf|[Ht Hne]].
    + pose proof (unsuccessful_mutation_state lib s (DeletePost uid' id) e I Hf) as Hs.
      simpl in Hs. by rewrite Hs.
    + destruct (deletePost lib uid' id e s) as [[s' [st payload]] ops] eqn:H. simpl in Ht.
      apply bool_decide_eq_true in Ht as ->.
      apply deletePost_200 in H as (? & ? & ? & _ & _ & _ & ->).
      exact (Hclear Hne).
Qed.

Lemma run_undisturbed (lib : Libraries)
    (uid url : string) (trace : list (Request * Env)) (s : State) :
  isObjectId uid = true →
  undisturbed lib uid url s trace = true →
  cache_posts (cache (run lib s trace)) !! postsKey uid url
  = cache_posts (cache s) !! postsKey uid url.
Proof.
  intros Huid. revert s. induction trace as [|[r e] trace IH]; intros s H; [done|].
  simpl in H. apply andb_true_iff in H as [Hhd Htl]. simpl.
  rewrite IH by done. apply handle_undisturbed; [done|].
  simpl. by rewrite andb_true_r.
Qed.

(** Only a list request under a key puts an entry under that key. *)
Lemma handle_keeps_absent (lib : Libraries)
    (key : string) (s : State) (r : Request) (e : Env) :
  noListAt key [(r, e)] = true →
  cache_posts (cache s) !! key = None →
  cache_posts (cache (handle lib s r e).1.1) !! key = None.
Proof.
  simpl. rewrite andb_true_r. intros Hr Hnone.
  assert (Hclear : ∀ userId, cache_posts (clearCache userId (cache s)) !! key = None).
  { intros userId. destruct (cache_posts (clearCache userId (cache s)) !! key) eqn:E; [|done].
    apply clearCache_posts_subset in E. congruence. }
  destruct r as [uid' url' rq|uid'|uid'|uid' id|uid' b|uid' id b|uid' id]; simpl in *.
  - apply negb_true_iff, bool_decide_eq_false in Hr.
    unfold getPosts, cacheMiddleware.
    destruct (cache_posts (cache s) !! postsKey uid' url') as [cached|];
      [destruct (_ <? _); [done|]|];
      destruct (listPosts lib uid' rq e s); simpl; by rewrite lookup_insert_ne.
  - unfold getCategories.
    destruct (cache_categories (cache s) !! categoriesKey uid') as [cached|];
      [destruct (_ <? _); [done|]|]; by destruct (storeUp e).
  - unfold getTags.
    destruct (cache_tags (cache s) !! tagsKey uid') as [cached|];
      [destruct (_ <? _); [done|]|]; by destruct (storeUp e).
  - by rewrite getPostById_state.
  - mutation_cases done. exact (Hclear (Some uid')).
  - mutation_cases done. exact (Hclear (Some uid')).
  - mutation_cases done. exact (Hclear (Some uid')).
Qed.

Lemma run_keeps_absent (lib : Libraries)
    (key : string) (trace : list (Request * Env)) (s : State) :
  noListAt key trace = true →
  cache_posts (cache s) !! key = None →
  cache_posts (cache (run lib s trace)) !! key = None.
Proof.
  revert s. induction trace as [|[r e] trace IH]; intros s H Hnone; [done|].
  simpl in H. apply andb_true_iff in H as [Hhd Htl]. simpl.
  apply IH; [done|]. apply handle_keeps_absent; [|done]. simpl. by rewrite andb_true_r.
Qed.

(** A successful mutation clears the list entries of its caller. *)
Lemma successful_mutation_clears (lib : Libraries)
    (s : State) (m : Request) (em : Env) (url : string) :
  isObjectId (caller m) = true →
  successful m (handle lib s m em).1.2 = true →
  cache_posts (cache (handle lib s m em).1.1) !! postsKey (caller m) url = None.
Proof.
  intros Hoid.
  destruct m as [| | | |uid b|uid id b|uid id]; try done; simpl in *.
  - destruct (createPost uid b em s) as [[s' [st payload]] ops] eqn:H. simpl.
    intros ->%bool_decide_eq_true.
    apply createPost_201 in H as (? & ? & ? & ? & ? & _ & _ & _ & _ & _ & -> & _).
    by apply clearCache_posts_own.
  - destruct (updatePost lib uid id b em s) as [[s' [st payload]] ops] eqn:H. simpl.
    intros ->%bool_decide_eq_true.
    apply updatePost_200 in H
      as (? & ? & ? & ? & ? & ? & ? & ? & _ & _ & _ & _ & _ & _ & -> & _).
    by apply clearCache_posts_own.
  - destruct (deletePost lib uid id em s) as [[s' [st payload]] ops] eqn:H. simpl.
    intros ->%bool_decide_eq_true.
    apply deletePost_200 in H as (? & ? & ? & _ & _ & _ & ->).
    by apply clearCache_posts_own.
Qed.

Lemma listPosts_ops (lib : Libraries)
    (uid : string) (rq : ListQuery) (e : Env) (s : State) :
  filterBuilds lib rq = true → (listPosts lib uid rq e s).2 = [OpFind].
Proof.
  unfold filterBuilds, listPosts, find, buildQuery. simpl.
  destruct (q_search rq) as [[|ch t]|]; simpl.
  - intros _. by destruct (storeUp e).
  - destruct (regexTest lib (String ch t)); [|done]. intros _. by destruct (storeUp e).
  - intros _. by destruct (storeUp e).
Qed.

(** After a list request there is an entry under its key, holding the body
    of its response. *)
Lemma getPosts_entry (lib : Libraries)
    (uid url : string) (rq : ListQuery) (e : Env) (s : State) :
  ∃ entry,
    cache_posts (cache (getPosts lib uid url rq e s).1.1) !! postsKey uid url = Some entry
    ∧ data entry = body (getPosts lib uid url rq e s).1.2.
Proof.
  destruct (listHit uid url e s) eqn:Hhit.
  - unfold listHit in Hhit.
    destruct (cache_posts (cache s) !! postsKey uid url) as [cached|] eqn:Hc; [|done].
    apply Z.ltb_lt in Hhit. rewrite (getPosts_hit _ _ _ _ _ _ cached) by done.
    by exists cached.
  - rewrite getPosts_miss by done. simpl. eexists. by rewrite lookup_insert_eq.
Qed.

(** The claim as worded fails when the search string is no regular
    expression: after a successful Create the next List is not answered from
    the cache, but the route throws while building its filter and never asks
    the store. *)
Lemma invalidation_as_stated_fails_on_bad_pattern :
  ¬ invalidationAsStated sampleLibraries emptyState ownerA "/api/posts?search=("
      (mkListQuery None None (Some "("))
      (CreatePost ownerA noteBody) (envAt 5 postId1) (envAt 9 postId2).
Proof.
  intros H. unfold invalidationAsStated in H.
  assert (Hops : (handle sampleLibraries
                    (handle sampleLibraries emptyState (CreatePost ownerA noteBody)
                       (envAt 5 postId1)).1.1
                    (GetPosts ownerA "/api/posts?search=(" (mkListQuery None None (Some "(")))
                    (envAt 9 postId2)).2 = []).
  { vm_compute. reflexivity. }
  rewrite Hops in H. eapply elem_of_nil, H; vm_compute; reflexivity.
Qed.

(** What holds of the cache for every request.  For an owner [uid] and a
    list request for [url]:
    - after the request has been answered, its payload is in the cache; as
      long as nothing disturbs that entry, the same request arriving less
      than 60000 ms after the entry was written is answered 200 with that
      payload, without any store operation and without changing the state;
    - a successful Create, Update or Delete by [uid] removes the entry; it
      stays absent until the next list request under that key, which is
      answered by running the route again and storing its payload; the
      route then reaches its store query unless building the filter throws;
    - an entry of the category or tag cache is served while it is younger
      than 600000 ms, ten times the list window of 60000 ms. *)
Theorem list_cache_hit_and_invalidation
    (lib : Libraries)
    (uid url : string) (rq : ListQuery) :
  isObjectId uid = true →
  (∀ s e1,
     let first := handle lib s (GetPosts uid url rq) e1 in
     ∃ entry,
       cache_posts (cache first.1.1) !! postsKey uid url = Some entry
       ∧ data entry = body first.1.2
       ∧ ∀ trace e2,
           undisturbed lib uid url first.1.1 trace = true →
           nowCheck e2 - timestamp entry < listDuration →
           handle lib (run lib first.1.1 trace) (GetPosts uid url rq) e2
           = (run lib first.1.1 trace, mkResponse 200 (body first.1.2), []))
  ∧ (∀ s m em rest e3,
       caller m = uid →
       successful m (handle lib s m em).1.2 = true →
       noListAt (postsKey uid url) rest = true →
       let s3 := run lib (handle lib s m em).1.1 rest in
       let next := handle lib s3 (GetPosts uid url rq) e3 in
       cache_posts (cache s3) !! postsKey uid url = None
       ∧ next.1.2 = (listPosts lib uid rq e3 s3).1
       ∧ next.2 = (listPosts lib uid rq e3 s3).2
       ∧ cache_posts (cache next.1.1) !! postsKey uid url
         = Some (mkEntry (body next.1.2) (nowWrite e3))
       ∧ (filterBuilds lib rq = true → next.2 = [OpFind]))
  ∧ (∀ s e entry,
       nowCheck e - timestamp entry < aggregateDuration →
       (cache_categories (cache s) !! categoriesKey uid = Some entry →
        handle lib s (GetCategories uid) e = (s, mkResponse 200 (data entry), []))
       ∧ (cache_tags (cache s) !! tagsKey uid = Some entry →
          handle lib s (GetTags uid) e = (s, mkResponse 200 (data entry), [])))
  ∧ listDuration = 60000 ∧ aggregateDuration = 600000 ∧ listDuration < aggregateDuration.
Proof.
  intros Huid. split; [|split; [|split; [|done]]]; cycle 2.
  { intros s e entry Hlt%Z.ltb_lt. simpl. unfold getCategories, getTags.
    split; intros ->; by rewrite Hlt. }
  - intros s e1. simpl.
    destruct (getPosts_entry lib uid url rq e1 s) as (entry & Hentry & Hdata).
    exists entry. split; [done|split; [done|]].
    intros trace e2 Hquiet Hlt. rewrite <- Hdata.
    apply getPosts_hit; [|done]. by rewrite run_undisturbed.
  - intros s m em rest e3 Hm Hsucc Hrest. simpl.
    assert (Hnone : cache_posts (cache (run lib (handle lib s m em).1.1 rest))
                      !! postsKey uid url = None).
    { apply run_keeps_absent; [done|]. rewrite <- Hm.
      apply successful_mutation_clears; [by rewrite Hm|done]. }
    split; [done|].
    rewrite getPosts_miss by (unfold listHit; by rewrite Hnone). simpl.
    split; [done|split; [done|split]].
    + by rewrite lookup_insert_eq.
    + apply listPosts_ops.
Qed.

(** C3 (cache reads and invalidation): the code at the failing input.  The
    owner of a post lists with the search string "(", creates another post,
    and sends the same list request again.  The first answer is cached; the
    Create succeeds and removes the cached entry; but the second list
    request does not query the store: the route throws at [new RegExp]
    while it builds the filter and answers 500 "Server error" with no store
    operation at all. *)
Theorem list_after_mutation_never_reaches_the_store :
  let url := "/api/posts?search=(" in
  let rq := mkListQuery None None (Some "(") in
  let first := handle sampleLibraries workState (GetPosts ownerA url rq) (envAt 100 postId2) in
  let created :=
    handle sampleLibraries first.1.1 (CreatePost ownerA noteBody) (envAt 200 postId2) in
  let next := handle sampleLibraries created.1.1 (GetPosts ownerA url rq) (envAt 300 postId2) in
  cache_posts (cache first.1.1) !! postsKey ownerA url
  = Some (mkEntry (JMessage "Server error") 100)
  ∧ successful (CreatePost ownerA noteBody) created.1.2 = true
  ∧ cache_posts (cache created.1.1) !! postsKey ownerA url = None
  ∧ next.1.2 = mkResponse 500 (JMessage "Server error")
  ∧ next.2 = [].
Proof. vm_compute. repeat split. Qed.

(** The claim as worded fails when the owner creates a post in between: the
    Create clears the owner's entries, so the identical List that follows
    within the window is computed from the store and answers with the
    posts. *)
Lemma error_replay_as_stated_fails_after_create :
  ¬ errorReplayAsStated sampleLibraries emptyState ownerA listUrl noQuery (envDown 100)
      [(CreatePost ownerA noteBody, envAt 200 postId1)] (envAt 300 postId2).
Proof.
  intros H. unfold errorReplayAsStated in H.
  specialize (H eq_refl eq_refl eq_refl). vm_compute in H. discriminate H.
Qed.

(** C9 (a failed List is cached), amended.  On a miss the middleware stores
    the payload the route sends, whatever its status.  So when the store
    query of a list request fails, the response is 500 with the generic
    error body, that body is stored under the request's key, and, as long as
    nothing disturbs the entry (no successful mutation by the owner in
    between), the same request arriving less than 60000 ms after the write
    is answered from the cache: status 200, the error body, no store
    operation, whether or not the store would answer by then. *)
Theorem failed_list_is_served_from_cache
    (lib : Libraries)
    (s : State) (uid url : string) (rq : ListQuery) (e1 : Env) :
  isObjectId uid = true →
  listHit uid url e1 s = false →
  storeUp e1 = false →
  let first := handle lib s (GetPosts uid url rq) e1 in
  first.1.2 = mkResponse 500 (JMessage "Server error")
  ∧ cache_posts (cache first.1.1) !! postsKey uid url
    = Some (mkEntry (JMessage "Server error") (nowWrite e1))
  ∧ ∀ trace e2,
      undisturbed lib uid url first.1.1 trace = true →
      nowCheck e2 - nowWrite e1 < listDuration →
      handle lib (run lib first.1.1 trace) (GetPosts uid url rq) e2
      = (run lib first.1.1 trace, mkResponse 200 (JMessage "Server error"), []).
Proof.
  intros Huid Hmiss Hdown. simpl.
  assert (Hroute : (listPosts lib uid rq e1 s).1 = serverError).
  { unfold listPosts. destruct (find lib (buildQuery uid rq) (db s)); [|done].
    by rewrite Hdown. }
  rewrite getPosts_miss by done. simpl. rewrite Hroute. simpl.
  split; [done|]. split; [by rewrite lookup_insert_eq|].
  intros trace e2 Hquiet Hlt.
  apply (getPosts_hit lib uid url rq e2 _ (mkEntry (JMessage "Server error") (nowWrite e1)));
    [|done].
  rewrite run_undisturbed by done. simpl. by rewrite lookup_insert_eq.
Qed.

(** The middleware stores what the route sends, whatever its status. *)
Lemma list_miss_stores_any_payload
    (lib : Libraries)
    (s : State) (uid url : string) (rq : ListQuery) (e : Env) :
  listHit uid url e s = false →
  cache_posts (cache (handle lib s (GetPosts uid url rq) e).1.1) !! postsKey uid url
  = Some (mkEntry (body (handle lib s (GetPosts uid url rq) e).1.2) (nowWrite e)).
Proof.
  intros Hmiss. simpl. rewrite getPosts_miss by done. simpl. by rewrite lookup_insert_eq.
Qed.

(** ** The list filter *)

(** The filter the route builds agrees with the specification's filter as
    soon as the engine reads the search string literally and the category
    and the tag come without white space around them (the cast of the
    filter trims them). *)
Lemma matchesFilter_specKeeps (uid : string) (rq : ListQuery) (p : Post)
    (orTest : option (string → bool)) :
  match q_search rq with
  | Some (String _ _ as q) => ∃ test, orTest = Some test ∧ ∀ x, test x = includesIgnoreCase q x
  | _ => orTest = None
  end →
  (∀ c, q_category rq = Some c → trim c = c) →
  (∀ t, q_tag rq = Some t → trim t = t) →
  matchesFilter (buildQuery uid rq) orTest p = specKeeps uid rq p.
Proof.
  intros Hor Hcat Htag. unfold matchesFilter, specKeeps, buildQuery.
  destruct rq as [qc qt qs]. cbn [q_category q_tag q_search] in *.
  cbn [f_user f_category f_tags_in f_or_regex].
  f_equal; [f_equal; [f_equal|]|].
  - destruct qc as [[|ch t]|]; cbn [truthy andb negb]; try done.
    destruct (decide (String ch t = "All")) as [E|E].
    + rewrite (bool_decide_eq_true_2 (Some (String ch t) = Some "All")) by congruence.
      by rewrite (bool_decide_eq_true_2 (String ch t = "All")).
    + rewrite (bool_decide_eq_false_2 (Some (String ch t) = Some "All")) by congruence.
      rewrite (bool_decide_eq_false_2 (String ch t = "All")) by done.
      cbn [negb]. by rewrite (Hcat (String ch t) eq_refl).
  - destruct qt as [[|ch t]|]; cbn [truthy]; try done.
    by rewrite (Htag (String ch t) eq_refl).
  - destruct qs as [[|ch t]|]; cbn [truthy]; try by subst.
    destruct Hor as (test & -> & Htest). rewrite !Htest. f_equal.
    induction (tags p) as [|x l IH]; [done|]. simpl. by rewrite Htest, IH.
Qed.

(** With such an engine, such a category and tag, and a store that answers,
    the list route returns exactly the posts the specification's filter
    keeps, newest first. *)
Lemma listPosts_literal (lib : Libraries)
    (uid : string) (rq : ListQuery) (e : Env) (s : State) :
  (∀ q, q_search rq = Some q → q ≠ EmptyString →
        ∃ test, regexTest lib q = Some test ∧ ∀ x, test x = includesIgnoreCase q x) →
  (∀ c, q_category rq = Some c → trim c = c) →
  (∀ t, q_tag rq = Some t → trim t = t) →
  storeUp e = true →
  listPosts lib uid rq e s
  = (mkResponse 200
       (JPosts (map selectMinusV
                  (sortByCreatedDesc (filter (λ p, specKeeps uid rq p = true) (db s))))),
     [OpFind]).
Proof.
  intros Hengine Hcat Htag Hup. unfold listPosts, find. rewrite Hup.
  assert (Hfilter : ∀ orTest,
    match q_search rq with
    | Some (String _ _ as q) => ∃ test, orTest = Some test ∧ ∀ x, test x = includesIgnoreCase q x
    | _ => orTest = None
    end →
    filter (λ p, matchesFilter (buildQuery uid rq) orTest p = true) (db s)
    = filter (λ p, specKeeps uid rq p = true) (db s)).
  { intros orTest Hor. apply list_filter_iff. intros p.
    by rewrite (matchesFilter_specKeeps uid rq p orTest Hor Hcat Htag). }
  unfold buildQuery at 1 3. simpl.
  destruct (q_search rq) as [[|ch t]|] eqn:Hq; simpl.
  - by rewrite Hfilter.
  - destruct (Hengine (String ch t) eq_refl) as (test & Ht & Htest); [done|].
    rewrite Ht. rewrite Hfilter; [done|]. by exists test.
  - by rewrite Hfilter.
Qed.

(** The category value "All" filters nothing: the request is answered like
    the one without a category. *)
Lemma listPosts_category_All (lib : Libraries)
    (uid : string) (tag search : option string) (e : Env) (s : State) :
  listPosts lib uid (mkListQuery (Some "All") tag search) e s
  = listPosts lib uid (mkListQuery None tag search) e s.
Proof. reflexivity. Qed.

(** [fragmentRegex] reads a string without metacharacters literally. *)
Lemma matchHere_literal (q x : string) (atoms : list Atom) :
  parseAtoms 0 q = Some atoms → noMetaChar q = true →
  matchHere atoms x = startsWith (toLowerCase q) (toLowerCase x).
Proof.
  revert x atoms. induction q as [|c q IH]; intros x atoms; simpl.
  - by intros [= <-].
  - intros Hparse [Hc Hq]%andb_true_iff. apply negb_true_iff in Hc.
    destruct (decide (c = "\"%char)) as [->|_]; [done|].
    destruct (decide (c = "("%char)) as [->|_]; [done|].
    destruct (decide (c = ")"%char)) as [->|_]; [done|].
    destruct (decide (c = "."%char)) as [->|_]; [done|].
    rewrite Hc in Hparse.
    destruct (parseAtoms 0 q) as [rest|] eqn:Hrest; [|done].
    injection Hparse as <-. destruct x as [|d x]; [done|]. simpl.
    rewrite (IH x rest) by done.
    destruct (decide (toLowerChar c = toLowerChar d)) as [E|E].
    + by rewrite bool_decide_eq_true_2.
    + by rewrite bool_decide_eq_false_2.
Qed.

Lemma parseAtoms_literal (q : string) :
  noMetaChar q = true → ∃ atoms, parseAtoms 0 q = Some atoms.
Proof.
  induction q as [|c q IH]; simpl; [eauto|].
  intros [Hc Hq]%andb_true_iff. apply negb_true_iff in Hc.
  destruct (decide (c = "\"%char)) as [->|_]; [done|].
  destruct (decide (c = "("%char)) as [->|_]; [done|].
  destruct (decide (c = ")"%char)) as [->|_]; [done|].
  destruct (decide (c = "."%char)) as [->|_]; [done|].
  rewrite Hc. destruct (IH Hq) as [atoms ->]. simpl. eauto.
Qed.

Lemma fragmentRegex_literal (q : string) :
  noMetaChar q = true →
  ∃ test, fragmentRegex q = Some test ∧ ∀ x, test x = includesIgnoreCase q x.
Proof.
  intros Hq. destruct (parseAtoms_literal q Hq) as [atoms Hatoms].
  exists (matchAnywhere atoms). unfold fragmentRegex. rewrite Hatoms. split; [done|].
  intros x. unfold includesIgnoreCase.
  induction x as [|d x IH]; simpl.
  - by rewrite (matchHere_literal q EmptyString atoms).
  - rewrite IH. f_equal. by rewrite (matchHere_literal q (String d x) atoms).
Qed.

(** C2 (list filter semantics): the code at the failing input.  A search for
    "." returns the caller's post "Note", although "." is a substring
    neither of its title, nor of its content, nor of its tag, so that the
    specification's filter drops it; and a search for "(" is answered 500
    before the store is asked.  The route hands the search string to the
    engine as a pattern instead of matching it as text. *)
Theorem list_search_reads_query_as_pattern :
  let s := mkState [notePost] emptyCache in
  listPosts sampleLibraries ownerA (mkListQuery None None (Some ".")) (envAt 9 postId2) s
  = (mkResponse 200 (JPosts [selectMinusV notePost]), [OpFind])
  ∧ specKeeps ownerA (mkListQuery None None (Some ".")) notePost = false
  ∧ listPosts sampleLibraries ownerA (mkListQuery None None (Some "(")) (envAt 9 postId2) s
    = (mkResponse 500 (JMessage "Server error"), []).
Proof. vm_compute. repeat split. Qed.

(** ** Further properties of the routes *)

(** The list route answers newest first. *)
Lemma listPosts_sorted (lib : Libraries) (uid : string) (rq : ListQuery) (e : Env) (s : State) :
  Sorted (λ a b, createdAt b ≤ createdAt a) (payloadPosts (body (listPosts lib uid rq e s).1)).
Proof.
  assert (Hmap : ∀ docs, Sorted (λ a b, createdAt b ≤ createdAt a) docs →
                         Sorted (λ a b, createdAt b ≤ createdAt a) (map selectMinusV docs)).
  { intros docs Hs. induction Hs as [|p docs Hs IH Hhd]; simpl; [constructor|].
    constructor; [done|]. destruct Hhd; simpl; by constructor. }
  unfold listPosts, find.
  destruct (f_or_regex (buildQuery uid rq)) as [pattern|];
    [destruct (regexTest lib pattern) as [test|]; [|constructor]|];
    (destruct (storeUp e); [|constructor]); simpl;
    apply Hmap, sortByCreatedDesc_sorted.
Qed.

(** Without any filter the list route answers with all posts of the
    caller. *)
Lemma listPosts_unfiltered (lib : Libraries) (uid : string) (e : Env) (s : State) (j : Post) :
  storeUp e = true →
  j ∈ payloadPosts (body (listPosts lib uid noQuery e s).1)
  ↔ ∃ p, p ∈ db s ∧ user p = uid ∧ j = selectMinusV p.
Proof.
  intros Hup. unfold listPosts.
  destruct (find lib (buildQuery uid noQuery) (db s)) as [found|] eqn:Hfind; [|done].
  rewrite Hup. simpl. rewrite (find_elem lib _ _ _ j Hfind). simpl.
  assert (Hm : ∀ p, matchesFilter (buildQuery uid noQuery) None p = true ↔ user p = uid).
  { intros p. unfold matchesFilter. simpl. by rewrite !andb_true_r, bool_decide_eq_true. }
  split; intros (p & Hp & H1 & H2); exists p.
  - apply Hm in H2. tauto.
  - apply Hm in H1. tauto.
Qed.

(** An entry as old as the window, or older, is not served. *)
Lemma listHit_expired (uid url : string) (e : Env) (s : State) (entry : CacheEntry) :
  cache_posts (cache s) !! postsKey uid url = Some entry →
  listDuration ≤ nowCheck e - timestamp entry →
  listHit uid url e s = false.
Proof. unfold listHit. intros -> H. by apply Z.ltb_ge. Qed.

(** With unique ids, a post of another owner is as invisible to Get as a
    post that does not exist: both are answered 404. *)
Lemma get_foreign_post_not_found (lib : Libraries) (s : State) (uid id : string)
    (e : Env) (p : Post) :
  NoDup (map _id (db s)) →
  p ∈ db s → user p ≠ uid → castObjectId lib id = Some (_id p) →
  storeUp e = true →
  handle lib s (GetPost uid id) e = (s, notFound, [OpFindOne]).
Proof.
  intros Hnd Hp Hu Hcast Hup. simpl. unfold getPostById. rewrite Hcast, Hup. simpl.
  destruct (findOne (_id p) uid (db s)) as [q|] eqn:Hq; [|done].
  apply findOne_Some in Hq as (Hq & Hid & Hown). exfalso. apply Hu.
  replace p with q; [done|].
  apply list_elem_of_lookup in Hp as [i Hi]. apply list_elem_of_lookup in Hq as [k Hk].
  assert (i = k) as ->; [|congruence].
  apply (NoDup_lookup (map _id (db s)) i k (_id p)); [done|..];
    rewrite list_lookup_fmap; [by rewrite Hi|by rewrite Hk, <- Hid].
Qed.

(** After a successful Delete, Get on the same id answers 404. *)
Lemma delete_then_get_not_found (lib : Libraries) (s s' : State) (uid uid' id : string)
    (e e' : Env) (payload : Payload) (ops : list StoreOp) :
  NoDup (map _id (db s)) →
  handle lib s (DeletePost uid id) e = (s', mkResponse 200 payload, ops) →
  storeUp e' = true →
  handle lib s' (GetPost uid' id) e' = (s', notFound, [OpFindOne]).
Proof.
  intros Hnd H Hup. unfold handle in *.
  apply deletePost_200 in H as (docs & d & oid & Hcast & _ & Hd & ->).
  apply findOneAndDelete_Some in Hd as (l1 & l2 & Hdb & -> & _ & [Hid _]%matchesIdUser_true).
  unfold getPostById. rewrite Hcast, Hup. simpl.
  destruct (findOne oid uid' (l1 ++ l2)) as [q|] eqn:Hq; [|done].
  apply findOne_Some in Hq as (Hq & Hqid & _). exfalso.
  rewrite Hdb, map_app in Hnd. simpl in Hnd.
  apply NoDup_app in Hnd as (_ & Hl1 & [Hl2 _]%NoDup_cons).
  apply elem_of_app in Hq as [Hq|Hq].
  - apply (Hl1 (_id q)); [by apply list_elem_of_fmap_2|].
    replace (_id q) with (_id d) by congruence. left.
  - apply Hl2. replace (_id d) with (_id q) by congruence. by apply list_elem_of_fmap_2.
Qed.

(** A search for "hello" finds the post whose content is "Hello World". *)
Example search_ignores_case :
  let post := mkPost postId1 "Greeting" "Hello World" "General" [] ownerA 1 1 (Some 0) in
  (listPosts sampleLibraries ownerA (mkListQuery None None (Some "hello"))
     (envAt 2 postId2) (mkState [post] emptyCache)).1
  = mkResponse 200 (JPosts [selectMinusV post]).
Proof. vm_compute. reflexivity. Qed.

(** The cast of the filter trims the category and the tag: a request for
    the category " Work " and the tag "a " is answered with the post filed
    under "Work" with the tag "a". *)
Example list_trims_category_and_tag :
  (listPosts sampleLibraries ownerA (mkListQuery (Some " Work ") (Some "a ") None)
     (envAt 20 postId2) workState).1
  = mkResponse 200 (JPosts [selectMinusV workPost]).
Proof. vm_compute. reflexivity. Qed.

(** ** More on the routes: failures, freshness, non-interference *)

Lemma postsKey_inj (a b x y : string) :
  isObjectId a = true → isObjectId b = true →
  postsKey a x = postsKey b y → a = b ∧ x = y.
Proof.
  intros Ha Hb Hk.
  assert (a = b) as ->.
  { apply (postsKey_owner a b y Ha Hb). rewrite <- Hk. apply postsKey_own. }
  split; [done|]. unfold postsKey in Hk.
  by apply string_app_inj_l, string_app_inj_l in Hk.
Qed.

Lemma clearCache_categories_own (uid : string) (c : Cache) :
  cache_categories (clearCache (Some uid) c) !! categoriesKey uid = None.
Proof.
  destruct uid as [|ch t]; [simpl; by rewrite lookup_empty|]. simpl.
  apply map_lookup_filter_None. right. intros x _. simpl. tauto.
Qed.

Lemma clearCache_tags_own (uid : string) (c : Cache) :
  cache_tags (clearCache (Some uid) c) !! tagsKey uid = None.
Proof.
  destruct uid as [|ch t]; [simpl; by rewrite lookup_empty|]. simpl.
  apply map_lookup_filter_None. right. intros x _. simpl. tauto.
Qed.

Lemma clearCache_categories_subset (userId : option string) (c : Cache) key x :
  cache_categories (clearCache userId c) !! key = Some x → cache_categories c !! key = Some x.
Proof.
  destruct userId as [[|ch t]|]; simpl; try by rewrite lookup_empty.
  rewrite map_lookup_filter_Some. tauto.
Qed.

Lemma clearCache_tags_subset (userId : option string) (c : Cache) key x :
  cache_tags (clearCache userId c) !! key = Some x → cache_tags c !! key = Some x.
Proof.
  destruct userId as [[|ch t]|]; simpl; try by rewrite lookup_empty.
  rewrite map_lookup_filter_Some. tauto.
Qed.

(** The state a successful mutation leaves: the collection has made its
    step and the caller's entries are cleared. *)
Lemma successful_mutation_state (lib : Libraries) (s : State) (r : Request) (e : Env) :
  successful r (handle lib s r e).1.2 = true →
  cache (handle lib s r e).1.1 = clearCache (Some (caller r)) (cache s).
Proof.
  destruct r as [| | | |uid b|uid id b|uid id]; try done; simpl.
  - destruct (createPost uid b e s) as [[s' [st payload]] ops] eqn:H. simpl.
    intros ->%bool_decide_eq_true.
    by apply createPost_201 in H as (? & ? & ? & ? & ? & _ & _ & _ & _ & _ & -> & _).
  - destruct (updatePost lib uid id b e s) as [[s' [st payload]] ops] eqn:H. simpl.
    intros ->%bool_decide_eq_true.
    by apply updatePost_200 in H
      as (? & ? & ? & ? & ? & ? & ? & ? & _ & _ & _ & _ & _ & _ & -> & _).
  - destruct (deletePost lib uid id e s) as [[s' [st payload]] ops] eqn:H. simpl.
    intros ->%bool_decide_eq_true.
    by apply deletePost_200 in H as (? & ? & ? & _ & _ & _ & ->).
Qed.

(** A request that is not a successful mutation leaves the collection as
    it was. *)
Lemma unsuccessful_db (lib : Libraries) (s : State) (r : Request) (e : Env) :
  successful r (handle lib s r e).1.2 = false → db (handle lib s r e).1.1 = db s.
Proof.
  intros Hf. destruct r as [uid url rq|uid|uid|uid id|uid b|uid id b|uid id].
  - simpl. unfold getPosts. apply cacheMiddleware_db.
  - apply getCategories_db.
  - apply getTags_db.
  - simpl. by rewrite getPostById_state.
  - by rewrite (unsuccessful_mutation_state lib s (CreatePost uid b) e I Hf).
  - by rewrite (unsuccessful_mutation_state lib s (UpdatePost uid id b) e I Hf).
  - by rewrite (unsuccessful_mutation_state lib s (DeletePost uid id) e I Hf).
Qed.

(** X1.  A request changes the collection only when it is a Create, Update
    or Delete that succeeds: every read, and every mutation answered with an
    error (validation, malformed id, not found, store failure), leaves the
    collection as it was, and a failed mutation leaves the cache as it was
    too. *)
Theorem only_successful_mutations_change_the_collection
    (lib : Libraries) (s : State) (r : Request) (e : Env) :
  (db (handle lib s r e).1.1 ≠ db s →
   isMutation r = true ∧ successful r (handle lib s r e).1.2 = true)
  ∧ (isMutation r = true → successful r (handle lib s r e).1.2 = false →
     (handle lib s r e).1.1 = s).
Proof.
  split.
  - intros Hne. destruct (successful r (handle lib s r e).1.2) eqn:Hs.
    + split; [|done]. by destruct r.
    + exfalso. apply Hne. by apply unsuccessful_db.
  - intros Hm Hs. apply unsuccessful_mutation_state; [|done]. by destruct r.
Qed.

(** The fields both mutating routes store are trimmed, and the category is
    never empty. *)
Lemma postFields_withinSchema (b : Body) (t c cat : string) (tgs : list string)
    (id u : string) (ca ua : Z) (v : option Z) :
  postFields (validationResult b).1 = (t, c, cat, tgs) →
  schemaValid t c cat tgs = true →
  withinSchema (mkPost id t c cat tgs u ca ua v).
Proof.
  rewrite postFields_sanitised. intros [= <- <- <- <-] Hvalid.
  split; [done|]. simpl. split; [|split; [|split; [|split]]].
  - by destruct (b_category b) as [cat|]; simpl; [destruct (trim cat)|].
  - apply trim_idem.
  - apply trim_idem.
  - destruct (b_category b) as [cat|]; simpl; [|reflexivity].
    destruct (trim cat) as [|ch rest] eqn:E; [reflexivity|].
    simpl orDefault. rewrite <- E. apply trim_idem.
  - clear Hvalid. induction (tagsOrEmpty (b_tags b)) as [|x l IH]; simpl;
      [constructor|constructor; [apply trim_idem|done]].
Qed.

Lemma handle_withinSchema (lib : Libraries) (s : State) (r : Request) (e : Env) :
  Forall withinSchema (db s) → Forall withinSchema (db (handle lib s r e).1.1).
Proof.
  intros Hwf. destruct (successful r (handle lib s r e).1.2) eqn:Hs;
    [|by rewrite unsuccessful_db].
  destruct r as [| | | |uid b|uid id b|uid id]; try done; simpl in *.
  - destruct (createPost uid b e s) as [[s' [st payload]] ops] eqn:H. simpl in *.
    apply bool_decide_eq_true in Hs as ->.
    apply createPost_201 in H as (b' & t & c & cat & tgs & Hv & Hf & Hvalid & _ & _ & -> & _).
    simpl. apply Forall_app. split; [done|]. constructor; [|constructor].
    apply (postFields_withinSchema b); [by rewrite Hv|done].
  - destruct (updatePost lib uid id b e s) as [[s' [st payload]] ops] eqn:H. simpl in *.
    apply bool_decide_eq_true in Hs as ->.
    apply updatePost_200 in H
      as (b' & t & c & cat & tgs & docs & post & oid & Hv & Hf & _ & Hvalid & _ & Hu & -> & _).
    apply findOneAndUpdate_Some in Hu as (l1 & p & l2 & Hdb & -> & _ & _ & ->).
    simpl. rewrite Hdb in Hwf. apply Forall_app in Hwf as [H1 [_ H2]%Forall_cons].
    apply Forall_app. split; [done|]. constructor; [|done].
    apply (postFields_withinSchema b); [by rewrite Hv|done].
  - destruct (deletePost lib uid id e s) as [[s' [st payload]] ops] eqn:H. simpl in *.
    apply bool_decide_eq_true in Hs as ->.
    apply deletePost_200 in H as (docs & d & oid & _ & _ & Hd & ->).
    apply findOneAndDelete_Some in Hd as (l1 & l2 & Hdb & -> & _ & _).
    simpl. rewrite Hdb in Hwf. apply Forall_app in Hwf as [H1 [_ H2]%Forall_cons].
    apply Forall_app. by split.
Qed.

(** X2.  The routes never store a post outside the limits of the schema:
    if every post of the collection has a trimmed title of 1 to 100
    characters, a trimmed content of 1 to 10000, a trimmed non-empty
    category of at most 50 and trimmed tags of at most 30 each, then so has
    every post after any sequence of requests. *)
Theorem stored_posts_stay_within_schema
    (lib : Libraries) (s : State) (trace : list (Request * Env)) :
  Forall withinSchema (db s) → Forall withinSchema (db (run lib s trace)).
Proof.
  revert s. induction trace as [|[r e] trace IH]; intros s Hwf; [done|].
  simpl. apply IH. by apply handle_withinSchema.
Qed.

(** ** Where the entries of the cache come from *)

(** An entry of the list cache was there before the request, or it is the
    payload the list route has just sent under that key. *)
Lemma handle_posts_entry (lib : Libraries) (s : State) (r : Request) (e : Env)
    (key : string) (entry : CacheEntry) :
  cache_posts (cache (handle lib s r e).1.1) !! key = Some entry →
  cache_posts (cache s) !! key = Some entry
  ∨ ∃ uid url rq, r = GetPosts uid url rq ∧ key = postsKey uid url
      ∧ entry = mkEntry (body (listPosts lib uid rq e s).1) (nowWrite e).
Proof.
  destruct (successful r (handle lib s r e).1.2) eqn:Hs.
  { rewrite successful_mutation_state by done.
    intros H%clearCache_posts_subset. by left. }
  destruct r as [uid url rq|uid|uid|uid id|uid b|uid id b|uid id].
  - simpl. unfold getPosts, cacheMiddleware.
    destruct (cache_posts (cache s) !! postsKey uid url) as [cached|] eqn:Hc;
      [destruct (_ <? _); [by left|]|];
      destruct (listPosts lib uid rq e s) as [resp ops] eqn:Hl; simpl;
      (destruct (decide (postsKey uid url = key)) as [<-|Hne];
       [rewrite lookup_insert_eq; intros H; injection H as <-; right;
        exists uid, url, rq; by rewrite Hl
       |rewrite lookup_insert_ne by done; by left]).
  - simpl. unfold getCategories.
    destruct (cache_categories (cache s) !! categoriesKey uid) as [cached|];
      [destruct (_ <? _); [by left|]|]; destruct (storeUp e); by left.
  - simpl. unfold getTags.
    destruct (cache_tags (cache s) !! tagsKey uid) as [cached|];
      [destruct (_ <? _); [by left|]|]; destruct (storeUp e); by left.
  - simpl. rewrite getPostById_state. by left.
  - rewrite (unsuccessful_mutation_state lib s (CreatePost uid b) e I Hs). by left.
  - rewrite (unsuccessful_mutation_state lib s (UpdatePost uid id b) e I Hs). by left.
  - rewrite (unsuccessful_mutation_state lib s (DeletePost uid id) e I Hs). by left.
Qed.

(** The same for the two aggregate caches. *)
Lemma handle_categories_entry (lib : Libraries) (s : State) (r : Request) (e : Env)
    (key : string) (entry : CacheEntry) :
  cache_categories (cache (handle lib s r e).1.1) !! key = Some entry →
  cache_categories (cache s) !! key = Some entry
  ∨ ∃ uid, r = GetCategories uid ∧ key = categoriesKey uid
      ∧ entry = mkEntry (JStrings (distinctCategories uid (db s))) (nowWrite e).
Proof.
  destruct (successful r (handle lib s r e).1.2) eqn:Hs.
  { rewrite successful_mutation_state by done.
    intros H%clearCache_categories_subset. by left. }
  destruct r as [uid url rq|uid|uid|uid id|uid b|uid id b|uid id].
  - simpl. unfold getPosts, cacheMiddleware.
    destruct (cache_posts (cache s) !! postsKey uid url) as [cached|];
      [destruct (_ <? _); [by left|]|]; destruct (listPosts lib uid rq e s); by left.
  - simpl. unfold getCategories.
    destruct (cache_categories (cache s) !! categoriesKey uid) as [cached|];
      [destruct (_ <? _); [by left|]|]; (destruct (storeUp e); [|by left]); simpl;
      (destruct (decide (categoriesKey uid = key)) as [<-|Hne];
       [rewrite lookup_insert_eq; intros H; injection H as <-; right; by exists uid
       |rewrite lookup_insert_ne by done; by left]).
  - simpl. unfold getTags.
    destruct (cache_tags (cache s) !! tagsKey uid) as [cached|];
      [destruct (_ <? _); [by left|]|]; destruct (storeUp e); by left.
  - simpl. rewrite getPostById_state. by left.
  - rewrite (unsuccessful_mutation_state lib s (CreatePost uid b) e I Hs). by left.
  - rewrite (unsuccessful_mutation_state lib s (UpdatePost uid id b) e I Hs). by left.
  - rewrite (unsuccessful_mutation_state lib s (DeletePost uid id) e I Hs). by left.
Qed.

Lemma handle_tags_entry (lib : Libraries) (s : State) (r : Request) (e : Env)
    (key : string) (entry : CacheEntry) :
  cache_tags (cache (handle lib s r e).1.1) !! key = Some entry →
  cache_tags (cache s) !! key = Some entry
  ∨ ∃ uid, r = GetTags uid ∧ key = tagsKey uid
      ∧ entry = mkEntry (JStrings (distinctTags uid (db s))) (nowWrite e).
Proof.
  destruct (successful r (handle lib s r e).1.2) eqn:Hs.
  { rewrite successful_mutation_state by done.
    intros H%clearCache_tags_subset. by left. }
  destruct r as [uid url rq|uid|uid|uid id|uid b|uid id b|uid id].
  - simpl. unfold getPosts, cacheMiddleware.
    destruct (cache_posts (cache s) !! postsKey uid url) as [cached|];
      [destruct (_ <? _); [by left|]|]; destruct (listPosts lib uid rq e s); by left.
  - simpl. unfold getCategories.
    destruct (cache_categories (cache s) !! categoriesKey uid) as [cached|];
      [destruct (_ <? _); [by left|]|]; destruct (storeUp e); by left.
  - simpl. unfold getTags.
    destruct (cache_tags (cache s) !! tagsKey uid) as [cached|];
      [destruct (_ <? _); [by left|]|]; (destruct (storeUp e); [|by left]); simpl;
      (destruct (decide (tagsKey uid = key)) as [<-|Hne];
       [rewrite lookup_insert_eq; intros H; injection H as <-; right; by exists uid
       |rewrite lookup_insert_ne by done; by left]).
  - simpl. rewrite getPostById_state. by left.
  - rewrite (unsuccessful_mutation_state lib s (CreatePost uid b) e I Hs). by left.
  - rewrite (unsuccessful_mutation_state lib s (UpdatePost uid id b) e I Hs). by left.
  - rewrite (unsuccessful_mutation_state lib s (DeletePost uid id) e I Hs). by left.
Qed.

(** The list route sends documents of the collection. *)
Lemma listPosts_from_db (lib : Libraries) (uid : string) (rq : ListQuery) (e : Env)
    (s : State) (j : Post) :
  j ∈ payloadPosts (body (listPosts lib uid rq e s).1) →
  ∃ p, p ∈ db s ∧ j = selectMinusV p.
Proof.
  unfold listPosts.
  destruct (find lib (buildQuery uid rq) (db s)) as [found|] eqn:Hfind; simpl.
  - destruct (storeUp e); simpl; [|by intros ?%elem_of_nil].
    intros Hj. apply (find_elem lib _ _ _ j Hfind) in Hj as (p & Hp & -> & _). eauto.
  - by intros ?%elem_of_nil.
Qed.

(** What a list request answers: the payload of a live entry, or what the
    route sends. *)
Lemma getPosts_body (lib : Libraries) (uid url : string) (rq : ListQuery) (e : Env)
    (s : State) :
  (∃ entry, cache_posts (cache s) !! postsKey uid url = Some entry
            ∧ body (getPosts lib uid url rq e s).1.2 = data entry)
  ∨ body (getPosts lib uid url rq e s).1.2 = body (listPosts lib uid rq e s).1.
Proof.
  unfold getPosts, cacheMiddleware.
  destruct (cache_posts (cache s) !! postsKey uid url) as [cached|];
    [destruct (_ <? _); [left; by exists cached|]|];
    destruct (listPosts lib uid rq e s); by right.
Qed.

Lemma handle_forgotten (lib : Libraries) (uid oid : string) (s : State)
    (r : Request) (e : Env) :
  neverIssues oid [(r, e)] = true →
  forgotten uid oid s → forgotten uid oid (handle lib s r e).1.1.
Proof.
  simpl. rewrite andb_true_r. intros Hnew [Hdb Hcache]. split.
  - pose proof (handle_dbStep lib s r e) as Hstep. revert Hdb.
    destruct Hstep as [docs|docs post b -> Hid _|l1 p p' l2 id b _ Hid _ _|l1 d l2 id _];
      intros Hdb q; [by apply Hdb|..].
    + intros [Hq| ->%list_elem_of_singleton]%elem_of_app; [by apply Hdb|].
      rewrite Hid. simpl in Hnew. apply negb_true_iff, bool_decide_eq_false in Hnew. done.
    + intros [Hq|[->|Hq]%elem_of_cons]%elem_of_app.
      * apply Hdb, elem_of_app. by left.
      * rewrite Hid. apply Hdb, elem_of_app. right. left.
      * apply Hdb, elem_of_app. right. by right.
    + intros [Hq|Hq]%elem_of_app; apply Hdb, elem_of_app; [by left|right; by right].
  - intros url entry [Hold|(uid' & url' & rq & -> & Hkey & ->)]%handle_posts_entry;
      [by eapply Hcache|].
    simpl. intros j (p & Hp & ->)%listPosts_from_db. simpl. by apply Hdb.
Qed.

Lemma run_forgotten (lib : Libraries) (uid oid : string) (trace : list (Request * Env))
    (s : State) :
  neverIssues oid trace = true →
  forgotten uid oid s → forgotten uid oid (run lib s trace).
Proof.
  revert s. induction trace as [|[r e] trace IH]; intros s Hnew Hinv; [done|].
  simpl in Hnew. apply andb_true_iff in Hnew as [Hr Hnew]. simpl.
  apply IH; [done|]. apply handle_forgotten; [|done]. simpl. by rewrite andb_true_r.
Qed.

Lemma clearCache_posts_own_any (uid url : string) (c : Cache) :
  cache_posts (clearCache (Some uid) c) !! postsKey uid url = None.
Proof.
  destruct uid as [|ch t]; [simpl; by rewrite lookup_empty|].
  unfold clearCache. cbn [cache_posts].
  apply map_lookup_filter_None. right. intros x _. cbn [fst].
  by rewrite (postsKey_own (String ch t) url).
Qed.

(** X3.  A deleted post stays gone.  After a successful Delete (ids in the
    collection being unique), and whatever requests follow as long as the
    store does not issue the same ObjectId again: no post of the collection
    has that id, every List of the owner under any url and query, cached or
    not, answers without it, and Get on the id is answered 404 for every
    caller. *)
Theorem deleted_post_stays_gone
    (lib : Libraries) (s s' : State) (uid id oid : string) (e : Env)
    (payload : Payload) (ops : list StoreOp) (trace : list (Request * Env)) :
  NoDup (map _id (db s)) →
  handle lib s (DeletePost uid id) e = (s', mkResponse 200 payload, ops) →
  castObjectId lib id = Some oid →
  neverIssues oid trace = true →
  (∀ p, p ∈ db (run lib s' trace) → _id p ≠ oid)
  ∧ (∀ url rq e' j,
       j ∈ payloadPosts (body (handle lib (run lib s' trace) (GetPosts uid url rq) e').1.2) →
       _id j ≠ oid)
  ∧ (∀ uid' e', storeUp e' = true →
       handle lib (run lib s' trace) (GetPost uid' id) e'
       = (run lib s' trace, notFound, [OpFindOne])).
Proof.
  intros Hnd H Hcast Hnew.
  assert (Hinv : forgotten uid oid (run lib s' trace)).
  { apply run_forgotten; [done|]. simpl in H.
    apply deletePost_200 in H as (docs & d & oid' & Hcast' & _ & Hd & ->).
    assert (oid' = oid) as -> by congruence.
    apply findOneAndDelete_Some in Hd as (l1 & l2 & Hdb & -> & _ & [Hid _]%matchesIdUser_true).
    split; [|intros url entry Hk; cbn [cache] in Hk;
              by rewrite clearCache_posts_own_any in Hk].
    cbn [db]. rewrite Hdb, map_app in Hnd. simpl in Hnd.
    apply NoDup_app in Hnd as (_ & Hl1 & [Hl2 _]%NoDup_cons).
    intros q [Hq|Hq]%elem_of_app Hqid.
    - apply (Hl1 (_id q)); [by apply list_elem_of_fmap_2|]. rewrite Hqid, Hid. left.
    - apply Hl2. rewrite Hid, <- Hqid. by apply list_elem_of_fmap_2. }
  destruct Hinv as [Hdb Hcache]. split; [done|]. split.
  - intros url rq e' j. simpl.
    destruct (getPosts_body lib uid url rq e' (run lib s' trace))
      as [(entry & Hentry & ->)| ->]; [by eapply Hcache|].
    intros (p & Hp & ->)%listPosts_from_db. simpl. by apply Hdb.
  - intros uid' e' Hup. simpl. unfold getPostById. rewrite Hcast, Hup. simpl.
    destruct (findOne oid uid' (db (run lib s' trace))) as [q|] eqn:Hq; [|done].
    apply findOne_Some in Hq as (Hq & Hqid & _). by apply Hdb in Hq.
Qed.

(** ** Coherence of the cache *)

(** A filter that selects posts of [A] only sees the same posts before and
    after a mutation by another caller. *)
Lemma filter_owned_frame (P : Post → Prop) `{!∀ p, Decision (P p)} (A : string)
    (r : Request) (e : Env) (docs docs' : list Post) :
  (∀ p, P p → user p = A) →
  dbStep r e docs docs' → caller r ≠ A →
  filter P docs' = filter P docs.
Proof.
  intros HP Hstep Hne.
  assert (Hown : ∀ l : list Post, filter P l = filter P (filter (λ q, user q = A) l)).
  { intros l. rewrite list_filter_filter. apply list_filter_iff. intros p.
    split; [|tauto]. intros Hp. split; [done|by apply HP]. }
  rewrite (Hown docs'), (Hown docs). f_equal. by eapply dbStep_frame.
Qed.

Lemma find_frame (lib : Libraries) (query : Filter) (r : Request) (e : Env)
    (docs docs' : list Post) :
  dbStep r e docs docs' → caller r ≠ f_user query →
  find lib query docs' = find lib query docs.
Proof.
  intros Hstep Hne. unfold find.
  destruct (f_or_regex query) as [pattern|]; [destruct (regexTest lib pattern) as [test|]|];
    try done; do 3 f_equal;
    apply (filter_owned_frame _ (f_user query) r e); try done;
    intros p; apply matchesFilter_user.
Qed.

(** What the list route sends is up to date. *)
Lemma listPosts_fresh (lib : Libraries) (uid : string) (rq : ListQuery) (e : Env) (s : State) :
  freshList lib uid rq (db s) (body (listPosts lib uid rq e s).1).
Proof.
  unfold freshList, listPosts.
  destruct (find lib (buildQuery uid rq) (db s)) as [found|]; [|by left].
  destruct (storeUp e); [right; by exists found|by left].
Qed.

(** Whoever the caller is, a request that changes the collection is a
    successful mutation, and the entries of its caller are gone. *)
Lemma changed_db_clears (lib : Libraries) (s : State) (r : Request) (e : Env) :
  db (handle lib s r e).1.1 ≠ db s →
  cache (handle lib s r e).1.1 = clearCache (Some (caller r)) (cache s).
Proof.
  intros Hne. apply successful_mutation_state.
  destruct (successful r (handle lib s r e).1.2) eqn:Hs; [done|].
  exfalso. apply Hne. by apply unsuccessful_db.
Qed.

Lemma handle_cacheCoherent (lib : Libraries) (parseQuery : string → ListQuery)
    (s : State) (r : Request) (e : Env) :
  isObjectId (caller r) = true →
  urlsParsed parseQuery [(r, e)] = true →
  cacheCoherent lib parseQuery s → cacheCoherent lib parseQuery (handle lib s r e).1.1.
Proof.
  simpl. rewrite andb_true_r. intros Hoid Hurl (Hposts & Hcats & Htags).
  pose proof (handle_dbStep lib s r e) as Hstep.
  destruct (decide (db (handle lib s r e).1.1 = db s)) as [Hdb|Hdb].
  - unfold cacheCoherent. rewrite Hdb. split; [|split].
    + intros uid url entry Huid [Hold|(uid' & url' & rq & -> & Hkey & ->)]%handle_posts_entry;
        [by apply Hposts|].
      simpl in Hoid, Hurl. apply bool_decide_eq_true in Hurl as ->.
      apply postsKey_inj in Hkey as [-> ->]; [|done..]. apply listPosts_fresh.
    + intros uid entry [Hold|(uid' & -> & Hkey & ->)]%handle_categories_entry;
        [by apply Hcats|].
      by apply string_app_inj_l in Hkey as ->.
    + intros uid entry [Hold|(uid' & -> & Hkey & ->)]%handle_tags_entry;
        [by apply Htags|].
      by apply string_app_inj_l in Hkey as ->.
  - unfold cacheCoherent. rewrite (changed_db_clears lib s r e Hdb). split; [|split].
    + intros uid url entry Huid Hk.
      assert (caller r ≠ uid) as Hne.
      { intros <-. by rewrite clearCache_posts_own_any in Hk. }
      apply clearCache_posts_subset in Hk.
      destruct (Hposts uid url entry Huid Hk) as [Herr|(found & Hfind & Hdata)]; [by left|].
      right. exists found. split; [|done]. rewrite <- Hfind. by eapply find_frame.
    + intros uid entry Hk.
      assert (caller r ≠ uid) as Hne.
      { intros <-. by rewrite clearCache_categories_own in Hk. }
      apply clearCache_categories_subset in Hk. rewrite (Hcats uid entry Hk).
      unfold distinctCategories. by rewrite (dbStep_frame r e (db s) _ uid Hstep Hne).
    + intros uid entry Hk.
      assert (caller r ≠ uid) as Hne.
      { intros <-. by rewrite clearCache_tags_own in Hk. }
      apply clearCache_tags_subset in Hk. rewrite (Htags uid entry Hk).
      unfold distinctTags. by rewrite (dbStep_frame r e (db s) _ uid Hstep Hne).
Qed.

Lemma run_cacheCoherent (lib : Libraries) (parseQuery : string → ListQuery)
    (trace : list (Request * Env)) (s : State) :
  validCallers trace = true →
  urlsParsed parseQuery trace = true →
  cacheCoherent lib parseQuery s → cacheCoherent lib parseQuery (run lib s trace).
Proof.
  revert s. induction trace as [|[r e] trace IH]; intros s Hv Hu Hinv; [done|].
  simpl in Hv, Hu. apply andb_true_iff in Hv as [Hr Hv]. apply andb_true_iff in Hu as [Hq Hu].
  simpl. apply IH; [done..|]. apply handle_cacheCoherent; [done| |done].
  simpl. by rewrite andb_true_r.
Qed.

(** X4.  The cache never serves stale data to sequential requests.  Start
    with an empty cache and handle any requests one after the other, the
    callers being ObjectIds and each list request carrying the query of its
    url.  Then a List is answered, from the cache or not, with the generic
    error body or with exactly the posts the store query returns on the
    collection as it is now; a Categories or Tags request is answered with
    the distinct values of the collection as it is now, or with the empty
    list when its own store read fails. *)
Theorem cache_serves_current_data
    (lib : Libraries) (parseQuery : string → ListQuery)
    (s0 : State) (trace : list (Request * Env)) (r : Request) (e : Env) :
  cache s0 = emptyCache →
  validCallers (trace ++ [(r, e)]) = true →
  urlsParsed parseQuery (trace ++ [(r, e)]) = true →
  let s := run lib s0 trace in
  let answer := body (handle lib s r e).1.2 in
  match r with
  | GetPosts uid url rq => freshList lib uid rq (db s) answer
  | GetCategories uid =>
      answer = JStrings (distinctCategories uid (db s))
      ∨ (storeUp e = false ∧ answer = JStrings [])
  | GetTags uid =>
      answer = JStrings (distinctTags uid (db s))
      ∨ (storeUp e = false ∧ answer = JStrings [])
  | _ => True
  end.
Proof.
  intros Hempty Hv Hu. unfold validCallers, urlsParsed in Hv, Hu.
  rewrite forallb_app in Hv, Hu. simpl in Hv, Hu. rewrite !andb_true_r in Hv, Hu.
  apply andb_true_iff in Hv as [Hv Hr]. apply andb_true_iff in Hu as [Hu Hq].
  assert (Hinv : cacheCoherent lib parseQuery (run lib s0 trace)).
  { apply run_cacheCoherent; [done..|]. unfold cacheCoherent. rewrite Hempty. simpl.
    split; [|split]; intros *; rewrite lookup_empty; done. }
  destruct Hinv as (Hposts & Hcats & Htags). simpl.
  destruct r as [uid url rq|uid|uid|uid id|uid b|uid id b|uid id]; try done; simpl in *.
  - apply bool_decide_eq_true in Hq as ->.
    destruct (getPosts_body lib uid url (parseQuery url) e (run lib s0 trace))
      as [(entry & Hentry & ->)| ->]; [by apply Hposts|apply listPosts_fresh].
  - unfold getCategories.
    destruct (cache_categories (cache (run lib s0 trace)) !! categoriesKey uid)
      as [cached|] eqn:Hc; [destruct (_ <? _); [left; by apply Hcats|]|];
      destruct (storeUp e); simpl; auto.
  - unfold getTags.
    destruct (cache_tags (cache (run lib s0 trace)) !! tagsKey uid)
      as [cached|] eqn:Hc; [destruct (_ <? _); [left; by apply Htags|]|];
      destruct (storeUp e); simpl; auto.
Qed.

(** ** Reading one's own writes *)

(** X5.  A created post is visible to its owner at once.  After a
    successful Create, and with a store that answers, the owner's next
    unfiltered List (under any url) contains the created post, the next
    Categories request lists its category and the next Tags request lists
    each of its tags: none of the three is answered from an entry cached
    before the Create. *)
Theorem created_post_is_visible_to_its_owner
    (lib : Libraries) (s s' : State) (uid : string) (b : Body) (e e' : Env)
    (j : Post) (ops : list StoreOp) :
  handle lib s (CreatePost uid b) e = (s', mkResponse 201 (JPost j), ops) →
  storeUp e' = true →
  (∀ url, selectMinusV j
          ∈ payloadPosts (body (handle lib s' (GetPosts uid url noQuery) e').1.2))
  ∧ (∃ cats, (handle lib s' (GetCategories uid) e').1.2 = mkResponse 200 (JStrings cats)
             ∧ category j ∈ cats)
  ∧ (∃ tgs, (handle lib s' (GetTags uid) e').1.2 = mkResponse 200 (JStrings tgs)
            ∧ ∀ t, t ∈ tags j → t ∈ tgs).
Proof.
  intros H Hup. simpl in H.
  apply createPost_201 in H as (b' & t & c & cat & tgs & _ & _ & _ & _ & _ & -> & Hj & _).
  injection Hj as ->.
  set (post := mkPost (newId e) t c cat tgs uid (nowWrite e) (nowWrite e) (Some 0)).
  assert (Hin : post ∈ filter (λ p, user p = uid) (db s ++ [post])).
  { apply list_elem_of_filter. split; [done|]. apply elem_of_app. right. left. }
  split; [|split].
  - intros url. unfold handle. rewrite getPosts_miss.
    + cbn [fst snd]. apply listPosts_unfiltered; [done|]. exists post.
      split; [|done]. cbn [db]. apply elem_of_app. right. left.
    + unfold listHit. cbn [cache]. by rewrite clearCache_posts_own_any.
  - unfold handle, getCategories. cbn [cache]. rewrite clearCache_categories_own, Hup.
    eexists. split; [reflexivity|]. unfold distinctCategories.
    apply elem_of_remove_dups. cbn [db].
    by apply (list_elem_of_fmap_2 category _ post).
  - unfold handle, getTags. cbn [cache]. rewrite clearCache_tags_own, Hup.
    eexists. split; [reflexivity|]. intros x Hx. unfold distinctTags.
    apply elem_of_remove_dups. cbn [db].
    apply list_elem_of_In, in_concat. exists (tags post).
    split; [|by apply list_elem_of_In].
    apply list_elem_of_In. by apply (list_elem_of_fmap_2 tags _ post).
Qed.

(** ** The store calls look at the caller's posts only *)

Lemma ownedBy_cons (uid : string) (p : Post) (docs : list Post) :
  ownedBy uid (p :: docs) = if decide (user p = uid) then p :: ownedBy uid docs
                            else ownedBy uid docs.
Proof. unfold ownedBy. by rewrite filter_cons. Qed.

Lemma matchesIdUser_foreign (id uid : string) (p : Post) :
  user p ≠ uid → matchesIdUser id uid p = false.
Proof.
  intros Hne. unfold matchesIdUser. rewrite (bool_decide_eq_false_2 (user p = uid)) by done.
  apply andb_false_r.
Qed.

Lemma findOne_owned (id uid : string) (docs : list Post) :
  findOne id uid (ownedBy uid docs) = findOne id uid docs.
Proof.
  induction docs as [|p docs IH]; [done|]. rewrite ownedBy_cons. simpl.
  destruct (decide (user p = uid)) as [Hu|Hu]; simpl.
  - by rewrite IH.
  - by rewrite (matchesIdUser_foreign id uid p Hu).
Qed.

Lemma findOneAndUpdate_owned (id uid t c cat : string) (tgs : list string) (now : Z)
    (docs : list Post) :
  findOneAndUpdate id uid t c cat tgs now (ownedBy uid docs)
  = prod_map (ownedBy uid) (λ p, p) <$> findOneAndUpdate id uid t c cat tgs now docs.
Proof.
  induction docs as [|p docs IH]; [done|]. rewrite ownedBy_cons. simpl.
  destruct (decide (user p = uid)) as [Hu|Hu]; simpl.
  - destruct (matchesIdUser id uid p); simpl.
    + unfold prod_map. simpl. rewrite ownedBy_cons. simpl. by rewrite decide_True.
    + rewrite IH. destruct (findOneAndUpdate id uid t c cat tgs now docs) as [[rest r]|];
        [|done]. simpl. unfold prod_map. simpl. by rewrite ownedBy_cons, decide_True.
  - rewrite (matchesIdUser_foreign id uid p Hu), IH.
    destruct (findOneAndUpdate id uid t c cat tgs now docs) as [[rest r]|]; [|done].
    simpl. unfold prod_map. simpl. by rewrite ownedBy_cons, decide_False.
Qed.

Lemma findOneAndDelete_owned (id uid : string) (docs : list Post) :
  findOneAndDelete id uid (ownedBy uid docs)
  = prod_map (ownedBy uid) (λ p, p) <$> findOneAndDelete id uid docs.
Proof.
  induction docs as [|p docs IH]; [done|]. rewrite ownedBy_cons. simpl.
  destruct (decide (user p = uid)) as [Hu|Hu]; simpl.
  - destruct (matchesIdUser id uid p); simpl; [done|].
    rewrite IH. destruct (findOneAndDelete id uid docs) as [[rest r]|]; [|done].
    simpl. unfold prod_map. simpl. by rewrite ownedBy_cons, decide_True.
  - rewrite (matchesIdUser_foreign id uid p Hu), IH.
    destruct (findOneAndDelete id uid docs) as [[rest r]|]; [|done].
    simpl. unfold prod_map. simpl. by rewrite ownedBy_cons, decide_False.
Qed.

Lemma filter_owned (P : Post → Prop) `{!∀ p, Decision (P p)} (A : string)
    (docs : list Post) :
  (∀ p, P p → user p = A) → filter P (ownedBy A docs) = filter P docs.
Proof.
  intros HP. unfold ownedBy. rewrite list_filter_filter. apply list_filter_iff.
  intros p. split; [tauto|]. intros Hp. split; [done|by apply HP].
Qed.

Lemma find_owned (lib : Libraries) (query : Filter) (docs : list Post) :
  find lib query (ownedBy (f_user query) docs) = find lib query docs.
Proof.
  unfold find.
  destruct (f_or_regex query) as [pattern|]; [destruct (regexTest lib pattern) as [test|]|];
    try done; do 3 f_equal; apply filter_owned; intros p; apply matchesFilter_user.
Qed.

(** X6.  The answer to a request never depends on the posts of other
    owners.  Take two states with the same cache whose collections hold the
    same posts of the caller, in the same order, and whatever posts of other
    owners; for a Create, let the generated ObjectId be taken in both or in
    neither.  Then the request gets the same response in both, issues the
    same store operations, and leaves the same cache and the same posts of
    the caller. *)
Theorem responses_depend_on_own_posts_only
    (lib : Libraries) (s1 s2 : State) (r : Request) (e : Env) :
  cache s1 = cache s2 →
  ownedBy (caller r) (db s1) = ownedBy (caller r) (db s2) →
  idTaken r e (db s1) = idTaken r e (db s2) →
  (handle lib s1 r e).1.2 = (handle lib s2 r e).1.2
  ∧ (handle lib s1 r e).2 = (handle lib s2 r e).2
  ∧ cache (handle lib s1 r e).1.1 = cache (handle lib s2 r e).1.1
  ∧ ownedBy (caller r) (db (handle lib s1 r e).1.1)
    = ownedBy (caller r) (db (handle lib s2 r e).1.1).
Proof.
  destruct s1 as [d1 c1], s2 as [d2 c2]. simpl. intros <- Hown Htaken.
  destruct r as [uid url rq|uid|uid|uid id|uid b|uid id b|uid id]; simpl in *.
  - assert (Hl : listPosts lib uid rq e (mkState d1 c1) = listPosts lib uid rq e (mkState d2 c1)).
    { unfold listPosts. simpl.
      rewrite <- (find_owned lib (buildQuery uid rq) d1), <- (find_owned lib (buildQuery uid rq) d2).
      simpl. by rewrite Hown. }
    unfold getPosts, cacheMiddleware. simpl. rewrite Hl.
    destruct (cache_posts c1 !! postsKey uid url) as [cached|];
      [destruct (_ <? _); [done|]|];
      by destruct (listPosts lib uid rq e (mkState d2 c1)).
  - unfold getCategories. simpl.
    change (distinctCategories uid d1) with (remove_dups (map category (ownedBy uid d1))).
    change (distinctCategories uid d2) with (remove_dups (map category (ownedBy uid d2))).
    rewrite Hown.
    destruct (cache_categories c1 !! categoriesKey uid) as [cached|];
      [destruct (_ <? _); [done|]|]; by destruct (storeUp e).
  - unfold getTags. simpl.
    change (distinctTags uid d1) with (remove_dups (concat (map tags (ownedBy uid d1)))).
    change (distinctTags uid d2) with (remove_dups (concat (map tags (ownedBy uid d2)))).
    rewrite Hown.
    destruct (cache_tags c1 !! tagsKey uid) as [cached|];
      [destruct (_ <? _); [done|]|]; by destruct (storeUp e).
  - unfold getPostById. simpl.
    destruct (castObjectId lib id) as [oid|]; [|done].
    destruct (storeUp e); simpl; [|done].
    rewrite <- (findOne_owned oid uid d1), <- (findOne_owned oid uid d2), Hown.
    by destruct (findOne oid uid (ownedBy uid d2)).
  - unfold createPost. cbn [db cache]. rewrite Htaken.
    destruct (validationResult b) as [b' [|err errs]]; [|done].
    destruct (postFields b') as [[[t c] cat] tgs].
    destruct (schemaValid t c cat tgs); cbn [negb]; [|done].
    destruct (storeUp e); cbn [negb]; [|done].
    destruct (bool_decide (newId e ∈ map _id d2)); [done|]. cbn [fst snd db cache].
    repeat split. unfold ownedBy in *. by rewrite !filter_app, Hown.
  - unfold updatePost. cbn [db cache].
    destruct (validationResult b) as [b' [|err errs]]; [|done].
    destruct (postFields b') as [[[t c] cat] tgs].
    destruct (castObjectId lib id) as [oid|]; [|done].
    destruct (schemaValid t c cat tgs); cbn [negb]; [|done].
    destruct (storeUp e); cbn [negb]; [|done].
    pose proof (findOneAndUpdate_owned oid uid t c cat tgs (nowWrite e) d1) as H1.
    pose proof (findOneAndUpdate_owned oid uid t c cat tgs (nowWrite e) d2) as H2.
    rewrite Hown, H2 in H1. clear H2.
    destruct (findOneAndUpdate oid uid t c cat tgs (nowWrite e) d1) as [[docs1 p1]|],
             (findOneAndUpdate oid uid t c cat tgs (nowWrite e) d2) as [[docs2 p2]|];
      try done.
    simpl in H1. unfold prod_map in H1. simpl in H1. injection H1 as H1 ->. done.
  - unfold deletePost. cbn [db cache].
    destruct (castObjectId lib id) as [oid|]; [|done].
    destruct (storeUp e); cbn [negb]; [|done].
    pose proof (findOneAndDelete_owned oid uid d1) as H1.
    pose proof (findOneAndDelete_owned oid uid d2) as H2.
    rewrite Hown, H2 in H1. clear H2.
    destruct (findOneAndDelete oid uid d1) as [[docs1 p1]|],
             (findOneAndDelete oid uid d2) as [[docs2 p2]|]; try done.
    simpl in H1. unfold prod_map in H1. simpl in H1. injection H1 as H1 _. done.
Qed.

(** ** Expiry and invalidation *)

(** X7.  An entry is served only while it is strictly younger than its
    window.  At an age of exactly 60000 ms (or more) a list entry is not
    served: the route runs and its payload replaces the entry, stamped with
    the time of the write.  At an age of 600000 ms (or more) an aggregate
    entry is not served: the store is read, and the entry is replaced when
    the read succeeds and left in place, expired, when it fails. *)
Theorem expired_entry_is_recomputed
    (lib : Libraries) (s : State) (uid : string) (e : Env) (entry : CacheEntry) :
  (∀ url rq,
     cache_posts (cache s) !! postsKey uid url = Some entry →
     listDuration ≤ nowCheck e - timestamp entry →
     let answer := handle lib s (GetPosts uid url rq) e in
     answer.1.2 = (listPosts lib uid rq e s).1
     ∧ answer.2 = (listPosts lib uid rq e s).2
     ∧ cache_posts (cache answer.1.1) !! postsKey uid url
       = Some (mkEntry (body answer.1.2) (nowWrite e)))
  ∧ (cache_categories (cache s) !! categoriesKey uid = Some entry →
     aggregateDuration ≤ nowCheck e - timestamp entry →
     let answer := handle lib s (GetCategories uid) e in
     answer.2 = [OpDistinct]
     ∧ cache_categories (cache answer.1.1) !! categoriesKey uid
       = Some (if storeUp e
               then mkEntry (JStrings (distinctCategories uid (db s))) (nowWrite e)
               else entry)
     ∧ body answer.1.2
       = JStrings (if storeUp e then distinctCategories uid (db s) else []))
  ∧ (cache_tags (cache s) !! tagsKey uid = Some entry →
     aggregateDuration ≤ nowCheck e - timestamp entry →
     let answer := handle lib s (GetTags uid) e in
     answer.2 = [OpDistinct]
     ∧ cache_tags (cache answer.1.1) !! tagsKey uid
       = Some (if storeUp e
               then mkEntry (JStrings (distinctTags uid (db s))) (nowWrite e)
               else entry)
     ∧ body answer.1.2 = JStrings (if storeUp e then distinctTags uid (db s) else [])).
Proof.
  split; [|split].
  - intros url rq Hentry Hage. simpl.
    rewrite getPosts_miss by (by apply (listHit_expired uid url e s entry)).
    simpl. by rewrite lookup_insert_eq.
  - intros Hentry Hage%Z.ltb_ge. simpl. unfold getCategories. rewrite Hentry, Hage.
    destruct (storeUp e); simpl; [by rewrite lookup_insert_eq|done].
  - intros Hentry Hage%Z.ltb_ge. simpl. unfold getTags. rewrite Hentry, Hage.
    destruct (storeUp e); simpl; [by rewrite lookup_insert_eq|done].
Qed.

Lemma clearCache_empty (userId : option string) : clearCache userId emptyCache = emptyCache.
Proof.
  by destruct userId as [[|ch t]|].
Qed.

Lemma clearCache_all (userId : option string) (c : Cache) :
  truthy userId = false → clearCache userId c = emptyCache.
Proof. by destruct userId as [[|ch t]|]. Qed.

(** X8.  Invalidation composes freely: clearing twice for the same user is
    clearing once, clearing for two users gives the same cache in either
    order, and clearing never adds or alters an entry.  (A falsy user id,
    absent or empty, clears everything.) *)
Theorem clearCache_idempotent_and_commutative (u v : option string) (c : Cache) :
  clearCache u (clearCache u c) = clearCache u c
  ∧ clearCache u (clearCache v c) = clearCache v (clearCache u c)
  ∧ cache_posts (clearCache u c) ⊆ cache_posts c
  ∧ cache_categories (clearCache u c) ⊆ cache_categories c
  ∧ cache_tags (clearCache u c) ⊆ cache_tags c
  ∧ (truthy u = false → clearCache u c = emptyCache).
Proof.
  assert (Hidem : ∀ (P : string * CacheEntry → Prop) `{!∀ x, Decision (P x)}
                    (m : gmap string CacheEntry), filter P (filter P m) = filter P m).
  { intros P ? m. apply map_eq. intros k. apply option_eq. intros x.
    rewrite !map_lookup_filter_Some. tauto. }
  split; [|split; [|split; [|split; [|split]]]].
  - destruct (truthy u) eqn:Hu; [|by rewrite !(clearCache_all u), ?clearCache_empty].
    destruct u as [[|ch t]|]; try done. unfold clearCache. simpl. by rewrite !Hidem.
  - destruct (truthy u) eqn:Hu; [|by rewrite !(clearCache_all u), ?clearCache_empty].
    destruct (truthy v) eqn:Hv; [|by rewrite !(clearCache_all v), ?clearCache_empty].
    destruct u as [[|ch t]|], v as [[|ch' t']|]; try done. unfold clearCache. simpl.
    f_equal; apply map_filter_comm.
  - apply map_subseteq_spec. intros k x. apply clearCache_posts_subset.
  - apply map_subseteq_spec. intros k x. apply clearCache_categories_subset.
  - apply map_subseteq_spec. intros k x. apply clearCache_tags_subset.
  - apply clearCache_all.
Qed.

(** ** Order of the listing *)

Lemma run_cacheSorted (lib : Libraries) (trace : list (Request * Env)) (s : State) :
  cacheSorted (cache s) → cacheSorted (cache (run lib s trace)).
Proof.
  revert s. induction trace as [|[r e] trace IH]; intros s Hinv; [done|].
  simpl. apply IH. intros key entry [Hold|(uid & url & rq & -> & -> & ->)]%handle_posts_entry;
    [by eapply Hinv|apply listPosts_sorted].
Qed.

(** X9.  A List is always answered newest first.  Starting with an empty
    cache, and whatever requests have been handled since, the posts in the
    answer to a list request are in descending order of creation, whether
    the answer comes from the store or from the cache. *)
Theorem list_answer_is_newest_first
    (lib : Libraries) (s0 : State) (trace : list (Request * Env))
    (uid url : string) (rq : ListQuery) (e : Env) :
  cache s0 = emptyCache →
  Sorted (λ a b, createdAt b ≤ createdAt a)
    (payloadPosts (body (handle lib (run lib s0 trace) (GetPosts uid url rq) e).1.2)).
Proof.
  intros Hempty.
  assert (Hinv : cacheSorted (cache (run lib s0 trace))).
  { apply run_cacheSorted. rewrite Hempty. intros key entry H. simpl in H.
    by rewrite lookup_empty in H. }
  simpl. destruct (getPosts_body lib uid url rq e (run lib s0 trace))
    as [(entry & Hentry & ->)| ->]; [by eapply Hinv|apply listPosts_sorted].
Qed.

(** ** Posts of other owners *)

Lemma findOneAndDelete_None (id uid : string) (docs : list Post) :
  findOneAndDelete id uid docs = None ↔ findOne id uid docs = None.
Proof.
  induction docs as [|q docs IH]; [done|]. simpl.
  destruct (matchesIdUser id uid q); [done|].
  destruct (findOneAndDelete id uid docs) as [[? ?]|]; [|tauto].
  split; [done|]. intros H. apply IH in H. done.
Qed.

(** With unique ids, the id of a post of another owner finds nothing. *)
Lemma findOne_foreign (uid : string) (p : Post) (docs : list Post) :
  NoDup (map _id docs) → p ∈ docs → user p ≠ uid → findOne (_id p) uid docs = None.
Proof.
  intros Hnd Hp Hu.
  destruct (findOne (_id p) uid docs) as [q|] eqn:Hq; [|done].
  apply findOne_Some in Hq as (Hq & Hid & Hown). exfalso. apply Hu.
  replace p with q; [done|].
  apply list_elem_of_lookup in Hp as [i Hi]. apply list_elem_of_lookup in Hq as [k Hk].
  assert (i = k) as ->; [|congruence].
  apply (NoDup_lookup (map _id docs) i k (_id p)); [done|..];
    rewrite list_lookup_fmap; [by rewrite Hi|by rewrite Hk, <- Hid].
Qed.

(** X10.  A post of another owner is answered like a post that does not
    exist.  With unique ids in the collection and a store that answers, Get
    and Delete on the id of a post that belongs to someone else are answered
    404 "Post not found", after one store call, and change neither the
    collection nor the cache. *)
Theorem foreign_post_is_not_found
    (lib : Libraries) (s : State) (uid id : string) (e : Env) (p : Post) :
  NoDup (map _id (db s)) →
  p ∈ db s → user p ≠ uid → castObjectId lib id = Some (_id p) →
  storeUp e = true →
  handle lib s (GetPost uid id) e = (s, notFound, [OpFindOne])
  ∧ handle lib s (DeletePost uid id) e = (s, notFound, [OpFindOneAndDelete]).
Proof.
  intros Hnd Hp Hu Hcast Hup.
  pose proof (findOne_foreign uid p (db s) Hnd Hp Hu) as Hnone.
  split; simpl.
  - unfold getPostById. by rewrite Hcast, Hup, Hnone.
  - unfold deletePost. rewrite Hcast, Hup. simpl.
    by rewrite (proj2 (findOneAndDelete_None (_id p) uid (db s)) Hnone).
Qed.

(** ** The client against the server *)

Lemma filter_map_commute {A B : Type} (f : A → B) (P : B → Prop) `{!∀ y, Decision (P y)}
    (l : list A) :
  filter P (map f l) = map f (filter (λ x, P (f x)) l).
Proof.
  induction l as [|x l IH]; [done|]. simpl. rewrite !filter_cons.
  destruct (decide (P (f x))); simpl; by rewrite IH.
Qed.

Lemma insertByCreatedDesc_newest (p : Post) (docs : list Post) :
  (∀ q, q ∈ docs → createdAt q < createdAt p) → insertByCreatedDesc p docs = p :: docs.
Proof.
  destruct docs as [|q rest]; [done|]. intros H. simpl.
  assert ((createdAt q <? createdAt p) = true) as ->; [|done].
  apply Z.ltb_lt, H. left.
Qed.

(** Filtering commutes with the sort: the sort is stable and its input is
    kept in order. *)
Lemma filter_insertByCreatedDesc (P : Post → Prop) `{!∀ p, Decision (P p)}
    (p : Post) (docs : list Post) :
  StronglySorted (λ a b, createdAt b ≤ createdAt a) docs →
  filter P (insertByCreatedDesc p docs)
  = if decide (P p) then insertByCreatedDesc p (filter P docs) else filter P docs.
Proof.
  induction 1 as [|q rest Hrest IH Hq].
  { cbn [insertByCreatedDesc]. rewrite filter_cons, filter_nil. by destruct (decide (P p)). }
  cbn [insertByCreatedDesc]. destruct (createdAt q <? createdAt p) eqn:E.
  - rewrite (filter_cons P p). destruct (decide (P p)); [|done].
    symmetry. apply insertByCreatedDesc_newest. intros x [_ Hx]%list_elem_of_filter.
    apply Z.ltb_lt in E. apply elem_of_cons in Hx as [->|Hx]; [done|].
    rewrite Forall_forall in Hq. specialize (Hq x Hx). simpl in Hq. lia.
  - rewrite (filter_cons P q), IH, (filter_cons P q).
    destruct (decide (P q)), (decide (P p)); try done. cbn [insertByCreatedDesc]. by rewrite E.
Qed.

Lemma filter_sortByCreatedDesc (P : Post → Prop) `{!∀ p, Decision (P p)}
    (docs : list Post) :
  filter P (sortByCreatedDesc docs) = sortByCreatedDesc (filter P docs).
Proof.
  induction docs as [|p docs IH]; [done|]. simpl.
  rewrite filter_insertByCreatedDesc, IH, filter_cons.
  - by destruct (decide (P p)).
  - apply Sorted_StronglySorted; [|apply sortByCreatedDesc_sorted].
    intros a b c Hab Hbc. simpl in *. lia.
Qed.

(** Filtering a listing on a property that [__v] does not affect. *)
Lemma filter_listing (P Q : Post → Prop) `{!∀ p, Decision (P p)} `{!∀ p, Decision (Q p)}
    (docs : list Post) :
  (∀ p, P (selectMinusV p) ↔ P p) →
  filter P (map selectMinusV (sortByCreatedDesc (filter Q docs)))
  = map selectMinusV (sortByCreatedDesc (filter (λ p, P p ∧ Q p) docs)).
Proof.
  intros HP. rewrite filter_map_commute, filter_sortByCreatedDesc, list_filter_filter.
  do 2 f_equal. apply list_filter_iff. intros p. by rewrite HP.
Qed.

(** X11.  The filters of the dashboard and the filters of the list route
    agree.  Let the engine read the search term literally (as it does for a
    term without metacharacters), let the category and the tag be values
    without white space around them (as the stored ones, which the
    selectors offer, are) and let the store answer.  Then narrowing the
    unfiltered listing in the browser, by search term, category and tag,
    shows exactly the posts, in the order, that the list route returns when
    it is given the same three values as query parameters. *)
Theorem dashboard_filter_agrees_with_list_route
    (lib : Libraries) (uid : string) (e : Env) (s : State)
    (searchTerm selectedCategory selectedTag : string) :
  (searchTerm ≠ EmptyString →
   ∃ test, regexTest lib searchTerm = Some test
           ∧ ∀ x, test x = includesIgnoreCase searchTerm x) →
  trim selectedCategory = selectedCategory →
  trim selectedTag = selectedTag →
  storeUp e = true →
  Dashboard.filteredPosts searchTerm
    (payloadPosts (body (listPosts lib uid noQuery e s).1))
    selectedCategory selectedTag
  = payloadPosts
      (body (listPosts lib uid
               (mkListQuery (Some selectedCategory) (Some selectedTag) (Some searchTerm))
               e s).1).
Proof.
  intros Hengine Htrimc Htrimt Hup.
  rewrite (listPosts_literal lib uid noQuery e s), (listPosts_literal lib uid _ e s);
    try done; try (by intros q [= <-]).
  cbn [fst body payloadPosts]. unfold Dashboard.filteredPosts.
  assert (Hsearch : ∀ Q `{!∀ p, Decision (Q p)},
    (if truthy (Some searchTerm) then
       filter (λ post,
                 includes (toLowerCase searchTerm) (toLowerCase (title post))
                 || includes (toLowerCase searchTerm) (toLowerCase (content post))
                 || existsb (λ tag, includes (toLowerCase searchTerm) (toLowerCase tag))
                      (tags post) = true)
         (map selectMinusV (sortByCreatedDesc (filter Q (db s))))
     else map selectMinusV (sortByCreatedDesc (filter Q (db s))))
    = map selectMinusV (sortByCreatedDesc (filter
        (λ p, (match searchTerm with
               | EmptyString => true
               | _ => includesIgnoreCase searchTerm (title p)
                      || includesIgnoreCase searchTerm (content p)
                      || existsb (includesIgnoreCase searchTerm) (tags p)
               end = true) ∧ Q p) (db s)))).
  { intros Q ?. destruct searchTerm as [|c t]; simpl.
    - do 2 f_equal. apply list_filter_iff. tauto.
    - by rewrite (filter_listing _ Q). }
  assert (Hcat : ∀ Q `{!∀ p, Decision (Q p)},
    (if truthy (Some selectedCategory) && negb (bool_decide (selectedCategory = "All"))
     then filter (λ post, category post = selectedCategory)
            (map selectMinusV (sortByCreatedDesc (filter Q (db s))))
     else map selectMinusV (sortByCreatedDesc (filter Q (db s))))
    = map selectMinusV (sortByCreatedDesc (filter
        (λ p, (match selectedCategory with
               | EmptyString => true
               | _ => if bool_decide (selectedCategory = "All") then true
                      else bool_decide (category p = selectedCategory)
               end = true) ∧ Q p) (db s)))).
  { intros Q ?. destruct selectedCategory as [|c t]; simpl.
    - do 2 f_equal. apply list_filter_iff. tauto.
    - destruct (bool_decide (String c t = "All")); simpl.
      + do 2 f_equal. apply list_filter_iff. tauto.
      + rewrite (filter_listing _ Q) by done. do 2 f_equal. apply list_filter_iff.
        intros p. by rewrite bool_decide_eq_true. }
  assert (Htag : ∀ Q `{!∀ p, Decision (Q p)},
    (if truthy (Some selectedTag)
     then filter (λ post, selectedTag ∈ tags post)
            (map selectMinusV (sortByCreatedDesc (filter Q (db s))))
     else map selectMinusV (sortByCreatedDesc (filter Q (db s))))
    = map selectMinusV (sortByCreatedDesc (filter
        (λ p, (match selectedTag with
               | EmptyString => true
               | _ => bool_decide (selectedTag ∈ tags p)
               end = true) ∧ Q p) (db s)))).
  { intros Q ?. destruct selectedTag as [|c t]; simpl.
    - do 2 f_equal. apply list_filter_iff. tauto.
    - rewrite (filter_listing _ Q) by done. do 2 f_equal. apply list_filter_iff.
      intros p. by rewrite bool_decide_eq_true. }
  cbv zeta. rewrite Hsearch, Hcat, Htag. do 2 f_equal. apply list_filter_iff.
  intros p. unfold specKeeps. simpl.
  destruct searchTerm as [|c1 t1], selectedCategory as [|c2 t2], selectedTag as [|c3 t3];
    rewrite ?andb_true_iff, ?andb_true_r; tauto.
Qed.

(** The unfiltered listing on a store that answers: the caller's posts,
    newest first, without [__v]. *)
Lemma listPosts_noQuery (lib : Libraries) (uid : string) (e : Env) (s : State) :
  storeUp e = true →
  listPosts lib uid noQuery e s
  = (mkResponse 200 (JPosts (map selectMinusV (sortByCreatedDesc (ownedBy uid (db s))))),
     [OpFind]).
Proof.
  intros Hup. unfold listPosts, find. simpl. rewrite Hup. do 5 f_equal.
  apply list_filter_iff. intros p. unfold matchesFilter. simpl.
  by rewrite !andb_true_r, bool_decide_eq_true.
Qed.

Lemma filter_and_all {A : Type} (P Q : A → Prop)
    `{!∀ x, Decision (P x)} `{!∀ x, Decision (Q x)} (l : list A) :
  Forall P l → filter (λ x, P x ∧ Q x) l = filter Q l.
Proof.
  induction 1 as [|x l Hx Hl IH]; [done|]. rewrite !filter_cons, IH.
  destruct (decide (Q x)); [by rewrite decide_True|by rewrite decide_False by tauto].
Qed.

(** Only the answer 200 of the delete route makes [axios] resolve. *)
Lemma deletePost_resolves (lib : Libraries) (uid id : string) (e : Env) (s : State) :
  resolves (deletePost lib uid id e s).1.2
  = bool_decide (status (deletePost lib uid id e s).1.2 = 200%nat).
Proof.
  unfold deletePost. destruct (castObjectId lib id) as [oid|]; [|done].
  destruct (storeUp e); [|done]. simpl.
  by destruct (findOneAndDelete oid uid (db s)) as [[docs d]|].
Qed.

(** X12.  Deleting from the dashboard keeps its list in step with the
    store.  Let the dashboard show the owner's unfiltered listing, let the
    ids of the collection be unique and let the id of the post be one that
    the cast leaves as it is.  Whatever [handleDelete] does (the user
    declines, the server answers with an error, or the post is deleted), the
    list the dashboard shows afterwards is the unfiltered listing of the
    collection as it is afterwards. *)
Theorem dashboard_delete_keeps_list_in_step
    (lib : Libraries) (uid postId : string) (confirmed : bool) (e e0 e1 : Env)
    (s : State) (posts : list Post) :
  NoDup (map _id (db s)) →
  castObjectId lib postId = Some postId →
  storeUp e0 = true → storeUp e1 = true →
  posts = payloadPosts (body (listPosts lib uid noQuery e0 s).1) →
  (Dashboard.handleDelete lib uid confirmed postId e s posts).2
  = payloadPosts
      (body (listPosts lib uid noQuery e1
               (Dashboard.handleDelete lib uid confirmed postId e s posts).1).1).
Proof.
  intros Hnd Hcast Hup0 Hup1 ->. rewrite !listPosts_noQuery by done.
  cbn [fst body payloadPosts]. unfold Dashboard.handleDelete.
  destruct confirmed; [|done]. cbn [negb handle].
  pose proof (deletePost_resolves lib uid postId e s) as Hres.
  destruct (deletePost lib uid postId e s) as [[s' [st payload]] ops] eqn:H.
  cbn [fst snd status] in Hres. rewrite Hres.
  destruct (decide (st = 200%nat)) as [->|Hst].
  - rewrite bool_decide_eq_true_2 by done. cbn [fst snd].
    apply deletePost_200 in H as (docs & d & oid & Hcast' & _ & Hd & ->).
    assert (oid = postId) as -> by congruence.
    apply findOneAndDelete_Some in Hd as (l1 & l2 & Hdb & -> & _ & [Hid Hu]%matchesIdUser_true).
    cbn [db]. rewrite Hdb. unfold ownedBy.
    rewrite (filter_listing (λ post, _id post ≠ postId)) by done.
    do 2 f_equal. rewrite Hdb, map_app in Hnd. simpl in Hnd.
    apply NoDup_app in Hnd as (_ & Hl1 & [Hl2 _]%NoDup_cons).
    rewrite !filter_app, filter_cons, decide_False by tauto.
    f_equal; apply filter_and_all, Forall_forall.
    + intros q Hq Hqid. apply (Hl1 (_id q)); [by apply list_elem_of_fmap_2|].
      rewrite Hqid, Hid. left.
    + intros q Hq Hqid. apply Hl2. rewrite Hid, <- Hqid. by apply list_elem_of_fmap_2.
  - rewrite bool_decide_eq_false_2 by done. cbn [fst snd].
    pose proof (unsuccessful_mutation_state lib s (DeletePost uid postId) e I) as Hs.
    cbn [handle successful] in Hs. rewrite H in Hs. cbn [fst snd status] in Hs.
    by rewrite Hs by (by apply bool_decide_eq_false_2).
Qed.

(** ** The edit form *)

Lemma length_trimStart (s : string) : (String.length (trimStart s) ≤ String.length s)%nat.
Proof.
  induction s as [|c s IH]; [done|]. simpl. destruct (isWhiteSpace c); simpl; lia.
Qed.

Lemma length_trimEnd (s : string) : (String.length (trimEnd s) ≤ String.length s)%nat.
Proof.
  induction s as [|c s IH]; [done|]. simpl.
  destruct (trimEnd s) as [|d u]; [destruct (isWhiteSpace c)|]; simpl in *; lia.
Qed.

Lemma length_trim (s : string) : (String.length (trim s) ≤ String.length s)%nat.
Proof.
  unfold trim. pose proof (length_trimEnd (trimStart s)). pose proof (length_trimStart s). lia.
Qed.

(** A field that passes the client's two checks passes the server's chain. *)
Lemma client_check_isLength (hi : N) (v : string) :
  truthy (Some (trim v)) = true →
  (hi <? N.of_nat (String.length v))%N = false →
  isLength 1 hi (trim v) = true.
Proof.
  intros Hne Hlen%N.ltb_ge. apply isLength_spec. pose proof (length_trim v).
  destruct (trim v) as [|c t]; [done|]. simpl in *. lia.
Qed.

Lemma isLength_upto (hi : N) (v : string) :
  (N.of_nat (String.length v) ≤ hi)%N → isLength 0 hi (trim v) = true.
Proof. intros H. apply isLength_spec. pose proof (length_trim v). lia. Qed.

(** X13.  A form that passes the client's check is not rejected by the
    server's validators.  When [handleSubmit] sends the request (so
    [validateForm] has found a non-blank title of at most 100 characters and
    a non-blank content of at most 10000), and the category has at most 50
    characters and each tag at most 30, then the four validation chains
    report no error and the schema accepts the fields: the update is
    answered 400 only for a malformed id, 500 only when the store fails, 404
    when the caller has no such post, and 200 otherwise. *)
Theorem validated_form_is_accepted_by_the_validators
    (lib : Libraries) (uid id : string) (d : EditPost.FormData) (r : Request)
    (s : State) (e : Env) :
  EditPost.handleSubmit uid id d = Some r →
  (String.length (EditPost.category d) ≤ 50)%nat →
  Forall (λ t, (String.length t ≤ 30)%nat) (EditPost.tags d) →
  r = UpdatePost uid id (EditPost.requestBody d)
  ∧ (validationResult (EditPost.requestBody d)).2 = []
  ∧ match castObjectId lib id with
    | None => (handle lib s r e).1.2 = invalidId
    | Some oid =>
        if storeUp e then
          match findOne oid uid (db s) with
          | None => (handle lib s r e).1.2 = notFound
          | Some _ => status (handle lib s r e).1.2 = 200%nat
          end
        else (handle lib s r e).1.2 = serverError
    end.
Proof.
  unfold EditPost.handleSubmit, EditPost.validateForm. cbn [snd].
  destruct (truthy (Some (trim (EditPost.title d)))) eqn:Ht; [|done].
  destruct (100 <? N.of_nat (String.length (EditPost.title d)))%N eqn:Htl; [done|].
  destruct (truthy (Some (trim (EditPost.content d)))) eqn:Hc; [|done].
  destruct (10000 <? N.of_nat (String.length (EditPost.content d)))%N eqn:Hcl; [done|].
  cbn [negb]. intros [= <-] Hcat Htags. split; [done|].
  pose proof (client_check_isLength 100 _ Ht Htl) as Htitle.
  pose proof (client_check_isLength 10000 _ Hc Hcl) as Hcontent.
  assert (Hcategory : isLength 0 50 (trim (EditPost.category d)) = true)
    by (apply isLength_upto; lia).
  assert (Herrs : (validationResult (EditPost.requestBody d)).2 = []).
  { unfold validationResult, chainTitle, chainContent, chainCategory, chainTags,
      EditPost.requestBody. cbn -[isLength trim]. by rewrite Htitle, Hcontent, Hcategory. }
  split; [done|].
  assert (Hv : validationResult (EditPost.requestBody d)
               = ((validationResult (EditPost.requestBody d)).1, [])).
  { rewrite <- Herrs. apply surjective_pairing. }
  assert (Hvalid : schemaValid (trim (EditPost.title d)) (trim (EditPost.content d))
                     (orDefault (Some (trim (EditPost.category d))) "General")
                     (map trim (EditPost.tags d)) = true).
  { unfold schemaValid. rewrite Htitle, Hcontent. cbn [andb].
    apply andb_true_iff. split.
    - destruct (trim (EditPost.category d)) as [|ch t] eqn:E; [done|].
      simpl orDefault. exact Hcategory.
    - apply forallb_forall. intros x [t [<- Hin]]%in_map_iff.
      apply isLength_upto. rewrite Forall_forall in Htags.
      apply list_elem_of_In, Htags in Hin. lia. }
  set (b := EditPost.requestBody d) in *.
  assert (Hvalid' : schemaValid (trim (toStringV (b_title b))) (trim (toStringV (b_content b)))
                      (orDefault (trim <$> b_category b) "General")
                      (map trim (tagsOrEmpty (b_tags b))) = true) by exact Hvalid.
  cbn [handle]. unfold updatePost. rewrite Hv, postFields_sanitised. cbv zeta beta iota.
  rewrite Hvalid'. cbn [negb].
  destruct (castObjectId lib id) as [oid|]; [|done].
  destruct (storeUp e); cbn [negb]; [|done].
  match goal with
  | |- context [findOneAndUpdate oid uid ?t ?c ?cat ?tgs ?now ?docs] =>
      generalize (findOneAndUpdate_None oid uid t c cat tgs now docs);
      destruct (findOneAndUpdate oid uid t c cat tgs now docs) as [[docs' post]|]
  end; intros Hiff.
  - destruct (findOne oid uid (db s)); [done|]. discriminate (proj2 Hiff eq_refl).
  - by rewrite (proj1 Hiff eq_refl).
Qed.

(** ** The tags of the edit form, and the routes of the client *)

Lemma handleAddTag_tags (f : EditPost.Form) :
  EditPost.tags (EditPost.formData (EditPost.handleAddTag f))
  = if truthy (Some (trim (EditPost.tagInput f)))
       && negb (bool_decide (trim (EditPost.tagInput f) ∈ EditPost.tags (EditPost.formData f)))
    then EditPost.tags (EditPost.formData f) ++ [trim (EditPost.tagInput f)]
    else EditPost.tags (EditPost.formData f).
Proof. unfold EditPost.handleAddTag. by destruct (_ && _). Qed.

Lemma handleAddTag_idem (f : EditPost.Form) :
  EditPost.handleAddTag (EditPost.handleAddTag f) = EditPost.handleAddTag f.
Proof.
  unfold EditPost.handleAddTag at 2 3.
  destruct (truthy (Some (trim (EditPost.tagInput f))) && _) eqn:E; [done|].
  unfold EditPost.handleAddTag. by rewrite E.
Qed.

Lemma filter_absent (x : string) (l : list string) :
  x ∉ l → filter (λ tag, tag ≠ x) l = l.
Proof.
  induction l as [|y l IH]; [done|]. intros [Hne Hx]%not_elem_of_cons.
  by rewrite filter_cons, decide_True, IH.
Qed.

(** X14.  Editing the tags keeps them tidy.  If no tag of the form is
    blank, padded with white space, longer than 30 characters or repeated,
    and the tag input holds at most 30 characters (its [maxLength]), then
    the same is true after [handleAddTag] and after [handleRemoveTag]; the
    server then stores the tags exactly as the form has them (its trimming
    changes nothing and its length limit is met).  Moreover a second
    [handleAddTag] changes nothing, and removing the tag that was just added
    gives back the tags there were. *)
Theorem tag_editing_keeps_tags_tidy (f : EditPost.Form) (t : string) :
  EditPost.tagsTidy (EditPost.tags (EditPost.formData f)) →
  (String.length (EditPost.tagInput f) ≤ 30)%nat →
  let added := EditPost.tags (EditPost.formData (EditPost.handleAddTag f)) in
  EditPost.tagsTidy added
  ∧ EditPost.tagsTidy (EditPost.tags (EditPost.formData (EditPost.handleRemoveTag t f)))
  ∧ map trim added = added
  ∧ forallb (isLength 0 30) added = true
  ∧ EditPost.handleAddTag (EditPost.handleAddTag f) = EditPost.handleAddTag f
  ∧ (trim (EditPost.tagInput f) ∉ EditPost.tags (EditPost.formData f) →
     EditPost.tags (EditPost.formData
       (EditPost.handleRemoveTag (trim (EditPost.tagInput f)) (EditPost.handleAddTag f)))
     = EditPost.tags (EditPost.formData f)).
Proof.
  intros [Hnd Hall] Hlen. cbv zeta.
  set (tgs := EditPost.tags (EditPost.formData f)) in *.
  set (input := EditPost.tagInput f) in *.
  assert (Hadded : EditPost.tagsTidy
                     (EditPost.tags (EditPost.formData (EditPost.handleAddTag f)))).
  { rewrite handleAddTag_tags. fold tgs input.
    destruct (trim input) as [|c x] eqn:E; simpl; [by split|].
    destruct (decide (String c x ∈ tgs)) as [Hin|Hin].
    - rewrite bool_decide_eq_true_2 by done. by split.
    - rewrite bool_decide_eq_false_2 by done. simpl. split.
      + apply NoDup_app. split; [done|]. split; [|apply NoDup_singleton].
        by intros y Hy ->%list_elem_of_singleton.
      + apply Forall_app. split; [done|]. constructor; [|constructor].
        split; [done|]. rewrite <- E. split; [apply trim_idem|].
        pose proof (length_trim input). lia. }
  split; [exact Hadded|]. split; [|split; [|split; [|split]]].
  - unfold EditPost.handleRemoveTag. cbn. fold tgs.
    split; [by apply NoDup_filter|]. apply Forall_forall. intros x [_ Hx]%list_elem_of_filter.
    rewrite Forall_forall in Hall. by apply Hall.
  - destruct Hadded as [_ Htidy]. induction Htidy as [|x l (_ & Hx & _) _ IH]; [done|].
    simpl. by rewrite Hx, IH.
  - destruct Hadded as [_ Htidy]. apply forallb_forall. intros x Hx%list_elem_of_In.
    rewrite Forall_forall in Htidy. destruct (Htidy x Hx) as (_ & _ & Hx30).
    apply isLength_spec. lia.
  - apply handleAddTag_idem.
  - intros Hnew. unfold EditPost.handleRemoveTag. cbn [EditPost.formData EditPost.tags EditPost.withTags].
    rewrite handleAddTag_tags. fold tgs input.
    destruct (trim input) as [|c x] eqn:E; simpl.
    + apply filter_absent. intros Hin. rewrite Forall_forall in Hall. by destruct (Hall _ Hin).
    + rewrite bool_decide_eq_false_2 by done. simpl.
      rewrite filter_app, filter_cons, decide_False by (intros H; by apply H).
      rewrite filter_nil, app_nil_r. by apply filter_absent.
Qed.

(** X15.  The routes settle and guard the pages.  From every location the
    redirects of [AppContent] end after at most one [Navigate]; a page
    behind [ProtectedRoute] (dashboard, create, edit) is rendered only for a
    signed-in user whose session has been loaded; and without a user, once
    loading is over, every route leads to the login or the register page. *)
Theorem routes_settle_and_guard (auth : App.Auth) (location : App.Path) :
  (∃ final element, App.settle 1 auth location = Some (final, element))
  ∧ (∀ fuel final page,
       App.settle fuel auth location = Some (final, App.Render page) →
       App.protected page = true →
       App.user auth = true ∧ App.loading auth = false)
  ∧ (App.user auth = false → App.loading auth = false → location ≠ App.Unmatched →
     ∃ final page, App.settle 1 auth location = Some (final, App.Render page)
                   ∧ App.protected page = false).
Proof.
  destruct auth as [u l]. split; [|split].
  - destruct location, u, l; simpl; eauto.
  - intros fuel final page H Hp.
    destruct fuel as [|[|fuel]], location, u, l; simpl in H; try discriminate;
      injection H as <- <-; done.
  - simpl. intros -> -> Hloc. destruct location; simpl; try done; eauto.
Qed.

(** ** Loading and saving the edit form *)

Lemma findOneAndUpdate_findOne (id uid t c cat : string) (tgs : list string) (now : Z)
    (docs : list Post) (p : Post) :
  findOne id uid docs = Some p →
  ∃ docs', findOneAndUpdate id uid t c cat tgs now docs
           = Some (docs', mkPost (_id p) t c cat tgs (user p) (createdAt p) now (__v p)).
Proof.
  induction docs as [|q docs IH]; [done|]. simpl.
  destruct (matchesIdUser id uid q).
  - intros [= ->]. eauto.
  - intros H. destruct (IH H) as [docs' ->]. eauto.
Qed.

(** X16.  Saving the edit form without a change keeps the post.  Let the
    post be within the limits of the schema (as every post the routes store
    is) and let the store answer.  Then [fetchPost] loads a form from the
    answer to Get, [validateForm] accepts it, and the Update that
    [handleSubmit] sends is answered 200 with the post as it was, except for
    its modification time. *)
Theorem unchanged_form_saves_the_same_post
    (lib : Libraries) (s : State) (uid id oid : string) (e1 e2 : Env) (p : Post) :
  castObjectId lib id = Some oid →
  findOne oid uid (db s) = Some p →
  withinSchema p →
  storeUp e1 = true → storeUp e2 = true →
  ∃ d r,
    EditPost.fetchPost (handle lib s (GetPost uid id) e1).1.2 = Some d
    ∧ EditPost.handleSubmit uid id d = Some r
    ∧ (handle lib s r e2).1.2
      = mkResponse 200
          (JPost (selectMinusV
                    (mkPost (_id p) (title p) (content p) (category p) (tags p)
                            (user p) (createdAt p) (nowWrite e2) (__v p)))).
Proof.
  intros Hcast Hfind (Hvalid & Hcat & Ht & Hc & Hcattrim & Htags) Hup1 Hup2.
  destruct p as [pid ti co ca tgs u cr up v]. simpl in *.
  destruct ca as [|ch ca']; [done|]. set (ca := String ch ca') in *.
  assert (Hor : orDefault (Some ca) "General" = ca) by done.
  exists (EditPost.mkFormData ti co ca tgs),
         (UpdatePost uid id (EditPost.requestBody (EditPost.mkFormData ti co ca tgs))).
  unfold schemaValid in Hvalid.
  apply andb_true_iff in Hvalid as [[[Hti Hco]%andb_true_iff Hca]%andb_true_iff Htg].
  pose proof Hti as Hti'. pose proof Hco as Hco'.
  apply isLength_spec in Hti', Hco'.
  split; [|split].
  - unfold getPostById. by rewrite Hcast, Hup1, Hfind.
  - unfold EditPost.handleSubmit, EditPost.validateForm.
    cbn [EditPost.title EditPost.content snd]. rewrite Ht, Hc.
    assert (truthy (Some ti) = true) as -> by (destruct ti; [simpl in Hti'; lia|done]).
    assert (truthy (Some co) = true) as -> by (destruct co; [simpl in Hco'; lia|done]).
    assert ((100 <? N.of_nat (String.length ti))%N = false) as -> by (apply N.ltb_ge; lia).
    assert ((10000 <? N.of_nat (String.length co))%N = false) as -> by (apply N.ltb_ge; lia).
    reflexivity.
  - set (b := EditPost.requestBody (EditPost.mkFormData ti co ca tgs)).
    assert (Hmap : map trim tgs = tgs).
    { clear -Htags. induction Htags as [|x l Hx _ IH]; [done|]. simpl. by rewrite Hx, IH. }
    assert (Hfields : postFields (validationResult b).1 = (ti, co, ca, tgs)).
    { rewrite postFields_sanitised. subst b. cbn -[trim orDefault].
      rewrite Ht, Hc, Hcattrim, Hor, Hmap. done. }
    assert (Herrs : validationResult b = ((validationResult b).1, [])).
    { rewrite (surjective_pairing (validationResult b)) at 1. f_equal.
      unfold validationResult, chainTitle, chainContent, chainCategory, chainTags.
      subst b. cbn -[isLength trim]. by rewrite Ht, Hc, Hcattrim, Hti, Hco, Hca. }
    cbn [handle]. unfold updatePost. rewrite Herrs, Hfields, Hcast.
    unfold schemaValid. rewrite Hti, Hco, Hca, Htg, Hup2. cbn [andb negb].
    destruct (findOneAndUpdate_findOne oid uid ti co ca tgs (nowWrite e2) (db s) _ Hfind)
      as [docs' ->].
    reflexivity.
Qed.

(** The search box folds the capital letters of Latin-1 too: the term made
    of the code units 233, 116, 233 keeps the post whose title is made of
    201, 84, 201. *)
Example dashboard_search_folds_latin1 :
  let lower := String (ascii_of_nat 233) (String "t" (String (ascii_of_nat 233) "")) in
  let upper := String (ascii_of_nat 201) (String "T" (String (ascii_of_nat 201) "")) in
  let post := mkPost postId1 upper "Summer" "General" [] ownerA 1 1 None in
  Dashboard.filteredPosts lower [post] "All" "" = [post].
Proof. vm_compute. reflexivity. Qed.

(** ** The theorems at sample inputs *)

Lemma owner_isolation_witness :
  validCallers [(CreatePost ownerA noteBody, envAt 5 postId1)] = true
  ∧ (notePost ∉ payloadPosts
       (body (handle sampleLibraries
                (run sampleLibraries emptyState [(CreatePost ownerA noteBody, envAt 5 postId1)])
                (GetPosts ownerB listUrl noQuery) (envAt 9 postId2)).1.2))
  ∧ notePost ∈ db (handle sampleLibraries
                     (run sampleLibraries emptyState [(CreatePost ownerA noteBody, envAt 5 postId1)])
                     (DeletePost ownerB postId1) (envAt 9 postId2)).1.1.
Proof.
  split; [reflexivity|]. split.
  - apply (owner_isolation sampleLibraries emptyState
             [(CreatePost ownerA noteBody, envAt 5 postId1)] ownerA ownerB notePost
             (GetPosts ownerB listUrl noQuery) (envAt 9 postId2));
      try reflexivity; try discriminate.
    vm_compute. left.
  - apply (owner_isolation sampleLibraries emptyState
             [(CreatePost ownerA noteBody, envAt 5 postId1)] ownerA ownerB notePost
             (DeletePost ownerB postId1) (envAt 9 postId2));
      try reflexivity; try discriminate.
    vm_compute. left.
Defined.

Lemma list_cache_hit_and_invalidation_witness :
  isObjectId ownerA = true
  ∧ undisturbed sampleLibraries ownerA listUrl listedState quietTrace = true
  ∧ handle sampleLibraries (run sampleLibraries listedState quietTrace)
      (GetPosts ownerA listUrl noQuery) (envDown 60099)
    = (run sampleLibraries listedState quietTrace,
       mkResponse 200 (JPosts [selectMinusV workPost]), [])
  ∧ (handle sampleLibraries
       (handle sampleLibraries listedState (DeletePost ownerA postId1) (envAt 200 postId2)).1.1
       (GetPosts ownerA listUrl noQuery) (envAt 300 postId2)).2 = [OpFind].
Proof.
  split; [reflexivity|]. split; [vm_compute; reflexivity|].
  destruct (list_cache_hit_and_invalidation sampleLibraries ownerA listUrl noQuery eq_refl)
    as (Hhit & Hclear & _ & _).
  split.
  - destruct (Hhit workState (envAt 100 postId2)) as (entry & Hentry & Hdata & Hserve).
    assert (Hts : timestamp entry = 100).
    { vm_compute in Hentry. by injection Hentry as <-. }
    refine (eq_trans (Hserve quietTrace (envDown 60099) _ _) _).
    + vm_compute. reflexivity.
    + rewrite Hts. reflexivity.
    + vm_compute. reflexivity.
  - apply (Hclear listedState (DeletePost ownerA postId1) (envAt 200 postId2) []
             (envAt 300 postId2)); reflexivity.
Defined.

Lemma create_then_get_witness :
  ∃ j', handle sampleLibraries (mkState [notePost] emptyCache) (GetPost ownerA postId1)
          (envAt 9 postId2)
        = (mkState [notePost] emptyCache, mkResponse 200 (JPost j'), [OpFindOne])
    ∧ j' = selectMinusV notePost
    ∧ title j' = "Note" ∧ category j' = "General" ∧ tags j' = ["errand"]
    ∧ user j' = ownerA ∧ createdAt j' = 5.
Proof.
  destruct (create_then_get_returns_normalised_post sampleLibraries emptyState
              (mkState [notePost] emptyCache) ownerA
              (mkBody (Some " Note ") (Some "Buy milk") None (Some (TagsArray ["errand "])))
              (envAt 5 postId1) (envAt 9 postId2) notePost [OpSave])
    as (j' & Hget & Hj & Ht & _ & Hcat & Htags & _ & Hu & _ & Hc & _);
    [vm_compute; reflexivity..|].
  exists j'. split; [exact Hget|]. split; [exact Hj|].
  rewrite Ht, Hcat, Htags, Hu, Hc. repeat split.
Defined.

Lemma update_keeps_owner_and_creation_time_witness :
  NoDup (map _id (db workState))
  ∧ findOne postId1 ownerA (db workState) = Some workPost
  ∧ db (handle sampleLibraries workState (UpdatePost ownerA postId1 planBody)
          (envAt 20 postId2)).1.1 = [] ++ planUpdated :: []
  ∧ ∀ j', (handle sampleLibraries
             (run sampleLibraries (mkState [planUpdated] emptyCache)
                [(CreatePost ownerB noteBody, envAt 30 postId2);
                 (UpdatePost ownerA postId1 noteBody, envAt 40 postId2)])
             (GetPost ownerA postId1) (envAt 50 postId2)).1.2
          = mkResponse 200 (JPost j') →
          user j' = ownerA ∧ createdAt j' = 10.
Proof.
  assert (Hnd : NoDup (map _id (db workState))) by apply NoDup_singleton.
  split; [exact Hnd|]. split; [reflexivity|].
  destruct (update_keeps_owner_and_creation_time sampleLibraries workState
              (mkState [planUpdated] emptyCache) ownerA postId1 postId1 planBody
              (envAt 20 postId2) workPost (selectMinusV planUpdated) [OpFindOneAndUpdate]
              Hnd eq_refl eq_refl)
    as [_ Hlater]; [vm_compute; reflexivity|].
  split; [vm_compute; reflexivity|].
  intros j'. apply Hlater. reflexivity.
Defined.

Lemma clearCache_scoped_to_owner_witness :
  isObjectId ownerA = true
  ∧ cache_posts (clearCache (Some ownerA) sampleCache) !! postsKey ownerA listUrl = None
  ∧ cache_posts (clearCache (Some ownerA) sampleCache) !! postsKey ownerB listUrl
    = Some sampleEntry
  ∧ cache_categories (clearCache (Some ownerA) sampleCache) !! categoriesKey ownerB
    = Some sampleEntry.
Proof.
  split; [reflexivity|].
  destruct (clearCache_scoped_to_owner ownerA sampleCache eq_refl) as [(Hown & _) Hother].
  split; [apply Hown|].
  destruct (Hother ownerB eq_refl) as (Hp & Hc & _); [discriminate|].
  split; [rewrite Hp|rewrite Hc]; vm_compute; reflexivity.
Defined.

Lemma aggregate_read_failure_witness :
  storeUp (envDown 7) = false
  ∧ (handle sampleLibraries workState (GetCategories ownerA) (envDown 7)).1
    = (workState, mkResponse 200 (JStrings []))
  ∧ (handle sampleLibraries workState (GetTags ownerA) (envDown 7)).1
    = (workState, mkResponse 200 (JStrings []))
  ∧ (handle sampleLibraries workState (GetTags ownerB) (envAt 7 postId2)).1.2
    = mkResponse 200 (JStrings []).
Proof.
  split; [reflexivity|].
  destruct (aggregate_read_failure_is_empty_success sampleLibraries workState ownerA
              (envDown 7) eq_refl) as (Hcat & Htag & _).
  split; [by apply Hcat|]. split; [by apply Htag|].
  destruct (aggregate_read_failure_is_empty_success sampleLibraries workState ownerB
              (envDown 7) eq_refl) as (_ & _ & Hsame).
  apply (Hsame workState (envAt 7 postId2)); [reflexivity| |reflexivity].
  intros p ->%list_elem_of_singleton. discriminate.
Defined.

Lemma failed_list_witness :
  listHit ownerA listUrl (envDown 100) workState = false
  ∧ undisturbed sampleLibraries ownerA listUrl failedState quietTrace = true
  ∧ handle sampleLibraries (run sampleLibraries failedState quietTrace)
      (GetPosts ownerA listUrl noQuery) (envAt 60099 postId2)
    = (run sampleLibraries failedState quietTrace,
       mkResponse 200 (JMessage "Server error"), []).
Proof.
  split; [reflexivity|]. split; [vm_compute; reflexivity|].
  destruct (failed_list_is_served_from_cache sampleLibraries workState ownerA listUrl noQuery
              (envDown 100) eq_refl eq_refl eq_refl) as (_ & _ & Hserve).
  apply (Hserve quietTrace (envAt 60099 postId2)); [vm_compute|]; reflexivity.
Defined.


(** ** The further properties at sample inputs *)

Lemma workPost_withinSchema : withinSchema workPost.
Proof.
  split; [reflexivity|]. split; [discriminate|].
  split; [reflexivity|]. split; [reflexivity|]. split; [reflexivity|].
  repeat constructor.
Qed.

Lemma list_answer_is_newest_first_witness :
  Sorted (λ a b, createdAt b ≤ createdAt a)
    (payloadPosts
       (body (handle sampleLibraries (run sampleLibraries emptyState sampleTrace)
                (GetPosts ownerA listUrl noQuery) (envAt 30 postId3)).1.2)).
Proof.
  apply (list_answer_is_newest_first sampleLibraries emptyState sampleTrace). reflexivity.
Defined.

Lemma cache_serves_current_data_witness :
  validCallers (sampleTrace ++ [(GetPosts ownerA listUrl noQuery, envAt 30 postId3)]) = true
  ∧ freshList sampleLibraries ownerA noQuery
      (db (run sampleLibraries emptyState sampleTrace))
      (body (handle sampleLibraries (run sampleLibraries emptyState sampleTrace)
               (GetPosts ownerA listUrl noQuery) (envAt 30 postId3)).1.2).
Proof.
  split; [vm_compute; reflexivity|].
  refine (cache_serves_current_data sampleLibraries (λ _, noQuery) emptyState sampleTrace
            (GetPosts ownerA listUrl noQuery) (envAt 30 postId3) _ _ _);
    vm_compute; reflexivity.
Defined.

Lemma expired_entry_is_recomputed_witness :
  cache_posts (cache listedState) !! postsKey ownerA listUrl
  = Some (mkEntry (JPosts [selectMinusV workPost]) 100)
  ∧ (handle sampleLibraries listedState (GetPosts ownerA listUrl noQuery)
       (envAt 60100 postId2)).2 = [OpFind].
Proof.
  assert (Hentry : cache_posts (cache listedState) !! postsKey ownerA listUrl
                   = Some (mkEntry (JPosts [selectMinusV workPost]) 100))
    by (vm_compute; reflexivity).
  split; [exact Hentry|].
  destruct (expired_entry_is_recomputed sampleLibraries listedState ownerA
              (envAt 60100 postId2) (mkEntry (JPosts [selectMinusV workPost]) 100))
    as (Hlist & _ & _).
  destruct (Hlist listUrl noQuery Hentry) as (_ & Hops & _); [vm_compute; discriminate|].
  rewrite Hops. reflexivity.
Defined.

Lemma foreign_post_is_not_found_witness :
  handle sampleLibraries (mkState [notePost] emptyCache) (GetPost ownerB postId1)
    (envAt 9 postId2)
  = (mkState [notePost] emptyCache, notFound, [OpFindOne])
  ∧ handle sampleLibraries (mkState [notePost] emptyCache) (DeletePost ownerB postId1)
      (envAt 9 postId2)
    = (mkState [notePost] emptyCache, notFound, [OpFindOneAndDelete]).
Proof.
  apply (foreign_post_is_not_found sampleLibraries (mkState [notePost] emptyCache)
           ownerB postId1 (envAt 9 postId2) notePost);
    [apply NoDup_singleton|left|discriminate|reflexivity|reflexivity].
Defined.

Lemma deleted_post_stays_gone_witness :
  (∀ p, p ∈ db (run sampleLibraries deletedState laterTrace) → _id p ≠ postId1)
  ∧ handle sampleLibraries (run sampleLibraries deletedState laterTrace)
      (GetPost ownerA postId1) (envAt 40 postId3)
    = (run sampleLibraries deletedState laterTrace, notFound, [OpFindOne]).
Proof.
  destruct (deleted_post_stays_gone sampleLibraries workState deletedState ownerA postId1
              postId1 (envAt 20 postId2) (JMessage "Post deleted successfully")
              [OpFindOneAndDelete] laterTrace)
    as (Hdb & _ & Hget);
    [apply NoDup_singleton|vm_compute; reflexivity|reflexivity|reflexivity|].
  split; [exact Hdb|]. apply Hget. reflexivity.
Defined.

Lemma created_post_is_visible_witness :
  selectMinusV notePost
  ∈ payloadPosts
      (body (handle sampleLibraries (mkState [notePost] emptyCache)
               (GetPosts ownerA listUrl noQuery) (envAt 9 postId2)).1.2)
  ∧ ∃ cats, (handle sampleLibraries (mkState [notePost] emptyCache) (GetCategories ownerA)
               (envAt 9 postId2)).1.2 = mkResponse 200 (JStrings cats)
            ∧ "General" ∈ cats.
Proof.
  destruct (created_post_is_visible_to_its_owner sampleLibraries emptyState
              (mkState [notePost] emptyCache) ownerA noteBody (envAt 5 postId1)
              (envAt 9 postId2) notePost [OpSave])
    as (Hlist & Hcats & _); [vm_compute; reflexivity|reflexivity|].
  split; [apply Hlist|exact Hcats].
Defined.

Lemma only_successful_mutations_witness :
  (handle sampleLibraries workState (DeletePost ownerB postId1) (envAt 9 postId2)).1.1
  = workState.
Proof.
  apply (only_successful_mutations_change_the_collection sampleLibraries workState
           (DeletePost ownerB postId1) (envAt 9 postId2)); reflexivity.
Defined.

Lemma stored_posts_stay_within_schema_witness :
  Forall withinSchema (db workState)
  ∧ Forall withinSchema (db (run sampleLibraries workState laterTrace)).
Proof.
  assert (H : Forall withinSchema (db workState)).
  { constructor; [apply workPost_withinSchema|constructor]. }
  split; [exact H|]. by apply stored_posts_stay_within_schema.
Defined.

Lemma responses_depend_on_own_posts_only_witness :
  (handle sampleLibraries (mkState [otherPost; workPost] emptyCache)
     (GetPosts ownerA listUrl noQuery) (envAt 9 postId3)).1.2
  = (handle sampleLibraries workState (GetPosts ownerA listUrl noQuery) (envAt 9 postId3)).1.2.
Proof.
  apply (responses_depend_on_own_posts_only sampleLibraries
           (mkState [otherPost; workPost] emptyCache) workState
           (GetPosts ownerA listUrl noQuery) (envAt 9 postId3));
    vm_compute; reflexivity.
Defined.

Lemma dashboard_filter_agrees_witness :
  Dashboard.filteredPosts "milk"
    (payloadPosts (body (listPosts sampleLibraries ownerA noQuery (envAt 9 postId3)
                           (mkState [notePost; laterPost] emptyCache)).1))
    "All" ""
  = payloadPosts
      (body (listPosts sampleLibraries ownerA
               (mkListQuery (Some "All") (Some "") (Some "milk")) (envAt 9 postId3)
               (mkState [notePost; laterPost] emptyCache)).1).
Proof.
  apply (dashboard_filter_agrees_with_list_route sampleLibraries ownerA (envAt 9 postId3)
           (mkState [notePost; laterPost] emptyCache) "milk" "All" "");
    [|reflexivity..].
  intros _. apply fragmentRegex_literal. reflexivity.
Defined.

Lemma dashboard_delete_witness :
  (Dashboard.handleDelete sampleLibraries ownerA true postId1 (envAt 20 postId2) workState
     (payloadPosts (body (listPosts sampleLibraries ownerA noQuery (envAt 15 postId2)
                            workState).1))).2
  = payloadPosts
      (body (listPosts sampleLibraries ownerA noQuery (envAt 25 postId2)
               (Dashboard.handleDelete sampleLibraries ownerA true postId1 (envAt 20 postId2)
                  workState
                  (payloadPosts (body (listPosts sampleLibraries ownerA noQuery
                                         (envAt 15 postId2) workState).1))).1).1).
Proof.
  apply (dashboard_delete_keeps_list_in_step sampleLibraries ownerA postId1 true
           (envAt 20 postId2) (envAt 15 postId2) (envAt 25 postId2) workState);
    [apply NoDup_singleton|reflexivity..].
Defined.

Lemma validated_form_witness :
  EditPost.handleSubmit ownerA postId1 sampleFormData
  = Some (UpdatePost ownerA postId1 (EditPost.requestBody sampleFormData))
  ∧ (validationResult (EditPost.requestBody sampleFormData)).2 = [].
Proof.
  split; [reflexivity|].
  destruct (validated_form_is_accepted_by_the_validators sampleLibraries ownerA postId1
              sampleFormData (UpdatePost ownerA postId1 (EditPost.requestBody sampleFormData))
              workState (envAt 20 postId2))
    as (_ & Herrs & _);
    [reflexivity|simpl; lia|repeat constructor|exact Herrs].
Defined.

Lemma tag_editing_witness :
  EditPost.tagsTidy (EditPost.tags (EditPost.formData sampleForm))
  ∧ EditPost.tagsTidy (EditPost.tags (EditPost.formData (EditPost.handleAddTag sampleForm))).
Proof.
  assert (H : EditPost.tagsTidy (EditPost.tags (EditPost.formData sampleForm))).
  { split; [apply NoDup_singleton|]. constructor; [|constructor].
    split; [discriminate|]. split; [reflexivity|]. simpl. lia. }
  split; [exact H|].
  destruct (tag_editing_keeps_tags_tidy sampleForm "a" H) as [Htidy _]; [simpl; lia|].
  exact Htidy.
Defined.

Lemma unchanged_form_witness :
  ∃ d r,
    EditPost.fetchPost
      (handle sampleLibraries workState (GetPost ownerA postId1) (envAt 15 postId2)).1.2
    = Some d
    ∧ EditPost.handleSubmit ownerA postId1 d = Some r
    ∧ (handle sampleLibraries workState r (envAt 20 postId2)).1.2
      = mkResponse 200
          (JPost (selectMinusV (mkPost postId1 "Plan" "Q3" "Work" ["a"; "b"] ownerA 10 20
                                  (Some 0)))).
Proof.
  apply (unchanged_form_saves_the_same_post sampleLibraries workState ownerA postId1 postId1
           (envAt 15 postId2) (envAt 20 postId2) workPost);
    [reflexivity|reflexivity|apply workPost_withinSchema|reflexivity|reflexivity].
Defined.
